(** * neoneo: the tool-calling conversation engine

    A shallow embedding of the protocol client ([ollama_client.cpp]), the
    confirmation gate ([terminal.cpp]), the tool capabilities
    ([calculator_tool.cpp], [shell_tool.cpp], [bash_tool.cpp],
    [file_tools.cpp]), the registry ([tools_base.cpp]) and the tool round
    of the REPL ([main.cpp]), with the properties of the specification
    stated over it.

    Conventions.
    - A [std::string] is a [string]: a sequence of 8-bit characters.
    - [nlohmann::json] values are the inductive type [json]; the library's
      parser and serializer are an interface ([JsonLib]), an exception
      thrown by the library is a [Throw] in the [outcome] type.
    - Code that talks to the operator, the file system or a subprocess is
      written in the state monad [M] over a [World] that records, in order,
      every gate invocation, every spawned subprocess and every file
      mutation. *)

From Stdlib Require Import ZArith Lia Ascii DecimalString.
From Stdlib Require String.
From stdpp Require Import base option list strings gmap sorting.

Local Open Scope Z_scope.
Set Warnings "-register-all".

(** ** Strings *)

Module Str.

Definition newline : ascii := "010"%char.

Definition is_empty (s : string) : bool :=
  match s with "" => true | _ => false end.

(** [s.find(t) != npos], and the position found. *)
Definition find (t s : string) : option nat := String.index 0 t s.

(** [s.find(c) != npos] for a single character. *)
Fixpoint mem_char (c : ascii) (s : string) : bool :=
  match s with
  | "" => false
  | String d s' => if Ascii.eqb c d then true else mem_char c s'
  end.

(** [s.substr(0, n)]. *)
Definition take (n : nat) (s : string) : string := String.substring 0 n s.

(** [s.substr(n)]. *)
Fixpoint drop (n : nat) (s : string) : string :=
  match n, s with
  | O, _ => s
  | S n', String _ s' => drop n' s'
  | S _, "" => ""
  end.

Fixpoint filter (p : ascii → bool) (s : string) : string :=
  match s with
  | "" => ""
  | String c s' => if p c then String c (filter p s') else filter p s'
  end.

Fixpoint all (p : ascii → bool) (s : string) : bool :=
  match s with
  | "" => true
  | String c s' => p c && all p s'
  end.

(** The text is [pre ++ t ++ post] for some [pre] and [post]. *)
Definition contains (t s : string) : Prop :=
  ∃ pre post, s = pre +:+ t +:+ post.

Fixpoint concat (l : list string) : string :=
  match l with
  | [] => ""
  | s :: l' => s +:+ concat l'
  end.

End Str.

(** ** JSON values and the JSON library *)

Module Json.

(** A value of [nlohmann::json]. An object is kept as its list of
    members; numbers are the integers (the floating-point numbers of
    JSON are left out of the model). *)
Inductive json : Type :=
| JNull
| JBool (b : bool)
| JNum (n : Z)
| JStr (s : string)
| JArr (items : list json)
| JObj (members : list (string * json)).

(** What the library throws. [json::parse] throws [parse_error] on a
    text that is not JSON and [out_of_range] 406 on a number that
    overflows; a typed read of a value of another type throws
    [type_error] 302. The three are classes of their own under
    [json::exception]: a [catch (json::parse_error&)] holds the first
    and lets the other two through. *)
Inductive exn : Type :=
| parse_error
| out_of_range (id : Z)
| type_error (id : Z).

Inductive outcome (A : Type) : Type :=
| Ok (a : A)
| Throw (e : exn).
Arguments Ok {A} a.
Arguments Throw {A} e.

Definition bind {A B} (o : outcome A) (k : A → outcome B) : outcome B :=
  match o with
  | Ok a => k a
  | Throw e => Throw e
  end.

(** [try { body } catch (json::parse_error&) { handler }]. *)
Definition catch_parse_error {A} (body handler : outcome A) : outcome A :=
  match body with
  | Throw parse_error => handler
  | _ => body
  end.

(** [try { body } catch (...) { handler }]. *)
Definition catch_all {A} (body : outcome A) (handler : A) : A :=
  match body with
  | Ok a => a
  | Throw _ => handler
  end.

Fixpoint assoc (k : string) (ms : list (string * json)) : option json :=
  match ms with
  | [] => None
  | (k', v) :: ms' => if String.eqb k k' then Some v else assoc k ms'
  end.

(** [j.find(k)]: the member [k] of an object, nothing for any other value. *)
Definition member (k : string) (j : json) : option json :=
  match j with
  | JObj ms => assoc k ms
  | _ => None
  end.

(** [j.contains(k)]: false when [j] is not an object. *)
Definition contains (j : json) (k : string) : bool :=
  match member k j with Some _ => true | None => false end.

(** [j[k]], read after [contains] has answered true. *)
Definition at_key (j : json) (k : string) : json :=
  match member k j with Some v => v | None => JNull end.

Definition is_string (j : json) : bool :=
  match j with JStr _ => true | _ => false end.

Definition is_number (j : json) : bool :=
  match j with JNum _ => true | _ => false end.

(** [j.get<std::string>()]. *)
Definition get_string (j : json) : outcome string :=
  match j with
  | JStr s => Ok s
  | _ => Throw (type_error 302)
  end.

(** The same read where the code has checked [is_string] before. *)
Definition string_of (j : json) : string :=
  match j with JStr s => s | _ => "" end.

(** A 32-bit [int] holds the integers of [-2^31, 2^31); a wider integer
    converted to [int] keeps its low 32 bits. That is the conversion of
    the numbers the library holds as 64-bit integers, the integers of
    [-2^63, 2^64); a number beyond them is held as a floating-point
    number, which this model leaves out. *)
Definition int_min : Z := - 2 ^ 31.
Definition int_max : Z := 2 ^ 31 - 1.
Definition to_int (n : Z) : Z := (n + 2 ^ 31) mod 2 ^ 32 - 2 ^ 31.

(** [j.get<int>()], read after [is_number] has answered true. *)
Definition get_int (j : json) : Z :=
  match j with JNum n => to_int n | _ => 0 end.

(** The parser and the serializer of the JSON library.
    [json_parse s] is the value [json::parse(s)] returns or the
    exception it throws: [parse_error] on a text that is not JSON,
    [out_of_range] 406 on a text with a number too large for a [double];
    [json_dump j = None] when [j.dump()] throws (a string that is not
    valid UTF-8). *)
Class JsonLib : Type := {
  json_parse : string → outcome json;
  json_dump : json → option string
}.

End Json.

Export Json.

(** ** The protocol client ([ollama_client.hpp], [ollama_client.cpp]) *)

Module Client.

Record ToolCall : Type := {
  tc_id : string;
  tc_name : string;
  tc_arguments : json
}.

Record ChatMessage : Type := {
  role : string;
  content : string;
  name : string;
  tool_calls : list ToolCall
}.

(** [ChatMessage(role, content)]. *)
Definition mk_message (r c : string) : ChatMessage :=
  {| role := r; content := c; name := ""; tool_calls := [] |}.

(** [ChatMessage::make_tool_response(content, name)]. *)
Definition make_tool_response (c n : string) : ChatMessage :=
  {| role := "tool"; content := c; name := n; tool_calls := [] |}.

Record Tool : Type := {
  tool_type : string;
  fn_name : string;
  fn_description : string;
  fn_parameters : json
}.

(** The HTTP transfer, as the client sees it: whether [curl_easy_init]
    gives a handle, and what [curl_easy_perform] does with a request:
    the pieces of the response body it hands to the write callback, in
    order, and the [CURLcode] it returns. *)
Definition CURLcode := Z.
Definition CURLE_OK : CURLcode := 0.

Record Transport : Type := {
  curl_easy_init : bool;
  curl_easy_perform : string → string → list string * CURLcode
}.

Section WithJsonLib.
Context `{JsonLib}.

(** *** [stream_callback] *)

(** The body of the loop for one complete line: what is handed to the
    caller's callback, if anything. A line on which the parser throws
    [parse_error] is reported and dropped ([catch (json::parse_error&)]);
    any other exception of the parser, and the [type_error] of the typed
    read of [content], which is inside the same [try], are not caught
    there. *)
Definition stream_line (line : string) : outcome (option string) :=
  if Str.is_empty line then Ok None
  else
    catch_parse_error
      (bind (json_parse line) (λ j,
         if contains j "message" && contains (at_key j "message") "content"
         then bind (get_string (at_key (at_key j "message") "content"))
                   (λ resp, Ok (Some resp))
         else Ok None))
      (Ok None).

(** The [while] loop over the buffer. [line] is the text between [pos]
    and the character under inspection; at a line feed the line is
    handled and [pos] moves behind it. The result is the fragments
    handed to the callback, in order, and either the text left after
    the last line feed (the new buffer) or the exception that ended
    the loop. *)
Fixpoint scan_lines (line buf : string) : list string * outcome string :=
  match buf with
  | "" => ([], Ok line)
  | String c rest =>
      if Ascii.eqb c Str.newline then
        match stream_line line with
        | Throw e => ([], Throw e)
        | Ok o =>
            let '(out, r) := scan_lines "" rest in
            (option_list o ++ out, r)
        end
      else scan_lines (line +:+ String c "") rest
  end.

(** One call of the write callback: the chunk is appended to the
    buffer and the buffer is scanned from its start. *)
Definition stream_callback (response_buffer chunk : string)
  : list string * outcome string :=
  scan_lines "" (response_buffer +:+ chunk).

(** The transfer calls the write callback once per chunk, in order.
    An exception leaving the callback ends the transfer. *)
Fixpoint receive (response_buffer : string) (chunks : list string)
  : list string * outcome string :=
  match chunks with
  | [] => ([], Ok response_buffer)
  | chunk :: chunks' =>
      match stream_callback response_buffer chunk with
      | (out, Throw e) => (out, Throw e)
      | (out, Ok buffer') =>
          let '(out', r) := receive buffer' chunks' in
          (out ++ out', r)
      end
  end.

(** *** The request body *)

Definition message_json (msg : ChatMessage) : json :=
  JObj ([("role", JStr (role msg)); ("content", JStr (content msg))]
        ++ (if String.eqb (role msg) "tool" && negb (Str.is_empty (name msg))
            then [("name", JStr (name msg))] else [])).

Definition tool_json (t : Tool) : json :=
  JObj [("type", JStr (tool_type t));
        ("function", JObj [("name", JStr (fn_name t));
                           ("description", JStr (fn_description t));
                           ("parameters", fn_parameters t)])].

Definition payload (model : string) (messages : list ChatMessage)
    (tools : list Tool) (stream : bool) : json :=
  JObj ([("model", JStr model);
         ("messages", JArr (message_json <$> messages));
         ("stream", JBool stream)]
        ++ (match tools with
            | [] => []
            | _ => [("tools", JArr (tool_json <$> tools))]
            end)).

(** *** [parse_tool_calls] *)

Definition parse_arguments (function : json) : outcome json :=
  if contains function "arguments" then
    let arguments := at_key function "arguments" in
    if is_string arguments then
      catch_parse_error (json_parse (string_of arguments))
                        (Ok (JStr (string_of arguments)))
    else Ok arguments
  else Ok JNull.

Definition parse_tool_call (tool_call_json : json) : outcome ToolCall :=
  bind (if contains tool_call_json "id"
        then get_string (at_key tool_call_json "id") else Ok "")
  (λ id,
    if contains tool_call_json "function" then
      let function := at_key tool_call_json "function" in
      bind (if contains function "name"
            then get_string (at_key function "name") else Ok "")
      (λ nm,
        bind (parse_arguments function) (λ arguments,
          Ok {| tc_id := id; tc_name := nm; tc_arguments := arguments |}))
    else Ok {| tc_id := id; tc_name := ""; tc_arguments := JNull |}).

Fixpoint parse_entries (entries : list json) : outcome (list ToolCall) :=
  match entries with
  | [] => Ok []
  | e :: entries' =>
      bind (parse_tool_call e) (λ tc,
      bind (parse_entries entries') (λ tcs, Ok (tc :: tcs)))
  end.

Definition parse_tool_calls (message_json : json) : outcome (list ToolCall) :=
  if contains message_json "tool_calls" then
    match at_key message_json "tool_calls" with
    | JArr entries => parse_entries entries
    | _ => Ok []
    end
  else Ok [].

(** *** [chat_stream] and [chat] *)

(** [OllamaClient::Impl::chat_stream]: the fragments handed to the
    caller's callback, and whether the call returned. *)
Definition chat_stream (host : string) (t : Transport) (model : string)
    (messages : list ChatMessage) (tools : list Tool)
  : list string * outcome unit :=
  if negb (curl_easy_init t) then ([], Ok tt)
  else
    match json_dump (payload model messages tools true) with
    | None => ([], Throw (type_error 316))
    | Some payload_str =>
        let '(chunks, res) :=
          curl_easy_perform t (host +:+ "/api/chat") payload_str in
        match receive "" chunks with
        | (out, Ok _) => (out, Ok tt)
        | (out, Throw e) => (out, Throw e)
        end
    end.

(** [write_callback] appends every chunk to the response. *)
Definition write_callback (data chunk : string) : string := data +:+ chunk.

(** [OllamaClient::Impl::chat] without a stream callback. *)
Definition chat (host : string) (t : Transport) (model : string)
    (messages : list ChatMessage) (tools : list Tool)
  : outcome ChatMessage :=
  if negb (curl_easy_init t) then Ok (mk_message "assistant" "")
  else
    match json_dump (payload model messages tools false) with
    | None => Throw (type_error 316)
    | Some payload_str =>
        let '(chunks, res) :=
          curl_easy_perform t (host +:+ "/api/chat") payload_str in
        let response := foldl write_callback "" chunks in
        if Z.eqb res CURLE_OK then
          catch_parse_error
            (bind (json_parse response) (λ j,
               if contains j "message" then
                 let message := at_key j "message" in
                 bind (if contains message "content"
                       then get_string (at_key message "content")
                       else Ok "")
                 (λ c,
                   bind (parse_tool_calls message) (λ tcs,
                     Ok {| role := "assistant"; content := c;
                           name := ""; tool_calls := tcs |}))
               else Ok (mk_message "assistant" "")))
            (Ok (mk_message "assistant" ""))
        else Ok (mk_message "assistant" "")
    end.

(** [chat] with a stream callback: the text is what [chat_stream]
    hands over, accumulated. *)
Definition chat_streaming (host : string) (t : Transport) (model : string)
    (messages : list ChatMessage) (tools : list Tool)
  : list string * outcome ChatMessage :=
  match chat_stream host t model messages tools with
  | (out, Ok _) => (out, Ok (mk_message "assistant" (Str.concat out)))
  | (out, Throw e) => (out, Throw e)
  end.

End WithJsonLib.

End Client.


(** ** A small instance of the JSON library

    ASCII JSON texts with integer numbers, also written with an exponent
    that is not negative, and the two-character escapes for the quote,
    the backslash, the slash, the line feed, the tab and the carriage
    return. A number too large for a [double] is the library's
    [out_of_range] 406, as in the library, where the parser reports it
    when it meets the number. It is the instance at which the examples
    below are evaluated; the theorems hold for every instance of
    [JsonLib]. *)

Module MiniJson.

Definition is_ws (c : ascii) : bool :=
  match c with
  | " " | "009" | "010" | "013" => true
  | _ => false
  end%char.

Fixpoint skip_ws (s : string) : string :=
  match s with
  | String c s' => if is_ws c then skip_ws s' else s
  | "" => ""
  end.

Definition digit (c : ascii) : option Z :=
  match Ascii.is_nat c with
  | Some n => Some (Z.of_nat n)
  | None => None
  end.

Fixpoint digits (acc : Z) (s : string) : Z * string :=
  match s with
  | String c s' =>
      match digit c with
      | Some d => digits (10 * acc + d) s'
      | None => (acc, s)
      end
  | "" => (acc, "")
  end.

Definition unescape (c : ascii) : option ascii :=
  match c with
  | "034" => Some "034"
  | "\" => Some "\"
  | "/" => Some "/"
  | "n" => Some "010"
  | "t" => Some "009"
  | "r" => Some "013"
  | _ => None
  end%char.

(** The text of a string literal after its opening quote. *)
Fixpoint string_body (s : string) : option (string * string) :=
  match s with
  | "" => None
  | String c s' =>
      if Ascii.eqb c "034" then Some ("", s')
      else if Ascii.eqb c "\" then
        match s' with
        | String e s'' =>
            match unescape e, string_body s'' with
            | Some ch, Some (t, r) => Some (String ch t, r)
            | _, _ => None
            end
        | "" => None
        end
      else if (nat_of_ascii c <? 32)%nat then None
      else
        match string_body s' with
        | Some (t, r) => Some (String c t, r)
        | None => None
        end
  end.

(** A number too large for a [double]: from [2^1024 - 2^970] on, the
    nearest [double] is infinity. *)
Definition overflows (n : Z) : bool := 2 ^ 1024 - 2 ^ 970 <=? Z.abs n.

(** The digits of a number literal after its first digit [d], with an
    exponent if there is one: the integer it denotes, or the exception
    for a number that overflows. *)
Definition number (d : Z) (s : string) : outcome (Z * string) :=
  let '(m, r) := digits d s in
  match r with
  | String c r1 =>
      if Ascii.eqb c "e" || Ascii.eqb c "E" then
        let r2 := match r1 with
                  | String "+" r2 => r2
                  | _ => r1
                  end in
        match r2 with
        | String c2 r3 =>
            match digit c2 with
            | Some d2 =>
                let '(e, r4) := digits d2 r3 in
                if m =? 0 then Ok (0, r4)
                else if 400 <? e then Throw (out_of_range 406)
                else if overflows (m * 10 ^ e) then Throw (out_of_range 406)
                else Ok (m * 10 ^ e, r4)
            | None => Throw parse_error
            end
        | "" => Throw parse_error
        end
      else if overflows m then Throw (out_of_range 406) else Ok (m, r)
  | "" => if overflows m then Throw (out_of_range 406) else Ok (m, r)
  end.

Definition body_or_error (s : string) : outcome (string * string) :=
  match string_body s with
  | Some tr => Ok tr
  | None => Throw parse_error
  end.

Fixpoint value (fuel : nat) (s : string) : outcome (json * string) :=
  match fuel with
  | O => Throw parse_error
  | S fuel' =>
      match skip_ws s with
      | String "n" (String "u" (String "l" (String "l" r))) => Ok (JNull, r)
      | String "t" (String "r" (String "u" (String "e" r))) =>
          Ok (JBool true, r)
      | String "f" (String "a" (String "l" (String "s" (String "e" r)))) =>
          Ok (JBool false, r)
      | String "034" r =>
          bind (body_or_error r) (λ '(t, r'), Ok (JStr t, r'))
      | String "[" r =>
          match skip_ws r with
          | String "]" r' => Ok (JArr [], r')
          | _ => bind (elements fuel' r) (λ '(vs, r'), Ok (JArr vs, r'))
          end
      | String "{" r =>
          match skip_ws r with
          | String "}" r' => Ok (JObj [], r')
          | _ => bind (members fuel' r) (λ '(ms, r'), Ok (JObj ms, r'))
          end
      | String "-" (String c r) =>
          match digit c with
          | Some d => bind (number d r) (λ '(n, r'), Ok (JNum (- n), r'))
          | None => Throw parse_error
          end
      | String c r =>
          match digit c with
          | Some d => bind (number d r) (λ '(n, r'), Ok (JNum n, r'))
          | None => Throw parse_error
          end
      | "" => Throw parse_error
      end
  end
with elements (fuel : nat) (s : string) : outcome (list json * string) :=
  match fuel with
  | O => Throw parse_error
  | S fuel' =>
      bind (value fuel' s) (λ '(v, r),
        match skip_ws r with
        | String "," r' =>
            bind (elements fuel' r') (λ '(vs, r''), Ok (v :: vs, r''))
        | String "]" r' => Ok ([v], r')
        | _ => Throw parse_error
        end)
  end
with members (fuel : nat) (s : string)
  : outcome (list (string * json) * string) :=
  match fuel with
  | O => Throw parse_error
  | S fuel' =>
      match skip_ws s with
      | String "034" r =>
          bind (body_or_error r) (λ '(k, r1),
            match skip_ws r1 with
            | String ":" r2 =>
                bind (value fuel' r2) (λ '(v, r3),
                  match skip_ws r3 with
                  | String "," r4 =>
                      bind (members fuel' r4)
                           (λ '(ms, r5), Ok ((k, v) :: ms, r5))
                  | String "}" r4 => Ok ([(k, v)], r4)
                  | _ => Throw parse_error
                  end)
            | _ => Throw parse_error
            end)
      | _ => Throw parse_error
      end
  end.

Definition parse (s : string) : outcome json :=
  bind (value (2 * String.length s + 2) s) (λ '(v, r),
    if Str.is_empty (skip_ws r) then Ok v else Throw parse_error).

Definition escape (c : ascii) : string :=
  if Ascii.eqb c "034" then String "\" (String "034" "")
  else if Ascii.eqb c "\" then String "\" (String "\" "")
  else if Ascii.eqb c "010" then String "\" (String "n" "")
  else if Ascii.eqb c "009" then String "\" (String "t" "")
  else if Ascii.eqb c "013" then String "\" (String "r" "")
  else String c "".

Fixpoint quote_body (s : string) : string :=
  match s with
  | "" => ""
  | String c s' => escape c +:+ quote_body s'
  end.

Definition quote (s : string) : string :=
  String "034" (quote_body s +:+ String "034" "").

(** JSON texts are written below with an apostrophe for each quotation
    mark: [text "{'a':1}"] is the text  {"a":1}. *)
Fixpoint text (s : string) : string :=
  match s with
  | "" => ""
  | String c s' => String (if Ascii.eqb c "'" then "034"%char else c) (text s')
  end.

Definition is_ascii (c : ascii) : bool := (nat_of_ascii c <? 128)%nat.

Fixpoint dump_value (j : json) : string :=
  match j with
  | JNull => "null"
  | JBool true => "true"
  | JBool false => "false"
  | JNum n => NilZero.string_of_int (Z.to_int n)
  | JStr s => quote s
  | JArr vs =>
      "[" +:+ (fix go (l : list json) : string :=
                 match l with
                 | [] => ""
                 | [v] => dump_value v
                 | v :: l' => dump_value v +:+ "," +:+ go l'
                 end) vs +:+ "]"
  | JObj ms =>
      "{" +:+ (fix go (l : list (string * json)) : string :=
                 match l with
                 | [] => ""
                 | [(k, v)] => quote k +:+ ":" +:+ dump_value v
                 | (k, v) :: l' =>
                     quote k +:+ ":" +:+ dump_value v +:+ "," +:+ go l'
                 end) ms +:+ "}"
  end.

(** The serializer refuses a text with a byte outside ASCII (where the
    library would check that it is UTF-8). *)
Definition dump (j : json) : option string :=
  let s := dump_value j in
  if Str.all is_ascii s then Some s else None.

#[export] Instance lib : JsonLib := {| json_parse := parse; json_dump := dump |}.

End MiniJson.


(** ** Configuration ([config.cpp]): the flags the tools read *)

Module Config.

(** Modelled from the spec: the declaration of [Config] is in
    [config.hpp], which is not among the sources. The boolean feature
    flags of the configuration, under the names of the accessors the
    tools and [main.cpp] call. *)
Record Config : Type := {
  is_tools_enabled : bool;
  is_shell_enabled : bool;
  is_file_ops_enabled : bool;
  is_model_list_enabled : bool;
  is_auto_confirm_shell : bool;
  is_auto_confirm_file_ops : bool;
  is_calc_safety_ignored : bool;
  is_shell_safety_ignored : bool;
  is_debug_mode : bool
}.

End Config.

Export Config.

(** ** The world of a tool execution *)

Module Sys.

(** The kinds of dialog, as the [switch] of [confirm_dialog] has them. *)
Inductive ConfirmType : Type := SHELL_COMMAND | FILE_OPERATION | CALCULATION.

(** What an execution does to its surroundings, in the order it happens:
    a confirmation dialog put before the operator, a call of [popen], a
    directory created, a file opened for writing and written. Plain
    terminal output is not recorded. *)
Inductive Event : Type :=
| EConfirm (type : ConfirmType) (title message details tip : string)
| EPopen (command : string)
| EMkdir (dir : string)
| EWrite (path data : string).

Record File : Type := {
  f_data : string;
  f_readable : bool;
  f_writable : bool
}.

(** A subprocess behind a pipe: whether [popen] gives a pipe, what the
    successive [fgets] calls return before the end of the output,
    whether the last of them met the end of the output while it read
    (the output does not end with a line feed: [feof] holds right after
    that call; otherwise it holds only after one more call, which
    returns nothing), the time elapsed (in milliseconds) at the i-th
    pass through the read loop, and the exit status. *)
Record Process : Type := {
  p_pipe : bool;
  p_reads : list string;
  p_eof : bool;
  p_elapsed : nat → Z;
  p_exit : Z
}.

(** [feof(pipe)] after a call of [fgets] that returned a piece, the
    pieces in [rest] being still to come. *)
Definition feof (eof : bool) (rest : list string) : bool :=
  match rest with
  | [] => eof
  | _ => false
  end.

Record World : Type := {
  w_keys : list ascii;
  w_files : gmap string File;
  w_dirs : gset string;
  w_creatable : string → bool;
  w_popen : string → Process;
  w_trace : list Event
}.

Definition M (A : Type) : Type := World → A * World.

#[export] Instance M_ret : MRet M := λ A a w, (a, w).
#[export] Instance M_bind : MBind M :=
  λ A B k m w, let '(a, w') := m w in k a w'.

Definition get_world : M World := λ w, (w, w).

Definition log (e : Event) : M unit := λ w,
  (tt, {| w_keys := w_keys w; w_files := w_files w; w_dirs := w_dirs w;
          w_creatable := w_creatable w; w_popen := w_popen w;
          w_trace := w_trace w ++ [e] |}).

(** [get_keypress]: one character from the terminal, 0 when the read
    gives nothing. *)
Definition get_keypress : M ascii := λ w,
  match w_keys w with
  | [] => ("000"%char, w)
  | c :: keys =>
      (c, {| w_keys := keys; w_files := w_files w; w_dirs := w_dirs w;
             w_creatable := w_creatable w; w_popen := w_popen w;
             w_trace := w_trace w |})
  end.

(** [terminal::confirm_dialog]: the Confirmation Gate. Enter (carriage
    return or line feed) confirms, any other key cancels. *)
Definition confirm_dialog (type : ConfirmType)
    (title message details tip : string) : M bool :=
  _ ← log (EConfirm type title message details tip);
  c ← get_keypress;
  mret (Ascii.eqb c "013" || Ascii.eqb c "010").

(** [popen(command, "r")]. *)
Definition popen (command : string) : M (option Process) :=
  _ ← log (EPopen command);
  w ← get_world;
  mret (if p_pipe (w_popen w command) then Some (w_popen w command) else None).

(** [fs::exists]. *)
Definition exists_ (path : string) : M bool := λ w,
  (bool_decide (is_Some (w_files w !! path)) || bool_decide (path ∈ w_dirs w), w).

(** [std::ifstream in(path)] and the read of the whole file: nothing when
    the stream is not open. The stream opens on a directory, and the
    read gives nothing. *)
Definition read_file (path : string) : M (option string) := λ w,
  (match w_files w !! path with
   | Some f => if f_readable f then Some (f_data f) else None
   | None => if bool_decide (path ∈ w_dirs w) then Some "" else None
   end, w).

(** [fs::create_directories]. *)
Definition add_dir (dir : string) : M unit := λ w,
  (tt, {| w_keys := w_keys w; w_files := w_files w;
          w_dirs := {[dir]} ∪ w_dirs w;
          w_creatable := w_creatable w; w_popen := w_popen w;
          w_trace := w_trace w |}).

Definition create_directories (dir : string) : M unit :=
  _ ← log (EMkdir dir);
  add_dir dir.

Definition can_open_for_writing (path : string) (w : World) : bool :=
  match w_files w !! path with
  | Some f => f_writable f
  | None => w_creatable w path && negb (bool_decide (path ∈ w_dirs w))
  end.

Definition put_file (path data : string) : M unit := λ w,
  let f := match w_files w !! path with
           | Some f => {| f_data := data; f_readable := f_readable f;
                          f_writable := f_writable f |}
           | None => {| f_data := data; f_readable := true;
                        f_writable := true |}
           end in
  (tt, {| w_keys := w_keys w; w_files := <[path := f]> (w_files w);
          w_dirs := w_dirs w; w_creatable := w_creatable w;
          w_popen := w_popen w; w_trace := w_trace w |}).

(** [std::ofstream out(path); out << data]: false when the stream is
    not open, and then nothing is written. *)
Definition write_file (path data : string) : M bool :=
  w ← get_world;
  if can_open_for_writing path w
  then _ ← log (EWrite path data); _ ← put_file path data; mret true
  else mret false.

(** The events an execution adds to the trace. *)
Definition events {A} (m : M A) (w : World) : list Event :=
  drop (length (w_trace w)) (w_trace (m w).2).

Definition is_confirm (e : Event) : bool :=
  match e with EConfirm _ _ _ _ _ => true | _ => false end.

Definition is_side_effect (e : Event) : bool :=
  match e with EConfirm _ _ _ _ _ => false | _ => true end.

(** How often the gate was invoked. *)
Definition gate_count (evs : list Event) : nat :=
  length (List.filter is_confirm evs).

(** No subprocess spawned, no directory created, no file written. *)
Definition no_side_effect (evs : list Event) : Prop :=
  List.forallb (λ e, negb (is_side_effect e)) evs = true.

End Sys.

Export Sys.


(** ** The tool capabilities *)

Module Tools.

(** Modelled from the spec: the declaration of [ToolResult] is in
    [tools.hpp], which is not among the sources. A tagged outcome,
    [success(content)] or [error(message)], never both; the fields are the
    ones [main.cpp] reads. *)
Record ToolResult : Type := {
  is_success : bool;
  content : string;
  error_message : string
}.

Definition success (c : string) : ToolResult :=
  {| is_success := true; content := c; error_message := "" |}.

Definition error (m : string) : ToolResult :=
  {| is_success := false; content := ""; error_message := m |}.

(** [std::to_string] of an [int]. *)
Definition to_string (n : Z) : string := NilZero.string_of_int (Z.to_int n).

Definition found (o : option nat) : bool :=
  match o with Some _ => true | None => false end.

(** The loop of [is_command_safe] and [is_expression_safe]: the first
    entry of the blocklist that occurs in the text. [None] is the answer
    "safe". *)
Fixpoint first_blocked (blocked : list string) (s : string) : option string :=
  match blocked with
  | [] => None
  | b :: blocked' =>
      if found (Str.find b s) then Some b else first_blocked blocked' s
  end.

(** The text matches the blocklist: one of its entries occurs in it. *)
Definition matches_blocklist (blocked : list string) (s : string) : Prop :=
  ∃ b, b ∈ blocked ∧ Str.contains b s.

(** The argument [k] is present and is a string. *)
Definition has_string (args : json) (k : string) : bool :=
  contains args k && is_string (at_key args k).

(** The optional [timeout] argument, kept within [lo, hi]. *)
Definition timeout_arg (args : json) (default lo hi : Z) : Z :=
  if contains args "timeout" && is_number (at_key args "timeout") then
    let t := get_int (at_key args "timeout") in
    if t >? hi then hi else if t <? lo then lo else t
  else default.

(** *** The calculator ([calculator_tool.cpp]) *)

Module Calculator.

Definition blocked_patterns : list string :=
  ["system"; "exec"; "shell"; "quit"; "halt"; "cd"; "rm"; "mv"].

Definition is_expression_safe (expression : string) : option string :=
  first_blocked blocked_patterns expression.

Definition allowed_chars : string :=
  "0123456789.+-*/^%() "
  +:+ String "009" (String "010"
        "abcdefghijklmnopqrstuvwxyzABCDEFGHIJKLMNOPQRSTUVWXYZ_").

Definition allowed (c : ascii) : bool := Str.mem_char c allowed_chars.

Definition sanitize (expression : string) : string :=
  Str.filter allowed expression.

(** The expression after the length limit. *)
Definition limit (sanitized_expression : string) : string :=
  if (500 <? String.length sanitized_expression)%nat
  then Str.take 500 sanitized_expression
  else sanitized_expression.

Definition command_line (sanitized_expression : string) : string :=
  "echo '" +:+ sanitized_expression +:+ "' | BC_LINE_LENGTH=0 bc -l".

(** The read loop, from its i-th pass on: an error result, or the
    output read. A pass is made while [feof] does not hold. *)
Fixpoint read_output (elapsed : nat → Z) (eof : bool) (i : nat)
    (reads : list string) (result : string) : ToolResult + string :=
  if elapsed i >? 2000 then
    inl (error "Calculation timed out (possible infinite loop or too complex)")
  else
    match reads with
    | [] => inr result
    | chunk :: reads' =>
        let result' := result +:+ chunk in
        if (1000 <? String.length result')%nat
        then inl (error "Result too large")
        else if feof eof reads' then inr result'
        else read_output elapsed eof (S i) reads' result'
    end.

Definition isspace (c : ascii) : bool :=
  match c with
  | " " | "009" | "010" | "011" | "012" | "013" => true
  | _ => false
  end%char.

Fixpoint trim_left (s : string) : string :=
  match s with
  | String c s' => if isspace c then trim_left s' else s
  | "" => ""
  end.

Definition trim (s : string) : string :=
  String.rev (trim_left (String.rev (trim_left s))).

Definition report (result : string) : ToolResult :=
  let result := trim result in
  if Str.is_empty result then error "Invalid expression or no result"
  else if found (Str.find "syntax error" result)
          || found (Str.find "error" result)
  then error ("Error: " +:+ result)
  else success result.

Definition evaluate (sanitized_expression : string) : M ToolResult :=
  pipe ← popen (command_line (limit sanitized_expression));
  match pipe with
  | None => mret (error "Failed to execute calculation")
  | Some p =>
      match read_output (p_elapsed p) (p_eof p) 0 (p_reads p) "" with
      | inl e => mret e
      | inr result => mret (report result)
      end
  end.

Definition execute (cfg : Config) (args : json) : M ToolResult :=
  if negb (contains args "expression")
     || negb (is_string (at_key args "expression"))
  then mret (error "Missing or invalid 'expression' parameter")
  else
    let expression := string_of (at_key args "expression") in
    let sanitized_expression := sanitize expression in
    if negb (is_calc_safety_ignored cfg) then
      match is_expression_safe sanitized_expression with
      | Some pattern_found =>
          confirmed ← confirm_dialog CALCULATION
            "The expression contains a potentially unsafe pattern:"
            ("'" +:+ pattern_found +:+ "' found in: " +:+ expression)
            "This might be a false positive, but could be an attempt to execute code."
            "Tip: Use --ignore-calc-safety to disable these warnings.";
          if negb confirmed then
            mret (error ("Calculation aborted due to security concerns with pattern: "
                         +:+ pattern_found))
          else evaluate sanitized_expression
      | None => evaluate sanitized_expression
      end
    else evaluate sanitized_expression.

End Calculator.

(** *** The shell tool ([shell_tool.cpp]) *)

Module Shell.

Definition blocked_commands : list string :=
  ["rm"; "mkfs"; "dd"; ">"; ">>"; "|"; "&"; ";"; "&&"; "||";
   "sudo"; "su"; "chmod"; "chown"; "passwd"; "mv"; "curl"; "wget";
   "ssh"; "scp"; "ftp"; "telnet"; "nc"; "ncat"; "sleep"; "perl";
   "python"; "python3"; "ruby"; "bash"; "sh"; "zsh"; "csh"; "ksh"].

Definition is_command_safe (command : string) : option string :=
  first_blocked blocked_commands command.

(** The read loop, from its i-th pass on: the output read, and whether
    the time ran out. A pass is made while [feof] does not hold. *)
Fixpoint read_output (elapsed : nat → Z) (timeout_seconds : Z) (eof : bool)
    (i : nat) (reads : list string) (result : string) : string * bool :=
  if elapsed i >? 1000 * timeout_seconds then (result, true)
  else
    match reads with
    | [] => (result, false)
    | chunk :: reads' =>
        let result' := result +:+ chunk in
        if (1000 <? String.length result')%nat
        then (Str.take 1000 result' +:+ String "010" "... (output truncated)",
              false)
        else if feof eof reads' then (result', false)
        else read_output elapsed timeout_seconds eof (S i) reads' result'
    end.

Definition run (command : string) (timeout_seconds : Z) : M ToolResult :=
  pipe ← popen (command +:+ " 2>&1");
  match pipe with
  | None => mret (error "Failed to execute command")
  | Some p =>
      let '(result, timed_out) :=
        read_output (p_elapsed p) timeout_seconds (p_eof p) 0 (p_reads p) ""
      in
      if timed_out then
        mret (error ("Command execution timed out after "
                     +:+ to_string timeout_seconds +:+ " seconds"))
      else
        mret (success (if Str.is_empty result
                       then "Command executed successfully (no output)"
                       else result))
  end.

(** The second dialog: every command is put before the operator unless
    auto-confirm is set. *)
Definition confirm_and_run (cfg : Config) (command : string)
    (timeout_seconds : Z) : M ToolResult :=
  if negb (is_auto_confirm_shell cfg) then
    confirmed ← confirm_dialog SHELL_COMMAND
      "The AI is requesting to execute the following command:"
      command
      "This could potentially modify your system."
      "";
    if negb confirmed then mret (error "Command execution denied by user")
    else run command timeout_seconds
  else run command timeout_seconds.

Definition execute (cfg : Config) (args : json) : M ToolResult :=
  if negb (contains args "command")
     || negb (is_string (at_key args "command"))
  then mret (error "Missing or invalid 'command' parameter")
  else
    let command := string_of (at_key args "command") in
    let timeout_seconds := timeout_arg args 5 1 30 in
    if negb (is_shell_safety_ignored cfg) then
      match is_command_safe command with
      | Some operation_found =>
          confirmed ← confirm_dialog SHELL_COMMAND
            "The command contains a potentially dangerous operation:"
            ("'" +:+ operation_found +:+ "' found in: " +:+ command)
            "This could potentially harm your system or expose sensitive data."
            "Tip: Use --ignore-shell-safety to disable these warnings.";
          if negb confirmed then
            mret (error ("Command execution aborted due to security concerns with operation: "
                         +:+ operation_found))
          else confirm_and_run cfg command timeout_seconds
      | None => confirm_and_run cfg command timeout_seconds
      end
    else confirm_and_run cfg command timeout_seconds.

End Shell.

(** *** The bash tool ([bash_tool.cpp]) *)

Module Bash.

Definition blocked_commands : list string :=
  ["rm -rf"; "mkfs"; "dd if="; "> /dev"; "echo > /dev"; ">/dev";
   "sudo rm"; "sudo mv"; "sudo cp"; "reboot"; "shutdown";
   "passwd"; "chmod 777"; "chmod -R 777"; ":(){ :|:& };:"; "fork bomb"].

Definition is_command_safe (command : string) : option string :=
  first_blocked blocked_commands command.

(** The read loop of [execute_command], from its i-th pass on: the
    output read, or nothing when the time ran out. A pass is made while
    [feof] does not hold. *)
Fixpoint read_output (elapsed : nat → Z) (timeout_seconds : Z) (eof : bool)
    (i : nat) (reads : list string) (result : string) : option string :=
  if elapsed i >? 1000 * timeout_seconds then None
  else
    match reads with
    | [] => Some result
    | chunk :: reads' =>
        let result' := result +:+ chunk in
        if Z.of_nat (String.length result') >? 1000000
        then Some (Str.take (Z.to_nat 1000000) result'
                   +:+ String "010" "... (output truncated due to size limit)")
        else if feof eof reads' then Some result'
        else read_output elapsed timeout_seconds eof (S i) reads' result'
    end.

Definition format_result (exit_code : Z) (result : string) : string :=
  if exit_code =? 0 then
    if Str.is_empty result then "Command executed successfully (no output)"
    else result
  else
    "Command failed with exit code: " +:+ to_string exit_code
    +:+ String "010" (if Str.is_empty result then ""
                      else "Output:" +:+ String "010" result).

(** [execute_command]: the text returned and the [timed_out] flag. *)
Definition execute_command (command : string) (timeout_seconds : Z)
  : M (string * bool) :=
  pipe ← popen command;
  match pipe with
  | None => mret ("Error: Failed to execute command", false)
  | Some p =>
      match read_output (p_elapsed p) timeout_seconds (p_eof p) 0
              (p_reads p) "" with
      | None =>
          mret ("Error: Command execution timed out after "
                +:+ to_string timeout_seconds +:+ " seconds.", true)
      | Some result => mret (format_result (p_exit p) result, false)
      end
  end.

Definition run (command : string) (timeout_seconds : Z) : M ToolResult :=
  '(result, timed_out) ← execute_command (command +:+ " 2>&1") timeout_seconds;
  if timed_out : bool then
    mret (error ("Command execution timed out after "
                 +:+ to_string timeout_seconds +:+ " seconds"))
  else mret (success result).

Definition confirm_and_run (cfg : Config) (command : string)
    (timeout_seconds : Z) : M ToolResult :=
  if negb (is_auto_confirm_shell cfg) then
    confirmed ← confirm_dialog SHELL_COMMAND
      "The AI is requesting to execute the following bash command:"
      command
      "This command will be executed with your user permissions."
      "Use with caution. Some commands may modify your system.";
    if negb confirmed then mret (error "Command execution denied by user")
    else run command timeout_seconds
  else run command timeout_seconds.

(** The command line the tool checks and runs: the [command] argument,
    behind a [cd] into the working directory when one is given. *)
Definition command_line (args : json) : string :=
  let command := string_of (at_key args "command") in
  if contains args "working_directory"
     && is_string (at_key args "working_directory")
  then "cd " +:+ String "034" (string_of (at_key args "working_directory")
                               +:+ String "034" (" && " +:+ command))
  else command.

Definition execute (cfg : Config) (args : json) : M ToolResult :=
  if negb (contains args "command")
     || negb (is_string (at_key args "command"))
  then mret (error "Missing or invalid 'command' parameter")
  else
    let timeout_seconds := timeout_arg args 10 1 60 in
    let command := command_line args in
    if negb (is_shell_safety_ignored cfg) then
      match is_command_safe command with
      | Some operation_found =>
          confirmed ← confirm_dialog SHELL_COMMAND
            "The bash command contains a potentially dangerous operation:"
            ("'" +:+ operation_found +:+ "' found in: " +:+ command)
            "This operation could potentially harm your system or delete data."
            "Tip: Use --ignore-shell-safety to disable these warnings.";
          if negb confirmed then
            mret (error ("Command execution aborted due to security concerns with operation: "
                         +:+ operation_found))
          else confirm_and_run cfg command timeout_seconds
      | None => confirm_and_run cfg command timeout_seconds
      end
    else confirm_and_run cfg command timeout_seconds.

End Bash.

(** *** The file tools ([file_tools.cpp]) *)

Module FileWrite.

(** [fs::path(p).parent_path()], for a path with single [/] separators:
    the text before the last separator, the root for a file under the
    root, nothing for a bare file name. *)
Fixpoint before_last_slash (p : string) : option string :=
  match p with
  | "" => None
  | String c p' =>
      match before_last_slash p' with
      | Some d => Some (String c d)
      | None => if Ascii.eqb c "/" then Some "" else None
      end
  end.

Definition parent_path (p : string) : string :=
  match before_last_slash p with
  | Some "" => "/"
  | Some d => d
  | None => ""
  end.

Definition write (file_path content : string) : M ToolResult :=
  let dir_path := parent_path file_path in
  there ← exists_ dir_path;
  _ ← (if negb (Str.is_empty dir_path) && negb there
       then create_directories dir_path else mret tt);
  opened ← write_file file_path content;
  if negb opened
  then mret (error ("Could not open file for writing: " +:+ file_path))
  else mret (success ("File successfully written: " +:+ file_path +:+ " ("
                      +:+ to_string (Z.of_nat (String.length content))
                      +:+ " bytes)")).

Definition execute (cfg : Config) (args : json) : M ToolResult :=
  if negb (contains args "path") || negb (is_string (at_key args "path"))
  then mret (error "Missing or invalid 'path' parameter")
  else if negb (contains args "content")
          || negb (is_string (at_key args "content"))
  then mret (error "Missing or invalid 'content' parameter")
  else
    let file_path := string_of (at_key args "path") in
    let content := string_of (at_key args "content") in
    if found (Str.find ".." file_path)
    then mret (error "Path contains forbidden '..' sequence")
    else if negb (is_auto_confirm_file_ops cfg) then
      let content_preview :=
        if (200 <? String.length content)%nat
        then Str.take 200 content +:+ "... (truncated)" else content in
      confirmed ← confirm_dialog FILE_OPERATION
        "The AI is requesting to write to the file:"
        file_path
        ("Content (preview):" +:+ String "010" content_preview)
        "";
      if negb confirmed then mret (error "File write operation denied by user")
      else write file_path content
    else write file_path content.

End FileWrite.

Module FileEdit.

Inductive EditOp : Type :=
  REPLACE_ALL | REPLACE_TEXT | APPEND | PREPEND | INSERT_LINE | UNKNOWN.

(** The operation is chosen by the arguments present, in this order. *)
Definition select_operation (args : json) : EditOp :=
  if has_string args "replace_all" then REPLACE_ALL
  else if contains args "old_text" && contains args "new_text"
          && is_string (at_key args "old_text")
          && is_string (at_key args "new_text") then REPLACE_TEXT
  else if has_string args "append" then APPEND
  else if has_string args "prepend" then PREPEND
  else if contains args "insert_at_line" && contains args "text"
          && is_number (at_key args "insert_at_line")
          && is_string (at_key args "text") then INSERT_LINE
  else UNKNOWN.

Definition op_description (op : EditOp) (args : json) : string :=
  match op with
  | REPLACE_ALL => "Replace entire file"
  | REPLACE_TEXT => "Replace text in file"
  | APPEND => "Append to file"
  | PREPEND => "Prepend to file"
  | INSERT_LINE =>
      "Insert at line " +:+ to_string (get_int (at_key args "insert_at_line"))
  | UNKNOWN => ""
  end.

Definition preview_new (op : EditOp) (args : json) : string :=
  match op with
  | REPLACE_ALL => string_of (at_key args "replace_all")
  | REPLACE_TEXT => string_of (at_key args "new_text")
  | APPEND => string_of (at_key args "append")
  | PREPEND => string_of (at_key args "prepend")
  | INSERT_LINE => string_of (at_key args "text")
  | UNKNOWN => ""
  end.

Definition format_preview (text : string) : string :=
  if (100 <? String.length text)%nat
  then Str.take 100 text +:+ "... (truncated)" else text.

Definition details (op : EditOp) (args : json) : string :=
  "Operation: " +:+ op_description op args +:+
  match op with
  | REPLACE_TEXT =>
      String "010" ("Old Text: "
        +:+ format_preview (string_of (at_key args "old_text")))
      +:+ String "010" ("New Text: " +:+ format_preview (preview_new op args))
  | UNKNOWN => ""
  | _ => String "010" ("New Content: " +:+ format_preview (preview_new op args))
  end.

(** The loop of [std::getline] over the content: the text between line
    feeds; a final line feed ends the last line and opens no new one. *)
Fixpoint getlines (line s : string) : list string :=
  match s with
  | "" => if Str.is_empty line then [] else [line]
  | String c s' =>
      if Ascii.eqb c Str.newline then line :: getlines "" s'
      else getlines (line +:+ String c "") s'
  end.

(** The boundary check on the line number, with [lines.size()] as an
    [int]. *)
Definition insert_index (line_number : Z) (size : nat) : Z :=
  let n := to_int (Z.of_nat size) in
  if line_number <? 0 then 0
  else if line_number >? n then n
  else line_number.

(** [lines.insert(lines.begin() + i, text)]. *)
Definition insert_at (i : nat) (text : string) (lines : list string)
  : list string :=
  take i lines ++ text :: drop i lines.

(** The lines with a line feed between two of them and none at the end. *)
Fixpoint join_lines (lines : list string) : string :=
  match lines with
  | [] => ""
  | [l] => l
  | l :: lines' => l +:+ String Str.newline (join_lines lines')
  end.

Definition insert_line (line_number : Z) (text content : string) : string :=
  let lines := getlines "" content in
  let i := Z.to_nat (insert_index line_number (length lines)) in
  join_lines (insert_at i text lines).

(** [content.replace(pos, n, new_text)]. *)
Definition replace (pos n : nat) (new_text content : string) : string :=
  Str.take pos content +:+ new_text +:+ Str.drop (pos + n) content.

(** The [switch]: the new content, or the error returned from inside it. *)
Definition apply_edit (op : EditOp) (args : json) (content : string)
  : ToolResult + string :=
  match op with
  | REPLACE_ALL => inr (string_of (at_key args "replace_all"))
  | REPLACE_TEXT =>
      let old_text := string_of (at_key args "old_text") in
      let new_text := string_of (at_key args "new_text") in
      match Str.find old_text content with
      | None => inl (error "Could not find the text to replace in the file")
      | Some pos => inr (replace pos (String.length old_text) new_text content)
      end
  | APPEND => inr (content +:+ string_of (at_key args "append"))
  | PREPEND => inr (string_of (at_key args "prepend") +:+ content)
  | INSERT_LINE =>
      inr (insert_line (get_int (at_key args "insert_at_line"))
                       (string_of (at_key args "text")) content)
  | UNKNOWN => inl (error "Unknown edit operation")
  end.

Definition edit (op : EditOp) (args : json) (file_path content : string)
  : M ToolResult :=
  match apply_edit op args content with
  | inl e => mret e
  | inr content' =>
      opened ← write_file file_path content';
      if negb opened
      then mret (error ("Could not open file for writing: " +:+ file_path))
      else mret (success ("File successfully edited: " +:+ file_path))
  end.

Definition execute (cfg : Config) (args : json) : M ToolResult :=
  if negb (contains args "path") || negb (is_string (at_key args "path"))
  then mret (error "Missing or invalid 'path' parameter")
  else
    let file_path := string_of (at_key args "path") in
    if found (Str.find ".." file_path)
    then mret (error "Path contains forbidden '..' sequence")
    else
      there ← exists_ file_path;
      if negb there
      then mret (error ("File does not exist: " +:+ file_path))
      else
        opened ← read_file file_path;
        match opened with
        | None =>
            mret (error ("Could not open file for reading: " +:+ file_path))
        | Some content =>
            match select_operation args with
            | UNKNOWN =>
                mret (error "No valid edit operation specified. Use 'replace_all', 'old_text'+'new_text', 'append', 'prepend', or 'insert_at_line'+'text'")
            | op =>
                if negb (is_auto_confirm_file_ops cfg) then
                  confirmed ← confirm_dialog FILE_OPERATION
                    "The AI is requesting to edit the file:"
                    file_path
                    (details op args)
                    "";
                  if negb confirmed
                  then mret (error "File edit operation denied by user")
                  else edit op args file_path content
                else edit op args file_path content
            end
        end.

End FileEdit.

End Tools.


(** ** The tool registry ([tools_base.cpp]) *)

Module Registry.

Import Tools.

(** Modelled from the spec: the declaration of [ToolBase] is in
    [tools.hpp], which is not among the sources. A tool capability: its
    name, its description, its parameter schema and its execution. *)
Record ToolBase : Type := {
  get_name : string;
  get_description : string;
  get_parameters : json;
  execute : json → M ToolResult
}.

Definition get_definition (t : ToolBase) : json :=
  JObj [("type", JStr "function");
        ("function", JObj [("name", JStr (get_name t));
                           ("description", JStr (get_description t));
                           ("parameters", get_parameters t)])].

(** Modelled from the spec: the declaration of [ToolManager::tools] is in
    [tools.hpp], which is not among the sources. A map from the name to
    the tool, as [tools[name] = ...] and [tools.find(name)] use it;
    nothing here depends on an order of its entries. *)
Abbreviation ToolMap := (gmap string ToolBase).

Definition register_tool (tool : ToolBase) (tools : ToolMap) : ToolMap :=
  <[get_name tool := tool]> tools.

Definition has_tool (tools : ToolMap) (name : string) : bool :=
  bool_decide (is_Some (tools !! name)).

Definition execute_tool (tools : ToolMap) (name : string) (args : json)
  : M ToolResult :=
  match tools !! name with
  | None => mret (error ("Tool not found: " +:+ name))
  | Some tool => execute tool args
  end.

End Registry.

(** ** The tool round of a turn ([main.cpp]) *)

Module Orchestrator.

Import Registry.

(** The text of the tool message: the content of a success, the message
    of an error. *)
Definition result_text (result : Tools.ToolResult) : string :=
  if Tools.is_success result then Tools.content result
  else Tools.error_message result.

(** The loop over [response.tool_calls]: a call of a tool that is not
    registered is reported on the terminal and passed over; every other
    call is executed and its result appended to the conversation. *)
Fixpoint tool_round (tools : ToolMap) (calls : list Client.ToolCall)
    (conversation : list Client.ChatMessage) : M (list Client.ChatMessage) :=
  match calls with
  | [] => mret conversation
  | tool_call :: calls' =>
      if negb (has_tool tools (Client.tc_name tool_call))
      then tool_round tools calls' conversation
      else
        result ← execute_tool tools (Client.tc_name tool_call)
                                    (Client.tc_arguments tool_call);
        tool_round tools calls'
          (conversation ++ [Client.make_tool_response
                              (result_text result)
                              (Client.tc_name tool_call)])
  end.

End Orchestrator.


(** ** More of the client: the liveness probe, the model list, the tool
    definitions *)

Module Models.

Import Client.

Section WithJsonLib.
Context `{JsonLib}.

(** [OllamaClient::Impl::connect]: a [GET] of [/api/version]; every
    exception of the parse is caught. *)
Definition connect (host : string) (t : Transport) : bool :=
  if negb (curl_easy_init t) then false
  else
    let '(chunks, res) := curl_easy_perform t (host +:+ "/api/version") "" in
    let response := foldl write_callback "" chunks in
    if negb (Z.eqb res CURLE_OK) then false
    else
      catch_all (bind (json_parse response) (λ j, Ok (contains j "version")))
                false.

(** The loop over [j["models"]]: the names of the entries that have one. *)
Fixpoint model_names (models : list json) : outcome (list string) :=
  match models with
  | [] => Ok []
  | model :: models' =>
      if contains model "name" then
        bind (get_string (at_key model "name")) (λ n,
        bind (model_names models') (λ ns, Ok (n :: ns)))
      else model_names models'
  end.

(** [OllamaClient::Impl::list_models]: a [GET] of [/api/tags]. *)
Definition list_models (host : string) (t : Transport) : outcome (list string) :=
  if negb (curl_easy_init t) then Ok []
  else
    let '(chunks, res) := curl_easy_perform t (host +:+ "/api/tags") "" in
    let response := foldl write_callback "" chunks in
    if Z.eqb res CURLE_OK then
      catch_parse_error
        (bind (json_parse response) (λ j,
           if contains j "models" then
             match at_key j "models" with
             | JArr models => model_names models
             | _ => Ok []
             end
           else Ok []))
        (Ok [])
    else Ok [].

(** The conversion of one tool definition to a [Tool], in the overloads
    of [chat] and [chat_stream] that take definitions. *)
Definition tool_of_definition (def : json) : outcome Tool :=
  if contains def "function" then
    let function := at_key def "function" in
    bind (if contains function "name"
          then get_string (at_key function "name") else Ok "")
    (λ n,
      bind (if contains function "description"
            then get_string (at_key function "description") else Ok "")
      (λ d,
        Ok {| tool_type := "function"; fn_name := n; fn_description := d;
              fn_parameters := if contains function "parameters"
                               then at_key function "parameters"
                               else JNull |}))
  else Ok {| tool_type := "function"; fn_name := ""; fn_description := "";
             fn_parameters := JNull |}.

Fixpoint tools_of_definitions (defs : list json) : outcome (list Tool) :=
  match defs with
  | [] => Ok []
  | def :: defs' =>
      bind (tool_of_definition def) (λ tool,
      bind (tools_of_definitions defs') (λ tools, Ok (tool :: tools)))
  end.

(** [OllamaClient::chat] on tool definitions, without a stream callback. *)
Definition chat_definitions (host : string) (t : Transport) (model : string)
    (messages : list ChatMessage) (tool_definitions : list json)
  : outcome ChatMessage :=
  bind (tools_of_definitions tool_definitions)
       (λ tools, chat host t model messages tools).

(** [OllamaClient::chat_stream] on tool definitions. *)
Definition chat_stream_definitions (host : string) (t : Transport)
    (model : string) (messages : list ChatMessage)
    (tool_definitions : list json) : list string * outcome unit :=
  match tools_of_definitions tool_definitions with
  | Throw e => ([], Throw e)
  | Ok tools => chat_stream host t model messages tools
  end.

End WithJsonLib.

End Models.

(** ** The stored configuration ([config.cpp]) *)

Module ConfigJson.

Definition is_boolean (j : json) : bool :=
  match j with JBool _ => true | _ => false end.

(** [j.get<bool>()], read after [is_boolean] has answered true. *)
Definition bool_of (j : json) : bool :=
  match j with JBool b => b | _ => false end.

(** The configuration as it is stored: the model, the host and the
    flags. *)
Record Stored : Type := {
  model : string;
  host : string;
  flags : Config
}.

(** [Config::to_json]. *)
Definition to_json (c : Stored) : json :=
  JObj [("model", JStr (model c));
        ("host", JStr (host c));
        ("enable_tools", JBool (is_tools_enabled (flags c)));
        ("debug_mode", JBool (is_debug_mode (flags c)));
        ("enable_shell", JBool (is_shell_enabled (flags c)));
        ("auto_confirm_shell", JBool (is_auto_confirm_shell (flags c)));
        ("enable_model_list", JBool (is_model_list_enabled (flags c)));
        ("enable_file_ops", JBool (is_file_ops_enabled (flags c)));
        ("auto_confirm_file_ops", JBool (is_auto_confirm_file_ops (flags c)));
        ("ignore_calc_safety", JBool (is_calc_safety_ignored (flags c)));
        ("ignore_shell_safety", JBool (is_shell_safety_ignored (flags c)))].

Definition string_field (j : json) (k : string) (default : string) : string :=
  if contains j k && is_string (at_key j k) then string_of (at_key j k)
  else default.

Definition bool_field (j : json) (k : string) (default : bool) : bool :=
  if contains j k && is_boolean (at_key j k) then bool_of (at_key j k)
  else default.

(** [Config::from_json]: a default-constructed configuration ([default],
    whose values are in [config.hpp]) with every field overwritten that
    the JSON value has with the right type. *)
Definition from_json (default : Stored) (j : json) : Stored :=
  {| model := string_field j "model" (model default);
     host := string_field j "host" (host default);
     flags :=
       {| is_tools_enabled :=
            bool_field j "enable_tools" (is_tools_enabled (flags default));
          is_shell_enabled :=
            bool_field j "enable_shell" (is_shell_enabled (flags default));
          is_file_ops_enabled :=
            bool_field j "enable_file_ops" (is_file_ops_enabled (flags default));
          is_model_list_enabled :=
            bool_field j "enable_model_list"
              (is_model_list_enabled (flags default));
          is_auto_confirm_shell :=
            bool_field j "auto_confirm_shell"
              (is_auto_confirm_shell (flags default));
          is_auto_confirm_file_ops :=
            bool_field j "auto_confirm_file_ops"
              (is_auto_confirm_file_ops (flags default));
          is_calc_safety_ignored :=
            bool_field j "ignore_calc_safety"
              (is_calc_safety_ignored (flags default));
          is_shell_safety_ignored :=
            bool_field j "ignore_shell_safety"
              (is_shell_safety_ignored (flags default));
          is_debug_mode :=
            bool_field j "debug_mode" (is_debug_mode (flags default)) |} |}.

End ConfigJson.

(** ** The file read tool ([file_tools.cpp]) *)

Module FileRead.

Import Tools.

(** [fs::is_regular_file]. *)
Definition is_regular_file (path : string) : M bool := λ w,
  (bool_decide (is_Some (w_files w !! path)), w).

Definition max_size : Z := 50000.

(** The content handed back: cut at [max_size] bytes, with a marker. *)
Definition truncate (content : string) : string :=
  if Z.of_nat (String.length content) >? max_size
  then Str.take (Z.to_nat max_size) content
       +:+ String "010" "... (content truncated, file too large)"
  else content.

Definition execute (args : json) : M ToolResult :=
  if negb (contains args "path") || negb (is_string (at_key args "path"))
  then mret (error "Missing or invalid 'path' parameter")
  else
    let file_path := string_of (at_key args "path") in
    if found (Str.find ".." file_path)
    then mret (error "Path contains forbidden '..' sequence")
    else
      there ← exists_ file_path;
      if negb there
      then mret (error ("File does not exist: " +:+ file_path))
      else
        regular ← is_regular_file file_path;
        if negb regular
        then mret (error ("Not a regular file: " +:+ file_path))
        else
          opened ← read_file file_path;
          match opened with
          | None => mret (error ("Could not open file: " +:+ file_path))
          | Some content => mret (success (truncate content))
          end.

End FileRead.

(** ** The tool definitions of the registry ([tools_base.cpp]) *)

Module Definitions.

Import Registry.

(** Modelled from the spec: the declaration of [ToolManager::tools] is
    in [tools.hpp], which is not among the sources, and the
    specification leaves open whether the registry is ordered. The order
    in which a loop over the registry meets its entries: some order of
    the entries, each met once. *)
Class Traversal : Type := {
  traverse : ToolMap → list (string * ToolBase);
  traverse_entries : ∀ tools, traverse tools ≡ₚ map_to_list tools
}.

(** [ToolManager::get_tool_definitions]: the definitions of the tools, in
    the order of the loop over the registry. *)
Definition get_tool_definitions `{Traversal} (tools : ToolMap) : list json :=
  (λ entry, get_definition entry.2) <$> traverse tools.

(** The traversal of a [std::map] with [std::string] keys: in the order
    of the names. *)
Definition by_name (a b : string * ToolBase) : Prop := String.le a.1 b.1.

#[export] Instance by_name_dec : RelDecision by_name.
Proof. intros a b. unfold by_name. apply _. Defined.

Definition ordered_map : Traversal :=
  {| traverse := λ tools, merge_sort by_name (map_to_list tools);
     traverse_entries := λ tools,
       merge_sort_Permutation by_name (map_to_list tools) |}.

End Definitions.

(** ** A turn of the conversation ([main.cpp]) *)

Module Turn.

Import Client Models Registry Orchestrator Definitions.

Definition is_nil {A} (l : list A) : bool :=
  match l with [] => true | _ => false end.

Section WithJsonLib.
Context `{JsonLib} `{Traversal}.

(** The response after the streamed answer: with tools, the full
    response of a second, non-streaming request, whose content gives way
    to the streamed text when it asks for no tool; without tools, the
    streamed text. *)
Definition first_response (host : string) (t : Transport) (model : string)
    (using_tools : bool) (conversation : list ChatMessage)
    (tool_definitions : list json) (full_content : string)
  : outcome ChatMessage :=
  if using_tools then
    bind (chat_definitions host t model conversation tool_definitions)
    (λ response,
      Ok (if is_nil (tool_calls response)
          then {| role := role response; content := full_content;
                  name := name response; tool_calls := tool_calls response |}
          else response))
  else Ok (mk_message "assistant" full_content).

(** The body of the REPL loop for an input that is no command: the
    conversation after the turn, or the exception that leaves [main]. *)
Definition turn (cfg : Config) (host : string) (t : Transport)
    (tools : ToolMap) (model input : string)
    (conversation : list ChatMessage) : M (outcome (list ChatMessage)) :=
  let conversation := conversation ++ [mk_message "user" input] in
  let using_tools := is_tools_enabled cfg in
  let tool_definitions :=
    if using_tools then get_tool_definitions tools else [] in
  match chat_stream_definitions host t model conversation tool_definitions with
  | (_, Throw e) => mret (Throw e)
  | (out, Ok _) =>
      match first_response host t model using_tools conversation
              tool_definitions (Str.concat out) with
      | Throw e => mret (Throw e)
      | Ok response =>
          if using_tools && negb (is_nil (tool_calls response)) then
            conversation' ← tool_round tools (tool_calls response) conversation;
            match chat_stream_definitions host t model conversation'
                    tool_definitions with
            | (_, Throw e) => mret (Throw e)
            | (out', Ok _) =>
                mret (Ok (conversation'
                          ++ [mk_message "assistant" (Str.concat out')]))
            end
          else mret (Ok (conversation ++ [response]))
      end
  end.

End WithJsonLib.

(** [/reset]: the conversation is the system prompt alone. *)
Definition reset (system_prompt : string) : list ChatMessage :=
  [mk_message "system" system_prompt].

(** The loop of [/setprompt] over the conversation: the content of the
    first system message is replaced; nothing when there is none. *)
Fixpoint replace_system (system_prompt : string)
    (conversation : list ChatMessage) : option (list ChatMessage) :=
  match conversation with
  | [] => None
  | msg :: rest =>
      if String.eqb (role msg) "system"
      then Some ({| role := role msg; content := system_prompt;
                    name := name msg; tool_calls := tool_calls msg |} :: rest)
      else
        match replace_system system_prompt rest with
        | Some rest' => Some (msg :: rest')
        | None => None
        end
  end.

(** [s.pop_back()]. *)
Fixpoint pop_back (s : string) : string :=
  match s with
  | "" => ""
  | String c "" => ""
  | String c s' => String c (pop_back s')
  end.

(** [/setprompt] with the lines typed before [/end]: every line is added
    with a line feed, the last line feed is taken off; with nothing
    typed the conversation stays as it is. *)
Definition set_prompt (lines : list string)
    (conversation : list ChatMessage) : list ChatMessage :=
  let new_prompt := Str.concat ((λ l, l +:+ String Str.newline "") <$> lines) in
  if Str.is_empty new_prompt then conversation
  else
    let system_prompt := pop_back new_prompt in
    match replace_system system_prompt conversation with
    | Some conversation' => conversation'
    | None => mk_message "system" system_prompt :: conversation
    end.

End Turn.


(** ** The wire protocol, as the specification words it *)

Module Protocol.

Section WithJsonLib.
Context `{JsonLib}.

(** A text without a line feed. *)
Definition no_newline (s : string) : Prop := Str.mem_char Str.newline s = false.

(** The server output made of the given complete lines, each ended by a
    line feed, and a last partial line. *)
Definition terminated (lines : list string) : string :=
  Str.concat ((λ l, l +:+ String Str.newline "") <$> lines).

(** The [content] field of the record on a line, if the line is a JSON
    record that has one. *)
Definition record_content (line : string) : option json :=
  if Str.is_empty line then None
  else
    match json_parse line with
    | Ok j =>
        match member "message" j with
        | Some m => member "content" m
        | None => None
        end
    | Throw _ => None
    end.

(** The parser settles the text: it returns a value or reports a parse
    error, and throws nothing else. *)
Definition parser_settles (s : string) : Prop :=
  ∀ e, json_parse s = Throw e → e = parse_error.

(** The content fragment a line carries: the [content] field when it is
    a string. *)
Definition fragment (line : string) : option string :=
  match record_content line with
  | Some (JStr s) => Some s
  | _ => None
  end.

(** The [content] field of the line, when there is one, is a string. *)
Definition content_is_string (line : string) : Prop :=
  ∀ v, record_content line = Some v → is_string v = true.

(** The names in a tool-call entry, when present, are strings. *)
Definition names_are_strings (entry : json) : Prop :=
  (∀ v, member "id" entry = Some v → is_string v = true) ∧
  (∀ f v, member "function" entry = Some f → member "name" f = Some v →
          is_string v = true).

(** The parser settles the [arguments] of the entry, when they are a
    string. *)
Definition arguments_settle (entry : json) : Prop :=
  ∀ f s, member "function" entry = Some f →
         member "arguments" f = Some (JStr s) → parser_settles s.

(** The transfer fails: no handle, or a request that was sent and came
    back with an error code or with a body that is not a JSON object with
    a [message] field (the parser throws on it, or returns a value
    without that field). *)
Definition transport_fails (host : string) (t : Client.Transport)
    (model : string) (messages : list Client.ChatMessage)
    (tools : list Client.Tool) : Prop :=
  Client.curl_easy_init t = false ∨
  ∃ payload_str chunks res,
    json_dump (Client.payload model messages tools false) = Some payload_str ∧
    Client.curl_easy_perform t (host +:+ "/api/chat") payload_str = (chunks, res) ∧
    (res ≠ Client.CURLE_OK ∨
     match json_parse (Str.concat chunks) with
     | Throw _ => True
     | Ok j => member "message" j = None
     end).

End WithJsonLib.

End Protocol.

(** ** The gated tools, as the specification words them *)

Module Gate.

Import Tools.

(** The tools that check their input against a blocklist. *)
Inductive GatedTool : Type := Calculator | Shell | Bash.

Definition execute (tool : GatedTool) : Config → json → M ToolResult :=
  match tool with
  | Calculator => Calculator.execute
  | Shell => Shell.execute
  | Bash => Bash.execute
  end.

Definition blocklist (tool : GatedTool) : list string :=
  match tool with
  | Calculator => Calculator.blocked_patterns
  | Shell => Shell.blocked_commands
  | Bash => Bash.blocked_commands
  end.

(** The text of a well-formed input that the tool holds against its
    blocklist: the sanitized expression, the command, the command line. *)
Definition checked_text (tool : GatedTool) (args : json) : option string :=
  match tool with
  | Calculator =>
      if has_string args "expression"
      then Some (Calculator.sanitize (string_of (at_key args "expression")))
      else None
  | Shell =>
      if has_string args "command"
      then Some (string_of (at_key args "command")) else None
  | Bash =>
      if has_string args "command"
      then Some (Bash.command_line args) else None
  end.

Definition ignore_safety (tool : GatedTool) (cfg : Config) : bool :=
  match tool with
  | Calculator => is_calc_safety_ignored cfg
  | Shell | Bash => is_shell_safety_ignored cfg
  end.

Definition auto_confirm (tool : GatedTool) (cfg : Config) : bool :=
  match tool with
  | Calculator => true
  | Shell | Bash => is_auto_confirm_shell cfg
  end.

(** The input matches the blocklist of the tool. *)
Definition blocklist_hit (tool : GatedTool) (args : json) : Prop :=
  ∃ s, checked_text tool args = Some s ∧ matches_blocklist (blocklist tool) s.

(** The key that confirms a dialog: Enter. *)
Definition is_enter (c : ascii) : bool := Ascii.eqb c "013" || Ascii.eqb c "010".

(** The answer of the operator to the i-th dialog of an execution that
    starts in the world [w]: the i-th pending key, no key being a
    denial. *)
Definition answer (w : World) (i : nat) : bool :=
  match w_keys w !! i with
  | Some c => is_enter c
  | None => false
  end.

(** The world with some pending keys consumed and some events added. *)
Definition after (w : World) (keys : list ascii) (evs : list Event) : World :=
  {| w_keys := keys; w_files := w_files w; w_dirs := w_dirs w;
     w_creatable := w_creatable w; w_popen := w_popen w;
     w_trace := w_trace w ++ evs |}.

(** The events of an execution are [n] gate invocations followed by side
    effects only: every invocation of the gate comes before every side
    effect. *)
Definition gates_first (n : nat) (evs : list Event) : Prop :=
  ∃ dialogs effects,
    evs = dialogs ++ effects ∧ length dialogs = n ∧
    Forall (λ e, is_confirm e = true) dialogs ∧
    Forall (λ e, is_side_effect e = true) effects.

(** The execution only adds events to the trace, and none of them is a
    gate invocation. *)
Definition silent {A} (m : M A) : Prop :=
  ∀ w, ∃ evs, w_trace (m w).2 = w_trace w ++ evs ∧ gate_count evs = 0%nat.

(** Every tool that asks for a confirmation, with its auto-confirm flag
    and what it is to match its blocklist (the file tools have none). *)
Inductive ConfirmingTool : Type :=
| Gated (tool : GatedTool)
| FileWriteTool
| FileEditTool.

Definition run (tool : ConfirmingTool) : Config → json → M ToolResult :=
  match tool with
  | Gated tool => execute tool
  | FileWriteTool => FileWrite.execute
  | FileEditTool => FileEdit.execute
  end.

Definition auto_confirm_flag (tool : ConfirmingTool) (cfg : Config) : bool :=
  match tool with
  | Gated tool => auto_confirm tool cfg
  | FileWriteTool | FileEditTool => is_auto_confirm_file_ops cfg
  end.

Definition matches (tool : ConfirmingTool) (args : json) : Prop :=
  match tool with
  | Gated tool => blocklist_hit tool args
  | FileWriteTool | FileEditTool => False
  end.

End Gate.

(** ** File edits, as the specification words them *)

Module Edits.

Import Tools.

(** [x] kept within [lo, hi]. *)
Definition clamp (lo hi x : Z) : Z := Z.max lo (Z.min hi x).

(** A number the library holds as a 64-bit integer, signed or
    unsigned. *)
Definition held_as_integer (n : Z) : Prop := - 2 ^ 63 ≤ n < 2 ^ 64.

(** The invocation names the file [path] and selects the insertion of
    [text] at line [n], a number the library holds as an integer. *)
Definition insert_request (args : json) (path : string) (n : Z)
    (text : string) : Prop :=
  member "path" args = Some (JStr path) ∧
  FileEdit.select_operation args = FileEdit.INSERT_LINE ∧
  at_key args "insert_at_line" = JNum n ∧
  at_key args "text" = JStr text ∧
  held_as_integer n.

(** The invocation names the file [path] and selects the replacement of
    [old_text] by [new_text]. *)
Definition replace_request (args : json) (path old_text new_text : string)
  : Prop :=
  member "path" args = Some (JStr path) ∧
  FileEdit.select_operation args = FileEdit.REPLACE_TEXT ∧
  at_key args "old_text" = JStr old_text ∧
  at_key args "new_text" = JStr new_text.

(** The file [f] is at [path], the path is accepted, and the file can be
    read and written. *)
Definition editable (w : World) (path : string) (f : File) : Prop :=
  ¬ Str.contains ".." path ∧
  w_files w !! path = Some f ∧ f_readable f = true ∧ f_writable f = true.

(** The edit goes ahead: auto-confirm is set, or the operator confirms. *)
Definition goes_ahead (cfg : Config) (w : World) : Prop :=
  is_auto_confirm_file_ops cfg = true ∨ Gate.answer w 0 = true.

(** The content of the file at [path]. *)
Definition file_data (w : World) (path : string) : option string :=
  f_data <$> w_files w !! path.

(** The text ends with a line feed. *)
Definition ends_with_newline (s : string) : Prop :=
  ∃ body, s = body +:+ String Str.newline "".

(** The last of the lines leaves a line feed at the end of the joined
    text: it ends with one itself, or it is empty and not the only
    line. *)
Definition last_line_open (lines : list string) : Prop :=
  ∃ init l, lines = init ++ [l] ∧
            (ends_with_newline l ∨ (l = "" ∧ init ≠ [])).

End Edits.

(** ** The allowed characters and the tool round, as the specification
    words them *)

Module Stated.

Import Tools Registry Orchestrator.

Definition between (lo hi : nat) (c : ascii) : bool :=
  (lo <=? nat_of_ascii c)%nat && (nat_of_ascii c <=? hi)%nat.

(** The fixed allowed set: the digits, the ASCII letters, the underscore,
    [. + - * / ^ % ( )], the space, the tab and the line feed. *)
Definition in_allowed_set (c : ascii) : bool :=
  between 48 57 c || between 97 122 c || between 65 90 c
  || bool_decide (c ∈ ["."; "+"; "-"; "*"; "/"; "^"; "%"; "("; ")";
                       " "; "009"; "010"; "_"]%char).

(** The command line of the external evaluator around an expression. *)
Definition evaluator_command (e : string) : string :=
  "echo '" +:+ e +:+ "' | BC_LINE_LENGTH=0 bc -l".

Definition registered (tools : ToolMap) (call : Client.ToolCall) : bool :=
  bool_decide (is_Some (tools !! Client.tc_name call)).

(** The tool message of a call and its result. *)
Definition tool_message (call : Client.ToolCall) (result : ToolResult)
  : Client.ChatMessage :=
  {| Client.role := "tool";
     Client.content := result_text result;
     Client.name := Client.tc_name call;
     Client.tool_calls := [] |}.

(** The tool calls are gone through one after the other, in request
    order: a call of a tool that is not registered leaves the world and
    the transcript as they are; a call of a registered tool is executed
    by that tool in the world the calls before it have left, and gives
    one tool message. *)
Inductive in_order (tools : ToolMap)
  : World → list Client.ToolCall → list Client.ChatMessage → World → Prop :=
| in_order_done (w : World) : in_order tools w [] [] w
| in_order_skip (w w' : World) call calls msgs :
    tools !! Client.tc_name call = None →
    in_order tools w calls msgs w' →
    in_order tools w (call :: calls) msgs w'
| in_order_run (w w1 w' : World) call calls msgs tool result :
    tools !! Client.tc_name call = Some tool →
    execute tool (Client.tc_arguments call) w = (result, w1) →
    in_order tools w1 calls msgs w' →
    in_order tools w (call :: calls) (tool_message call result :: msgs) w'.

End Stated.

(** ** Unattended runs and trimmed texts *)

Module Unattended.

Import Tools.

(** A well-formed Shell invocation that reaches the subprocess without
    any dialog: auto-confirm set, and the safety check off or passed. *)
Definition shell_runs (cfg : Config) (args : json) : Prop :=
  has_string args "command" = true ∧
  is_auto_confirm_shell cfg = true ∧
  (is_shell_safety_ignored cfg = true ∨
   ¬ matches_blocklist Shell.blocked_commands (string_of (at_key args "command"))).

(** The subprocess of such an invocation. *)
Definition shell_process (args : json) (w : World) : Process :=
  w_popen w (string_of (at_key args "command") +:+ " 2>&1").

(** The read loop makes its k-th pass (from 0) unless it is left
    before: the k-th piece is still to be read, or every piece has been
    read and [feof] does not hold yet. *)
Definition pass_is_made (p : Process) (k : nat) : Prop :=
  (k < length (p_reads p))%nat ∨
  (k = length (p_reads p) ∧ (k = 0%nat ∨ p_eof p = false)).

(** A well-formed Bash invocation that reaches the subprocess without
    any dialog. *)
Definition bash_runs (cfg : Config) (args : json) : Prop :=
  has_string args "command" = true ∧
  is_auto_confirm_shell cfg = true ∧
  (is_shell_safety_ignored cfg = true ∨
   ¬ matches_blocklist Bash.blocked_commands (Bash.command_line args)).

(** The subprocess of such an invocation. *)
Definition bash_process (args : json) (w : World) : Process :=
  w_popen w (Bash.command_line args +:+ " 2>&1").

Definition starts_with_space (s : string) : bool :=
  match s with
  | String c _ => Calculator.isspace c
  | "" => false
  end.

Definition ends_with_space (s : string) : bool :=
  starts_with_space (String.rev s).

(** An execution that ends in an error having done nothing, or nothing
    but one dialog. *)
Definition refused (m : M ToolResult) (w : World) : Prop :=
  (∃ msg, m w = (error msg, w)) ∨
  (∃ msg e, is_confirm e = true ∧
            m w = (error msg, Gate.after w (tail (w_keys w)) [e])).

(** The execution leaves every file but the one at [path] as it is. *)
Definition touches_only {A} (path : string) (m : M A) : Prop :=
  ∀ w other, other ≠ path → w_files (m w).2 !! other = w_files w !! other.

(** The path argument of the file tools. *)
Definition path_of (args : json) : string := string_of (at_key args "path").

(** The arguments of a read of the file at [path]. *)
Definition read_request (path : string) : json := JObj [("path", JStr path)].

(** What a file holds after a write: the data, under the permissions of
    the file that was there. *)
Definition written (old : option File) (data : string) : File :=
  {| f_data := data;
     f_readable := from_option f_readable true old;
     f_writable := from_option f_writable true old |}.

End Unattended.

(** ** The registry as a listing *)

Module Listing.

Import Registry.

(** The name a tool definition carries. *)
Definition definition_name (d : json) : string :=
  string_of (at_key (at_key d "function") "name").

(** Every tool sits under its own name, as [register_tool] puts it. *)
Definition well_keyed (tools : ToolMap) : Prop :=
  ∀ name tool, tools !! name = Some tool → get_name tool = name.

End Listing.

(** ** Stored values of the wrong type *)

Module Untyped.

(** No member of the value is a string or a boolean: a value that is no
    object, or an object whose members are all of other types. *)
Definition no_typed_member (j : json) : Prop :=
  ∀ k v, member k j = Some v →
         is_string v = false ∧ ConfigJson.is_boolean v = false.

End Untyped.

(** ** Sample inputs *)

Module Samples.

Import Tools.

Definition enter : ascii := "013".
Definition escape : ascii := "027".

(** Every confirmation asked for, every safety check on. *)
Definition cfg_ask : Config :=
  {| is_tools_enabled := true; is_shell_enabled := true;
     is_file_ops_enabled := true; is_model_list_enabled := false;
     is_auto_confirm_shell := false; is_auto_confirm_file_ops := false;
     is_calc_safety_ignored := false; is_shell_safety_ignored := false;
     is_debug_mode := false |}.

(** Auto-confirm set for the shell and for the file operations. *)
Definition cfg_auto : Config :=
  {| is_tools_enabled := true; is_shell_enabled := true;
     is_file_ops_enabled := true; is_model_list_enabled := false;
     is_auto_confirm_shell := true; is_auto_confirm_file_ops := true;
     is_calc_safety_ignored := false; is_shell_safety_ignored := false;
     is_debug_mode := false |}.

(** A subprocess that prints [output] and exits at once. *)
Definition prints (output : list string) : Process :=
  {| p_pipe := true; p_reads := output; p_eof := false;
     p_elapsed := λ _, 0; p_exit := 0 |}.

Definition notes : File :=
  {| f_data := Protocol.terminated ["a"; "b"; "c"];
     f_readable := true; f_writable := true |}.

(** A world with the file [notes.txt] of three lines, the given keys
    pending on the terminal, and subprocesses that print nothing. *)
Definition world (keys : list ascii) : World :=
  {| w_keys := keys; w_files := {["notes.txt" := notes]}; w_dirs := ∅;
     w_creatable := λ _, true; w_popen := λ _, prints [];
     w_trace := [] |}.

(** A file that ends with two line feeds, and a world that has it. *)
Definition blank_end : File :=
  {| f_data := Protocol.terminated ["a"; ""];
     f_readable := true; f_writable := true |}.

Definition world_of (name : string) (f : File) : World :=
  {| w_keys := []; w_files := {[name := f]}; w_dirs := ∅;
     w_creatable := λ _, true; w_popen := λ _, prints [];
     w_trace := [] |}.

Definition shell_rm : json := JObj [("command", JStr "rm notes.txt")].
Definition shell_ls : json := JObj [("command", JStr "ls -l")].
Definition bash_rm : json :=
  JObj [("command", JStr "rm -rf build"); ("working_directory", JStr "/tmp")].
Definition calc_injection : json :=
  JObj [("expression", JStr "1+1'; ls `pwd` $H;")].

Definition write_notes : json :=
  JObj [("path", JStr "notes.txt"); ("content", JStr "d")].

Definition replace_missing : json :=
  JObj [("path", JStr "notes.txt"); ("old_text", JStr "z");
        ("new_text", JStr "y")].

Definition insert_at (n : Z) : json :=
  JObj [("path", JStr "notes.txt"); ("insert_at_line", JNum n);
        ("text", JStr "X")].

Definition insert_text_at (n : Z) (text : string) : json :=
  JObj [("path", JStr "notes.txt"); ("insert_at_line", JNum n);
        ("text", JStr text)].

(** A registry with the Calculator alone. *)
Definition calculator_tool : Registry.ToolBase :=
  {| Registry.get_name := "calculator";
     Registry.get_description :=
       "Evaluate a mathematical expression using the bc calculator";
     Registry.get_parameters :=
       JObj [("type", JStr "object");
             ("required", JArr [JStr "expression"])];
     Registry.execute := Calculator.execute cfg_ask |}.

Definition calculator_only : Registry.ToolMap :=
  Registry.register_tool calculator_tool ∅.

Definition call_shell : Client.ToolCall :=
  {| Client.tc_id := ""; Client.tc_name := "shell_tool";
     Client.tc_arguments := shell_ls |}.

Definition call_calculator : Client.ToolCall :=
  {| Client.tc_id := ""; Client.tc_name := "calculator";
     Client.tc_arguments := JObj [("expression", JStr "2+2")] |}.

Definition asked : list Client.ChatMessage :=
  [Client.mk_message "user" "list the files"].

(** A response message with three tool calls: arguments that are a JSON
    text, arguments that are a text that is no JSON, arguments that are
    an object. *)
Definition three_calls : json :=
  JObj [("content", JStr "");
        ("tool_calls",
         JArr [JObj [("id", JStr "1");
                     ("function",
                      JObj [("name", JStr "calculator");
                            ("arguments",
                             JStr (MiniJson.text "{'expression':'2+2'}"))])];
               JObj [("function",
                      JObj [("name", JStr "shell_tool");
                            ("arguments", JStr "ls -l")])];
               JObj [("function",
                      JObj [("name", JStr "bash_tool");
                            ("arguments",
                             JObj [("command", JStr "pwd")])])]])].

(** A response message whose tool call has arguments that are a text
    with a number too large for a [double]. *)
Definition overflowing_call : json :=
  JObj [("content", JStr "");
        ("tool_calls",
         JArr [JObj [("function",
                      JObj [("name", JStr "calculator");
                            ("arguments", JStr "1e999")])]])].

(** A server whose response body is such a number. *)
Definition overflowing_body : Client.Transport :=
  {| Client.curl_easy_init := true;
     Client.curl_easy_perform := λ _ _, (["1e999"], Client.CURLE_OK) |}.

(** A server that answers with a page that is no JSON. *)
Definition bad_gateway : Client.Transport :=
  {| Client.curl_easy_init := true;
     Client.curl_easy_perform :=
       λ _ _, (["<html>502 "; "Bad Gateway</html>"], Client.CURLE_OK) |}.

End Samples.

(** ** More sample inputs *)

Module MoreSamples.

Import Tools Samples.

(** Safety checks off, auto-confirm on. *)
Definition cfg_unsafe : Config :=
  {| is_tools_enabled := true; is_shell_enabled := true;
     is_file_ops_enabled := true; is_model_list_enabled := false;
     is_auto_confirm_shell := true; is_auto_confirm_file_ops := true;
     is_calc_safety_ignored := true; is_shell_safety_ignored := true;
     is_debug_mode := false |}.

(** Tools off. *)
Definition cfg_plain : Config :=
  {| is_tools_enabled := false; is_shell_enabled := false;
     is_file_ops_enabled := false; is_model_list_enabled := false;
     is_auto_confirm_shell := false; is_auto_confirm_file_ops := false;
     is_calc_safety_ignored := false; is_shell_safety_ignored := false;
     is_debug_mode := false |}.

(** A server that answers every request with the given chunks. *)
Definition answers (chunks : list string) : Client.Transport :=
  {| Client.curl_easy_init := true;
     Client.curl_easy_perform := λ _ _, (chunks, Client.CURLE_OK) |}.

Definition line (json_text : string) : string :=
  MiniJson.text json_text +:+ String Str.newline "".

(** A world in which every subprocess prints the given pieces. *)
Definition printing (output : list string) (elapsed : nat → Z) : World :=
  {| w_keys := []; w_files := {["notes.txt" := notes]}; w_dirs := ∅;
     w_creatable := λ _, true;
     w_popen := λ _, {| p_pipe := true; p_reads := output; p_eof := false;
                        p_elapsed := elapsed; p_exit := 0 |};
     w_trace := [] |}.

(** A world with the directory [docs] and an operator who confirms. *)
Definition with_directory : World :=
  {| w_keys := [enter]; w_files := ∅; w_dirs := {["docs"]};
     w_creatable := λ _, true; w_popen := λ _, prints [];
     w_trace := [] |}.

Definition append_to (path : string) : json :=
  JObj [("path", JStr path); ("append", JStr "x")].

(** A response that answers and asks for the calculator. *)
Definition asks_calculator : string :=
  line "{'message':{'content':'Let me see.','tool_calls':[{'function':{'name':'calculator','arguments':{'expression':'2+2'}}}]}}".

Definition read_notes : json := JObj [("path", JStr "notes.txt")].

Definition stored : ConfigJson.Stored :=
  {| ConfigJson.model := "llama3"; ConfigJson.host := "http://localhost:11434";
     ConfigJson.flags := cfg_auto |}.

Definition defaults : ConfigJson.Stored :=
  {| ConfigJson.model := ""; ConfigJson.host := "";
     ConfigJson.flags := cfg_plain |}.

End MoreSamples.


(** * Properties *)

(** ** Strings *)

Lemma app_nil_l_str (s : string) : "" +:+ s = s.
Proof. reflexivity. Qed.

Lemma app_cons_str (c : ascii) (a b : string) :
  String c a +:+ b = String c (a +:+ b).
Proof. reflexivity. Qed.

Ltac str_simpl := rewrite ?app_cons_str, ?app_nil_l_str.

Lemma app_empty_r (s : string) : s +:+ "" = s.
Proof. induction s as [|c s IH]; str_simpl; [done|]. by rewrite IH. Qed.

Lemma app_assoc_str (a b c : string) : (a +:+ b) +:+ c = a +:+ (b +:+ c).
Proof. induction a as [|x a IH]; str_simpl; [done|]. by rewrite IH. Qed.

Lemma app_snoc (a : string) (c : ascii) (b : string) :
  (a +:+ String c "") +:+ b = a +:+ String c b.
Proof. by rewrite app_assoc_str. Qed.

Lemma length_app_str (a b : string) :
  String.length (a +:+ b) = (String.length a + String.length b)%nat.
Proof. induction a as [|x a IH]; str_simpl; simpl; [done|]. by rewrite IH. Qed.

Lemma concat_app (l1 l2 : list string) :
  Str.concat (l1 ++ l2) = Str.concat l1 +:+ Str.concat l2.
Proof.
  induction l1 as [|s l1 IH]; simpl; [done|].
  by rewrite IH, app_assoc_str.
Qed.

Lemma foldl_append (l : list string) (acc : string) :
  foldl Client.write_callback acc l = acc +:+ Str.concat l.
Proof.
  revert acc. induction l as [|s l IH]; intros acc; simpl.
  - by rewrite app_empty_r.
  - rewrite IH. unfold Client.write_callback. by rewrite app_assoc_str.
Qed.

(** ** The streaming reassembler *)

Import Protocol.

Lemma no_newline_cons (c : ascii) (s : string) :
  no_newline (String c s) ↔ Ascii.eqb c Str.newline = false ∧ no_newline s.
Proof.
  unfold no_newline; cbn [Str.mem_char].
  rewrite (Ascii.eqb_sym Str.newline c).
  destruct (Ascii.eqb c Str.newline); intuition discriminate.
Qed.

Lemma no_newline_app (a b : string) :
  no_newline (a +:+ b) ↔ no_newline a ∧ no_newline b.
Proof.
  induction a as [|c a IH]; str_simpl.
  - unfold no_newline at 2; cbn [Str.mem_char]. tauto.
  - rewrite !no_newline_cons, IH. tauto.
Qed.

Section Reassembly.
Context `{JsonLib}.
Import Client.

(** Scanning a text without a line feed hands nothing over and leaves
    the text in the buffer. *)
Lemma scan_lines_partial (s line : string) :
  no_newline s → scan_lines line s = ([], Ok (line +:+ s)).
Proof.
  revert line. induction s as [|c s IH]; intros line Hs; cbn [scan_lines].
  - by rewrite app_empty_r.
  - apply no_newline_cons in Hs as [-> Hs].
    rewrite IH by done. by rewrite app_snoc.
Qed.

(** Scanning two texts one after the other is scanning their
    concatenation. *)
Lemma scan_lines_app (a b line : string) :
  scan_lines line (a +:+ b) =
  match scan_lines line a with
  | (out, Ok rest) =>
      let '(out', r) := scan_lines rest b in (out ++ out', r)
  | (out, Throw e) => (out, Throw e)
  end.
Proof.
  revert line. induction a as [|c a IH]; intros line; str_simpl;
    cbn [scan_lines].
  - by destruct (scan_lines line b).
  - destruct (Ascii.eqb c Str.newline).
    + destruct (stream_line line) as [o|e]; [|done].
      rewrite IH. destruct (scan_lines "" a) as [out [rest|e]]; [|done].
      destruct (scan_lines rest b) as [out' r]. by rewrite (assoc_L (++)).
    + apply IH.
Qed.

(** What is left in the buffer has no line feed. *)
Lemma scan_lines_left (s line : string) (out : list string) (rest : string) :
  no_newline line → scan_lines line s = (out, Ok rest) → no_newline rest.
Proof.
  revert line out. induction s as [|c s IH]; intros line out Hl;
    cbn [scan_lines].
  - by intros [= _ <-].
  - destruct (Ascii.eqb c Str.newline) eqn:Hc.
    + destruct (stream_line line) as [o|e]; [|done].
      destruct (scan_lines "" s) as [out' r] eqn:Hs. intros [= _ ->].
      by eapply (IH ""); [|done].
    + apply IH. apply no_newline_app. split; [done|].
      by apply no_newline_cons.
Qed.

Lemma stream_callback_scan (buffer chunk : string) :
  no_newline buffer →
  stream_callback buffer chunk = scan_lines buffer chunk.
Proof.
  intros Hb. unfold stream_callback. rewrite scan_lines_app.
  rewrite (scan_lines_partial buffer "") by done. str_simpl.
  by destruct (scan_lines buffer chunk).
Qed.

(** However the bytes are cut into chunks, the transfer hands over what
    one scan of all the bytes hands over, and ends the same way. *)
Lemma receive_scan (chunks : list string) (buffer : string) :
  no_newline buffer →
  receive buffer chunks = scan_lines buffer (Str.concat chunks).
Proof.
  revert buffer. induction chunks as [|c chunks IH]; intros buffer Hb; simpl.
  - done.
  - rewrite scan_lines_app, stream_callback_scan by done.
    destruct (scan_lines buffer c) as [out [rest|e]] eqn:Hc; [|done].
    rewrite IH; [done|]. by eapply scan_lines_left.
Qed.

(** X2. What the transfer hands over, and how it ends, depends on the
    bytes received alone and not on how they are cut into chunks. *)
Lemma receive_chunking (chunks chunks' : list string) :
  Str.concat chunks = Str.concat chunks' →
  receive "" chunks = receive "" chunks'.
Proof. intros Heq. by rewrite !receive_scan, Heq. Qed.

Lemma stream_line_content (line : string) :
  parser_settles line →
  stream_line line =
  match record_content line with
  | None => Ok None
  | Some v => bind (get_string v) (λ resp, Ok (Some resp))
  end.
Proof.
  unfold parser_settles, stream_line, record_content, contains, at_key.
  intros Hp. destruct (Str.is_empty line); [done|].
  destruct (json_parse line) as [j|e]; cbn [bind].
  - destruct (member "message" j) as [m|]; [|done]. cbn [andb].
    destruct (member "content" m) as [v|]; [|done]. by destruct v.
  - by rewrite (Hp e eq_refl).
Qed.

Lemma record_content_settles (line : string) (v : json) :
  record_content line = Some v → parser_settles line.
Proof.
  unfold record_content, parser_settles. intros Hv e He.
  destruct (Str.is_empty line); [done|]. by rewrite He in Hv.
Qed.

Lemma stream_line_fragment (line : string) :
  parser_settles line → content_is_string line →
  stream_line line = Ok (fragment line).
Proof.
  intros Hp Hs. rewrite stream_line_content by done. unfold fragment.
  unfold content_is_string in Hs.
  destruct (record_content line) as [v|]; [|done].
  specialize (Hs v eq_refl). by destruct v.
Qed.

Lemma stream_line_throws (line : string) (v : json) :
  record_content line = Some v → is_string v = false →
  stream_line line = Throw (type_error 302).
Proof.
  intros Hv Hs.
  rewrite stream_line_content, Hv by by eapply record_content_settles.
  by destruct v.
Qed.

(** An exception of the parser other than [parse_error] leaves the loop
    body. *)
Lemma stream_line_escapes (line : string) (e : exn) :
  Str.is_empty line = false → json_parse line = Throw e → e ≠ parse_error →
  stream_line line = Throw e.
Proof.
  intros Hl He Hne. unfold stream_line. rewrite Hl, He. cbn [bind].
  by destruct e.
Qed.

(** One complete line in front of the rest of the output. *)
Lemma scan_lines_line (l rest : string) :
  no_newline l →
  scan_lines "" (l +:+ String Str.newline rest) =
  match stream_line l with
  | Throw e => ([], Throw e)
  | Ok o => let '(out, r) := scan_lines "" rest in (option_list o ++ out, r)
  end.
Proof.
  intros Hl. rewrite scan_lines_app, scan_lines_partial by done.
  str_simpl. cbn [scan_lines]. rewrite Ascii.eqb_refl.
  destruct (stream_line l) as [o|e]; [|done].
  by destruct (scan_lines "" rest).
Qed.

(** X1. The refinement: when the parser settles every complete line (it
    returns a value or reports a parse error) and no record has a
    [content] that is not a string, the transfer hands over the content
    fragments of the complete lines, each once and in order, whatever the
    chunking, and the partial line stays in the buffer. *)
Lemma receive_refines (lines : list string) (partial : string)
    (chunks : list string) :
  Forall no_newline lines → no_newline partial →
  Forall parser_settles lines →
  Forall content_is_string lines →
  Str.concat chunks = terminated lines +:+ partial →
  receive "" chunks = (omap fragment lines, Ok partial).
Proof.
  intros Hl Hp Hps Hs Hc. rewrite receive_scan, Hc by done. clear Hc.
  induction lines as [|l lines IH]; unfold terminated; cbn [fmap list_fmap Str.concat].
  - str_simpl. by rewrite scan_lines_partial.
  - apply Forall_cons in Hl as [Hl Hls]. apply Forall_cons in Hs as [Hs Hss].
    apply Forall_cons in Hps as [Hpl Hpls].
    rewrite !app_assoc_str. str_simpl.
    rewrite scan_lines_line by done. fold (terminated lines).
    rewrite stream_line_fragment, IH by done. cbn [omap list_omap].
    by destruct (fragment l).
Qed.

(** C2, at the input where the code leaves it. The property: for every
    server output and every chunking, the reassembler hands over the
    content fragment of each complete record once and in order, and a
    line that is not a proper record is skipped without aborting. The
    code: after lines that the parser settles and whose [content] fields
    are strings, the first complete line whose [content] field is not a
    string ends the transfer with the library's [type_error], which the
    [catch] for [parse_error] lets through; the fragments of the lines
    before it have been handed over, the ones after it never are. *)
Theorem stream_aborts_on_non_string_content (pre : list string) (bad : string)
    (v : json) (post : list string) (partial : string) (chunks : list string) :
  Forall no_newline pre → no_newline bad →
  Forall parser_settles pre →
  Forall content_is_string pre →
  record_content bad = Some v → is_string v = false →
  Str.concat chunks = terminated (pre ++ bad :: post) +:+ partial →
  receive "" chunks = (omap fragment pre, Throw (type_error 302)).
Proof.
  intros Hl Hb Hps Hs Hv Hn Hc. rewrite receive_scan, Hc by done. clear Hc.
  induction pre as [|l pre IH]; unfold terminated;
    cbn [app fmap list_fmap Str.concat].
  - rewrite !app_assoc_str. str_simpl. rewrite scan_lines_line by done.
    by rewrite (stream_line_throws bad v).
  - apply Forall_cons in Hl as [Hl Hls]. apply Forall_cons in Hs as [Hs Hss].
    apply Forall_cons in Hps as [Hpl Hpls].
    rewrite !app_assoc_str. str_simpl.
    rewrite scan_lines_line by done. fold (terminated (pre ++ bad :: post)).
    rewrite stream_line_fragment, IH by done. cbn [omap list_omap].
    by destruct (fragment l).
Qed.

End Reassembly.

Lemma stream_aborts_on_non_string_content_witness :
  Client.receive (H := MiniJson.lib) ""
    [MiniJson.text "{'message':{'content':'Hel'}}"
       +:+ String Str.newline (MiniJson.text "{'message':{'con");
     MiniJson.text "tent':null}}"
       +:+ String Str.newline (MiniJson.text "{'message':{'content':'lo'}}")
       +:+ String Str.newline ""]
  = (["Hel"], Throw (type_error 302)).
Proof.
  apply (stream_aborts_on_non_string_content (H := MiniJson.lib)
           [MiniJson.text "{'message':{'content':'Hel'}}"]
           (MiniJson.text "{'message':{'content':null}}")
           JNull
           [MiniJson.text "{'message':{'content':'lo'}}"]
           "").
  - repeat constructor.
  - reflexivity.
  - repeat constructor. intros e He. vm_compute in He. discriminate.
  - repeat constructor. intros v Hv. vm_compute in Hv.
    injection Hv as <-. reflexivity.
  - vm_compute. reflexivity.
  - reflexivity.
  - vm_compute. reflexivity.
Defined.

(** ** Tool-call extraction *)

Section ToolCalls.
Context `{JsonLib}.
Import Client.

Lemma contains_member (j : json) (k : string) :
  contains j k = true ↔ ∃ v, member k j = Some v.
Proof.
  unfold contains. destruct (member k j) as [v|].
  - split; [eauto|done].
  - split; [done|]. by intros [v ?].
Qed.

Lemma parse_arguments_member (function arguments : json) :
  member "arguments" function = Some arguments →
  parse_arguments function =
  match arguments with
  | JStr s => catch_parse_error (json_parse s) (Ok (JStr s))
  | _ => Ok arguments
  end.
Proof.
  intros Ha. unfold parse_arguments, contains, at_key. rewrite Ha.
  by destruct arguments.
Qed.

Lemma parse_arguments_returns (function : json) :
  (∀ s, member "arguments" function = Some (JStr s) → parser_settles s) →
  ∃ v, parse_arguments function = Ok v.
Proof.
  intros Hs. destruct (member "arguments" function) as [arguments|] eqn:Ha.
  - rewrite (parse_arguments_member _ _ Ha).
    destruct arguments as [| | |s| |]; eauto.
    specialize (Hs s eq_refl).
    destruct (json_parse s) as [v|e] eqn:He; [by eauto|].
    rewrite (Hs e He). by eauto.
  - unfold parse_arguments, contains. rewrite Ha. eauto.
Qed.

(** [parse_tool_calls] has its own [catch] for [parse_error]: it never
    throws one. *)
Lemma parse_arguments_no_parse_error (function : json) :
  parse_arguments function ≠ Throw parse_error.
Proof.
  unfold parse_arguments. destruct (contains function "arguments"); [|done].
  destruct (is_string _); [|done].
  by destruct (json_parse _) as [v|[]].
Qed.

Lemma parse_tool_call_no_parse_error (entry : json) :
  parse_tool_call entry ≠ Throw parse_error.
Proof.
  unfold parse_tool_call.
  destruct (if contains entry "id" then _ else _) as [id|e] eqn:Hid; cbn [bind].
  2:{ destruct (contains entry "id"); [|done].
      destruct (at_key entry "id"); cbn in Hid; congruence. }
  destruct (contains entry "function"); [|done].
  destruct (if contains (at_key entry "function") "name" then _ else _)
    as [nm|e] eqn:Hn; cbn [bind].
  2:{ destruct (contains (at_key entry "function") "name"); [|done].
      destruct (at_key (at_key entry "function") "name"); cbn in Hn;
        congruence. }
  pose proof (parse_arguments_no_parse_error (at_key entry "function")) as Hp.
  destruct (parse_arguments (at_key entry "function")) as [v|x]; cbn [bind];
    congruence.
Qed.

Lemma parse_entries_no_parse_error (entries : list json) :
  parse_entries entries ≠ Throw parse_error.
Proof.
  induction entries as [|e entries IH]; cbn [parse_entries]; [done|].
  pose proof (parse_tool_call_no_parse_error e) as Hp.
  destruct (parse_tool_call e) as [call|x]; cbn [bind]; [|congruence].
  destruct (parse_entries entries) as [calls|x]; cbn [bind]; congruence.
Qed.

Lemma parse_tool_call_arguments (entry function : json) (call : ToolCall) :
  parse_tool_call entry = Ok call →
  member "function" entry = Some function →
  parse_arguments function = Ok (tc_arguments call).
Proof.
  unfold parse_tool_call, contains, at_key. intros Hc Hf. rewrite Hf in Hc.
  destruct (if match member "id" entry with Some _ => true | None => false end
            then _ else _) as [id|e]; [|done]. cbn [bind] in Hc.
  destruct (if match member "name" function with Some _ => true | None => false end
            then _ else _) as [nm|e]; [|done]. cbn [bind] in Hc.
  destruct (parse_arguments function) as [arguments|e]; [|done].
  cbn [bind] in Hc. by injection Hc as <-.
Qed.

Lemma parse_tool_call_returns (entry : json) :
  names_are_strings entry → arguments_settle entry →
  ∃ call, parse_tool_call entry = Ok call.
Proof.
  intros [Hid Hname] Hargs. unfold parse_tool_call, contains, at_key.
  assert (∀ f, member "function" entry = Some f →
               ∃ v, parse_arguments f = Ok v) as Hv.
  { intros f Hf. apply parse_arguments_returns. intros s. by apply Hargs. }
  destruct (member "id" entry) as [id|].
  - specialize (Hid id eq_refl). destruct id; try done. cbn [get_string bind].
    destruct (member "function" entry) as [f|]; [|eauto].
    destruct (Hv f eq_refl) as [v Hpv].
    destruct (member "name" f) as [nm|] eqn:Hn;
      [|cbn [bind]; rewrite Hpv; cbn [bind]; eauto].
    specialize (Hname f nm eq_refl Hn). destruct nm; try done.
    cbn [get_string bind]. rewrite Hpv. cbn [bind]. eauto.
  - cbn [bind].
    destruct (member "function" entry) as [f|]; [|eauto].
    destruct (Hv f eq_refl) as [v Hpv].
    destruct (member "name" f) as [nm|] eqn:Hn;
      [|cbn [bind]; rewrite Hpv; cbn [bind]; eauto].
    specialize (Hname f nm eq_refl Hn). destruct nm; try done.
    cbn [get_string bind]. rewrite Hpv. cbn [bind]. eauto.
Qed.

Lemma parse_entries_returns (entries : list json) :
  Forall names_are_strings entries → Forall arguments_settle entries →
  ∃ calls, parse_entries entries = Ok calls.
Proof.
  induction 1 as [|e entries He _ IH]; cbn [parse_entries]; [eauto|].
  intros [Ha Has]%Forall_cons. destruct (IH Has) as [calls Hc].
  destruct (parse_tool_call_returns e He Ha) as [call ->].
  rewrite Hc. cbn [bind]. eauto.
Qed.

Lemma parse_entries_lookup (entries : list json) (calls : list ToolCall) :
  parse_entries entries = Ok calls →
  length calls = length entries ∧
  ∀ i entry, entries !! i = Some entry →
    ∃ call, calls !! i = Some call ∧ parse_tool_call entry = Ok call.
Proof.
  revert calls. induction entries as [|e entries IH]; intros calls;
    cbn [parse_entries].
  - intros [= <-]. split; [done|]. intros i entry Hi. done.
  - destruct (parse_tool_call e) as [call|?] eqn:He; [|done]. cbn [bind].
    destruct (parse_entries entries) as [calls'|?]; [|done]. cbn [bind].
    intros [= <-]. destruct (IH calls' eq_refl) as [Hlen Hlook].
    split; [cbn [length]; by rewrite Hlen|].
    intros [|i] entry Hi; cbn in Hi |- *.
    + injection Hi as <-. eauto.
    + by apply Hlook.
Qed.

(** The extraction where the parser settles the arguments: one tool
    call per entry, in order; the arguments are the parsed value when
    the field is a string that parses, the string itself when the parser
    reports a parse error, the field itself when it is not a string. *)
Lemma parse_tool_calls_normalizes (message_json : json) (entries : list json) :
  member "tool_calls" message_json = Some (JArr entries) →
  (Forall names_are_strings entries → Forall arguments_settle entries →
   ∃ calls, parse_tool_calls message_json = Ok calls) ∧
  (∀ calls, parse_tool_calls message_json = Ok calls →
     length calls = length entries ∧
     ∀ i entry function arguments,
       entries !! i = Some entry →
       member "function" entry = Some function →
       member "arguments" function = Some arguments →
       ∃ call, calls !! i = Some call ∧
         (∀ s v, arguments = JStr s → json_parse s = Ok v →
                 tc_arguments call = v) ∧
         (∀ s, arguments = JStr s → json_parse s = Throw parse_error →
               tc_arguments call = JStr s) ∧
         (is_string arguments = false → tc_arguments call = arguments)).
Proof.
  intros Ht. unfold parse_tool_calls, contains, at_key. rewrite Ht.
  split; [apply parse_entries_returns|].
  intros calls Hc. destruct (parse_entries_lookup _ _ Hc) as [Hlen Hlook].
  split; [done|]. intros i entry function arguments Hi Hf Ha.
  destruct (Hlook i entry Hi) as (call & Hcall & Hp).
  exists call. split; [done|].
  pose proof (parse_tool_call_arguments _ _ _ Hp Hf) as Hpa.
  rewrite (parse_arguments_member _ _ Ha) in Hpa.
  split; [|split].
  - intros s v -> Hv. rewrite Hv in Hpa. by injection Hpa.
  - intros s -> Hv. rewrite Hv in Hpa. by injection Hpa.
  - destruct arguments; try done; by injection Hpa.
Qed.

(** C3, at the input where the code leaves it. The property: the
    arguments of an entry that are a string that does not parse are kept
    as that string. The code: the [catch] around the parse of the
    arguments holds [parse_error] alone; when the parser throws anything
    else on the string (the library's [out_of_range] for a number that
    overflows), the extraction does not return: an exception leaves
    [parse_tool_calls], and it is not a [parse_error], so that the
    [catch] of [chat] around the call lets it through as well. *)
Theorem parse_tool_calls_escapes (message_json : json) (entries : list json)
    (i : nat) (entry function : json) (s : string) (e : exn) :
  member "tool_calls" message_json = Some (JArr entries) →
  entries !! i = Some entry →
  member "function" entry = Some function →
  member "arguments" function = Some (JStr s) →
  json_parse s = Throw e → e ≠ parse_error →
  ∃ e', parse_tool_calls message_json = Throw e' ∧ e' ≠ parse_error.
Proof.
  intros Ht Hi Hf Ha He Hne. unfold parse_tool_calls, contains, at_key.
  rewrite Ht. pose proof (parse_entries_no_parse_error entries) as Hnp.
  destruct (parse_entries entries) as [calls|e'] eqn:Hc.
  - destruct (parse_entries_lookup _ _ Hc) as [_ Hlook].
    destruct (Hlook i entry Hi) as (call & _ & Hp).
    pose proof (parse_tool_call_arguments _ _ _ Hp Hf) as Hpa.
    rewrite (parse_arguments_member _ _ Ha), He in Hpa. by destruct e.
  - exists e'. split; [done|]. congruence.
Qed.

(** ** The non-streaming request *)

(** When the transfer fails (no handle; a request that came back with an
    error code; a body on which the parser reports a parse error, or
    that parses to a value without a [message] field), [chat] returns,
    and what it returns is the assistant message with empty content and
    no tool calls. *)
Lemma chat_degrades (host : string) (t : Transport)
    (model : string) (messages : list ChatMessage) (tools : list Tool) :
  transport_fails host t model messages tools →
  (∀ payload_str chunks res,
     curl_easy_perform t (host +:+ "/api/chat") payload_str = (chunks, res) →
     parser_settles (Str.concat chunks)) →
  ∃ m, chat host t model messages tools = Ok m ∧
       role m = "assistant" ∧ content m = "" ∧ tool_calls m = [].
Proof.
  intros Hf Hs. exists (mk_message "assistant" ""). split; [|done].
  unfold chat. destruct Hf as [->|(p & chunks & res & -> & Hp & Hr)]; [done|].
  rewrite Hp. specialize (Hs p chunks res Hp).
  destruct (curl_easy_init t); [|done]. cbn [negb].
  rewrite foldl_append. str_simpl.
  destruct (Z.eqb_spec res CURLE_OK) as [->|Hne].
  - destruct Hr as [Hr|Hr]; [done|].
    destruct (json_parse (Str.concat chunks)) as [j|e] eqn:Hj; cbn [bind].
    + unfold contains. by rewrite Hr.
    + by rewrite (Hs e Hj).
  - done.
Qed.

(** C5, at the input where the code leaves it. The property: a response
    body that does not parse makes [chat] return the empty assistant
    message, and no exception leaves the client. The code: the [catch]
    of [chat] holds [parse_error] alone; when the parser throws anything
    else on the body (the library's [out_of_range] for a number that
    overflows), the transfer has failed as the property has it, and the
    exception leaves [chat]. *)
Theorem chat_escapes_on_parser_exception (host : string) (t : Transport)
    (model : string) (messages : list ChatMessage) (tools : list Tool)
    (payload_str : string) (chunks : list string) (e : exn) :
  curl_easy_init t = true →
  json_dump (payload model messages tools false) = Some payload_str →
  curl_easy_perform t (host +:+ "/api/chat") payload_str = (chunks, CURLE_OK) →
  json_parse (Str.concat chunks) = Throw e → e ≠ parse_error →
  transport_fails host t model messages tools ∧
  chat host t model messages tools = Throw e.
Proof.
  intros Hi Hd Hp He Hne. split.
  - right. exists payload_str, chunks, CURLE_OK. split; [done|].
    split; [done|]. right. by rewrite He.
  - unfold chat. rewrite Hi, Hd, Hp. cbn [negb].
    rewrite foldl_append. str_simpl. rewrite Z.eqb_refl, He. cbn [bind].
    by destruct e.
Qed.

(** The other way: a response with a [message] gives its content and
    its tool calls. *)
Lemma chat_response (host : string) (t : Transport) (model : string)
    (messages : list ChatMessage) (tools : list Tool)
    (payload_str : string) (chunks : list string) (j message : json)
    (c : string) (calls : list ToolCall) :
  curl_easy_init t = true →
  json_dump (payload model messages tools false) = Some payload_str →
  curl_easy_perform t (host +:+ "/api/chat") payload_str = (chunks, CURLE_OK) →
  json_parse (Str.concat chunks) = Ok j →
  member "message" j = Some message →
  (member "content" message = Some (JStr c) ∨
   member "content" message = None ∧ c = "") →
  parse_tool_calls message = Ok calls →
  chat host t model messages tools =
    Ok {| role := "assistant"; content := c; name := ""; tool_calls := calls |}.
Proof.
  intros Hi Hd Hp Hj Hm Hc Ht. unfold chat.
  rewrite Hi, Hd, Hp. cbn [negb]. rewrite foldl_append. str_simpl.
  rewrite Z.eqb_refl, Hj. cbn [bind]. unfold contains, at_key. rewrite Hm.
  destruct Hc as [Hc|[Hc ->]]; rewrite Hc; cbn [get_string bind];
    by rewrite Ht.
Qed.

End ToolCalls.

(** ** Substring search and the blocklists *)

Import Tools Gate.

Lemma prefix_app (t s : string) :
  String.prefix t s = true ↔ ∃ post, s = t +:+ post.
Proof.
  revert s. induction t as [|a t IH]; intros s.
  - destruct s; split; eauto.
  - destruct s as [|b s].
    + split; [done|]. by intros [post ?].
    + change (String.prefix (String a t) (String b s))
        with (if ascii_dec a b then String.prefix t s else false).
      destruct (ascii_dec a b) as [->|Hne].
      * rewrite IH. split; intros [post Hp]; exists post.
        -- by rewrite Hp.
        -- by injection Hp.
      * split; [done|]. intros [post Hp]. by injection Hp as -> _.
Qed.

Lemma contains_cons (t : string) (b : ascii) (s : string) :
  Str.contains t (String b s) ↔
  String.prefix t (String b s) = true ∨ Str.contains t s.
Proof.
  split.
  - intros (pre & post & Heq). destruct pre as [|c pre].
    + left. apply prefix_app. by exists post.
    + right. injection Heq as _ ->. by exists pre, post.
  - intros [Hp|(pre & post & ->)].
    + apply prefix_app in Hp as [post ->]. by exists "", post.
    + by exists (String b pre), post.
Qed.

(** [find] answers [npos] exactly for a text that is not contained. *)
Lemma find_found (t s : string) :
  found (Str.find t s) = true ↔ Str.contains t s.
Proof.
  unfold Str.find. induction s as [|b s IH].
  - destruct t as [|a t]; cbn [String.index found].
    + split; [|done]. intros _. by exists "", "".
    + split; [done|]. intros (pre & post & Heq). destruct pre; discriminate.
  - rewrite contains_cons. cbn [String.index].
    destruct (String.prefix t (String b s)).
    + cbn [found]. tauto.
    + rewrite <- IH. destruct (String.index 0 t s); cbn [found];
        intuition discriminate.
Qed.

Lemma find_none (t s : string) :
  Str.find t s = None ↔ ¬ Str.contains t s.
Proof.
  rewrite <- find_found. destruct (Str.find t s); cbn [found];
    intuition discriminate.
Qed.

Lemma first_blocked_hit (blocked : list string) (s : string) :
  matches_blocklist blocked s ↔ ∃ b, first_blocked blocked s = Some b.
Proof.
  unfold matches_blocklist. induction blocked as [|b blocked IH];
    cbn [first_blocked].
  - split; intros [b Hb]; [|done]. destruct Hb as [Hb _]. by inversion Hb.
  - destruct (found (Str.find b s)) eqn:Hf.
    + split; [eauto|]. intros _. exists b. split; [by left|].
      by apply find_found.
    + rewrite <- IH. split.
      * intros (b' & Hin & Hc). apply elem_of_cons in Hin as [->|Hin].
        -- apply find_found in Hc. congruence.
        -- eauto.
      * intros (b' & Hin & Hc). exists b'. split; [by right|done].
Qed.

Lemma first_blocked_miss (blocked : list string) (s : string) :
  ¬ matches_blocklist blocked s ↔ first_blocked blocked s = None.
Proof.
  rewrite first_blocked_hit. destruct (first_blocked blocked s) as [b|].
  - split; [|done]. intros Hn. destruct Hn. eauto.
  - split; [done|]. intros _ [b ?]. done.
Qed.

(** ** Executions and their events *)

Lemma events_after {A} (m : M A) (w : World) (keys : list ascii)
    (evs : list Event) :
  (m w).2 = after w keys evs → events m w = evs.
Proof.
  intros Hw. unfold events. rewrite Hw. cbn [after w_trace].
  by rewrite drop_app_length.
Qed.

Lemma events_none {A} (m : M A) (w : World) :
  (m w).2 = w → events m w = [].
Proof. intros Hw. unfold events. rewrite Hw. apply drop_all. Qed.

Lemma has_string_true (args : json) (k : string) :
  has_string args k = true →
  contains args k = true ∧ is_string (at_key args k) = true.
Proof. unfold has_string. by intros ?%andb_true_iff. Qed.

Lemma gate_count_confirms (n : nat) (evs : list Event) :
  gates_first n evs → gate_count evs = n.
Proof.
  intros (dialogs & effects & -> & <- & Hd & He). unfold gate_count.
  rewrite List.filter_app, length_app.
  assert (List.filter is_confirm effects = []) as ->.
  { clear Hd. induction He as [|e effects He _ IH]; [done|].
    cbn [List.filter]. destruct e; try done; apply IH. }
  assert (List.filter is_confirm dialogs = dialogs) as ->.
  { clear He. induction Hd as [|e dialogs Hd _ IH]; [done|].
    cbn [List.filter]. rewrite Hd. by rewrite IH. }
  cbn [length]. lia.
Qed.

Lemma bind_run {A B} (m : M A) (k : A → M B) (w : World) :
  (m ≫= k) w = let '(a, w') := m w in k a w'.
Proof. reflexivity. Qed.

Lemma after_after (w : World) (k1 k2 : list ascii) (e1 e2 : list Event) :
  after (after w k1 e1) k2 e2 = after w k2 (e1 ++ e2).
Proof. unfold after; cbn. by rewrite (assoc_L (++)). Qed.

Lemma answer_after (w : World) (evs : list Event) (i : nat) :
  answer (after w (tail (w_keys w)) evs) i = answer w (S i).
Proof. unfold answer; cbn [after w_keys]. by destruct (w_keys w). Qed.

(** A dialog adds one gate invocation to the trace, takes one pending
    key and answers by it. *)
Lemma confirm_dialog_run (type : ConfirmType)
    (title message details tip : string) (w : World) :
  confirm_dialog type title message details tip w =
  (answer w 0,
   after w (tail (w_keys w)) [EConfirm type title message details tip]).
Proof.
  unfold confirm_dialog, answer, after, log, get_keypress, is_enter.
  rewrite !bind_run. cbn [w_keys w_files w_dirs w_creatable w_popen w_trace].
  by destruct (w_keys w) as [|c keys].
Qed.

Lemma popen_run (command : string) (w : World) :
  popen command w =
  (if p_pipe (w_popen w command) then Some (w_popen w command) else None,
   after w (w_keys w) [EPopen command]).
Proof. reflexivity. Qed.

Lemma calculator_evaluate_run (e : string) (w : World) :
  (Calculator.evaluate e w).2 =
  after w (w_keys w) [EPopen (Calculator.command_line (Calculator.limit e))].
Proof.
  unfold Calculator.evaluate. rewrite bind_run, popen_run.
  destruct (p_pipe _); [|done].
  by destruct (Calculator.read_output _ _ _ _ _).
Qed.

Lemma shell_run_run (command : string) (t : Z) (w : World) :
  (Shell.run command t w).2 = after w (w_keys w) [EPopen (command +:+ " 2>&1")].
Proof.
  unfold Shell.run. rewrite bind_run, popen_run.
  destruct (p_pipe _); [|done].
  destruct (Shell.read_output _ _ _ _ _ _) as [result []]; done.
Qed.

Lemma bash_run_run (command : string) (t : Z) (w : World) :
  (Bash.run command t w).2 = after w (w_keys w) [EPopen (command +:+ " 2>&1")].
Proof.
  unfold Bash.run, Bash.execute_command. rewrite !bind_run, popen_run.
  destruct (p_pipe _); [|done].
  by destruct (Bash.read_output _ _ _ _ _ _).
Qed.

(** The shape the three gated tools share once the input has matched
    the blocklist: the safety dialog, then (unless auto-confirm is set)
    the dialog put before every command, then the subprocess. *)
Lemma gated_run (t1 t2 : ConfirmType) (a1 b1 c1 d1 a2 b2 c2 d2 : string)
    (e1 e2 : string) (auto : bool) (run : M ToolResult) (cmd : string)
    (w : World) :
  (∀ w, (run w).2 = after w (w_keys w) [EPopen cmd]) →
  let m : M ToolResult :=
    confirmed ← confirm_dialog t1 a1 b1 c1 d1;
    if negb confirmed then mret (error e1)
    else if negb auto then
      confirmed' ← confirm_dialog t2 a2 b2 c2 d2;
      if negb confirmed' then mret (error e2) else run
    else run in
  let n := if answer w 0 && negb auto then 2%nat else 1%nat in
  gates_first n (events m w) ∧
  ((∃ i, (i < n)%nat ∧ answer w i = false) →
   is_success (m w).1 = false ∧ no_side_effect (events m w) ∧
   w_files (m w).2 = w_files w ∧ w_dirs (m w).2 = w_dirs w).
Proof.
  intros Hrun m n.
  set (g1 := EConfirm t1 a1 b1 c1 d1). set (g2 := EConfirm t2 a2 b2 c2 d2).
  assert (∃ r keys evs, m w = (r, after w keys evs) ∧
            ((answer w 0 = false ∧ evs = [g1] ∧ is_success r = false) ∨
             (answer w 0 = true ∧ auto = true ∧ evs = [g1; EPopen cmd]) ∨
             (answer w 0 = true ∧ auto = false ∧ answer w 1 = false ∧
              evs = [g1; g2] ∧ is_success r = false) ∨
             (answer w 0 = true ∧ auto = false ∧ answer w 1 = true ∧
              evs = [g1; g2; EPopen cmd])))
    as (r & keys & evs & Hm & Hcases).
  { subst m. cbv beta. rewrite bind_run, confirm_dialog_run.
    destruct (answer w 0) eqn:H0; cbn [negb].
    - destruct auto; cbn [negb].
      + destruct (run (after w (tail (w_keys w)) [g1])) as [r w'] eqn:Hr.
        pose proof (Hrun (after w (tail (w_keys w)) [g1])) as Hw.
        rewrite Hr in Hw. cbn [snd] in Hw. rewrite after_after in Hw.
        subst w'. eexists _, _, _. split; [done|]. right; left. done.
      + rewrite bind_run, confirm_dialog_run, after_after, answer_after.
        destruct (answer w 1) eqn:H1; cbn [negb].
        * match goal with |- context [run ?w1] =>
            destruct (run w1) as [r w'] eqn:Hr;
            pose proof (Hrun w1) as Hw end.
          rewrite Hr in Hw. cbn [snd] in Hw. rewrite after_after in Hw.
          subst w'. eexists _, _, _. split; [done|]. do 3 right. done.
        * eexists _, _, _. split; [done|]. right; right; left. done.
    - eexists _, _, _. split; [done|]. left. done. }
  assert (events m w = evs) as ->.
  { eapply events_after. by rewrite Hm. }
  rewrite Hm. cbn [fst snd after w_files w_dirs]. subst n.
  destruct Hcases as [(H0 & -> & Hr)|[(H0 & -> & ->)|[(H0 & -> & H1 & -> & Hr)
                     |(H0 & -> & H1 & ->)]]]; rewrite H0; cbn [andb negb].
  - split; [by exists [g1], []; repeat constructor|done].
  - split; [by exists [g1], [EPopen cmd]; repeat constructor|].
    intros (i & Hi & Ha). assert (i = 0)%nat as -> by lia. congruence.
  - split; [by exists [g1; g2], []; repeat constructor|done].
  - split; [by exists [g1; g2], [EPopen cmd]; repeat constructor|].
    intros (i & Hi & Ha).
    assert (i = 0 ∨ i = 1)%nat as [-> | ->] by lia; congruence.
Qed.

(** ** The confirmation gate *)

(** C1, as the code has it. For a Calculator, Shell or Bash execution
    whose input matches the blocklist of the tool while the ignore-safety
    flag is off: the execution starts with the safety dialog, and every
    invocation of the gate comes before every side effect. The gate is
    invoked once, or twice for Shell and Bash when the operator confirms
    the safety dialog and auto-confirm-shell is off (the dialog put
    before every command follows). When the operator denies a dialog, the
    tool returns an error and there is no side effect: no subprocess, no
    directory or file written, the files as they were. *)
Theorem gate_before_side_effects (tool : GatedTool) (cfg : Config)
    (args : json) (w : World) :
  blocklist_hit tool args → ignore_safety tool cfg = false →
  let n := if answer w 0 && negb (auto_confirm tool cfg)
           then 2%nat else 1%nat in
  gates_first n (events (execute tool cfg args) w) ∧
  gate_count (events (execute tool cfg args) w) = n ∧
  ((∃ i, (i < n)%nat ∧ answer w i = false) →
   is_success (execute tool cfg args w).1 = false ∧
   no_side_effect (events (execute tool cfg args) w) ∧
   w_files (execute tool cfg args w).2 = w_files w ∧
   w_dirs (execute tool cfg args w).2 = w_dirs w).
Proof.
  intros (s & Hs & Hm) Hi n.
  apply first_blocked_hit in Hm as [b Hb].
  cut (gates_first n (events (execute tool cfg args) w) ∧
       ((∃ i, (i < n)%nat ∧ answer w i = false) →
        is_success (execute tool cfg args w).1 = false ∧
        no_side_effect (events (execute tool cfg args) w) ∧
        w_files (execute tool cfg args w).2 = w_files w ∧
        w_dirs (execute tool cfg args w).2 = w_dirs w)).
  { intros [Hg Hd]. split; [done|]. split; [|done].
    by apply gate_count_confirms. }
  subst n. destruct tool; cbn [checked_text blocklist ignore_safety auto_confirm] in *.
  - destruct (has_string args "expression") eqn:Hc; [|done].
    injection Hs as <-. apply has_string_true in Hc as [Hc1 Hc2].
    unfold execute, Calculator.execute, Calculator.is_expression_safe.
    rewrite Hc1, Hc2, Hi, Hb. cbn [negb orb].
    eapply (gated_run _ CALCULATION _ _ _ _ "" "" "" "" _ "" true
             (Calculator.evaluate _) _ w).
    apply calculator_evaluate_run.
  - destruct (has_string args "command") eqn:Hc; [|done].
    injection Hs as <-. apply has_string_true in Hc as [Hc1 Hc2].
    unfold execute, Shell.execute, Shell.confirm_and_run, Shell.is_command_safe.
    rewrite Hc1, Hc2, Hi, Hb. cbn [negb orb].
    eapply (gated_run _ _ _ _ _ _ _ _ _ _ _ _ _ (Shell.run _ _) _ w).
    apply shell_run_run.
  - destruct (has_string args "command") eqn:Hc; [|done].
    injection Hs as <-. apply has_string_true in Hc as [Hc1 Hc2].
    unfold execute, Bash.execute, Bash.confirm_and_run, Bash.is_command_safe.
    rewrite Hc1, Hc2, Hi, Hb. cbn [negb orb].
    eapply (gated_run _ _ _ _ _ _ _ _ _ _ _ _ _ (Bash.run _ _) _ w).
    apply bash_run_run.
Qed.

(** ** Executions that never invoke the gate *)

Lemma gate_count_app (e1 e2 : list Event) :
  gate_count (e1 ++ e2) = (gate_count e1 + gate_count e2)%nat.
Proof. unfold gate_count. by rewrite List.filter_app, length_app. Qed.

Lemma silent_gate_count {A} (m : M A) (w : World) :
  silent m → gate_count (events m w) = 0%nat.
Proof.
  intros Hm. destruct (Hm w) as (evs & Ht & Hc).
  unfold events. rewrite Ht. by rewrite drop_app_length.
Qed.

Lemma silent_ret {A} (a : A) : silent (mret a : M A).
Proof. intros w. exists []. by rewrite app_nil_r. Qed.

Lemma silent_bind {A B} (m : M A) (k : A → M B) :
  silent m → (∀ a, silent (k a)) → silent (m ≫= k).
Proof.
  intros Hm Hk w. rewrite bind_run.
  destruct (Hm w) as (e1 & Ht1 & Hc1). destruct (m w) as [a w1].
  destruct (Hk a w1) as (e2 & Ht2 & Hc2). cbn [snd] in *.
  exists (e1 ++ e2). rewrite Ht2, Ht1, (assoc_L (++)).
  split; [done|]. rewrite gate_count_app. lia.
Qed.

Lemma silent_state {A} (m : M A) :
  (∀ w, w_trace (m w).2 = w_trace w) → silent m.
Proof. intros Hm w. exists []. by rewrite app_nil_r. Qed.

Lemma silent_log (e : Event) : is_confirm e = false → silent (log e).
Proof.
  intros He w. exists [e]. split; [done|].
  unfold gate_count. cbn [List.filter]. by rewrite He.
Qed.

Lemma silent_popen (command : string) : silent (popen command).
Proof.
  unfold popen. repeat (apply silent_bind; [|intros ?]).
  - by apply silent_log.
  - by apply silent_state.
  - apply silent_ret.
Qed.

Lemma silent_write_file (path data : string) : silent (write_file path data).
Proof.
  unfold write_file. apply silent_bind; [by apply silent_state|]. intros w.
  destruct (can_open_for_writing path w); [|apply silent_ret].
  repeat (apply silent_bind; [|intros ?]).
  - by apply silent_log.
  - by apply silent_state.
  - apply silent_ret.
Qed.

Lemma silent_create_directories (dir : string) : silent (create_directories dir).
Proof.
  unfold create_directories. apply silent_bind; [by apply silent_log|].
  intros _. by apply silent_state.
Qed.

Lemma silent_calculator_evaluate (e : string) : silent (Calculator.evaluate e).
Proof.
  unfold Calculator.evaluate. apply silent_bind; [apply silent_popen|].
  intros [p|]; [|apply silent_ret].
  destruct (Calculator.read_output _ _ _ _ _); apply silent_ret.
Qed.

Lemma silent_shell_run (command : string) (t : Z) : silent (Shell.run command t).
Proof.
  unfold Shell.run. apply silent_bind; [apply silent_popen|].
  intros [p|]; [|apply silent_ret].
  destruct (Shell.read_output _ _ _ _ _ _) as [result []]; apply silent_ret.
Qed.

Lemma silent_bash_run (command : string) (t : Z) : silent (Bash.run command t).
Proof.
  unfold Bash.run, Bash.execute_command.
  apply silent_bind.
  - apply silent_bind; [apply silent_popen|].
    intros [p|]; [|apply silent_ret].
    destruct (Bash.read_output _ _ _ _ _ _); apply silent_ret.
  - intros [result []]; apply silent_ret.
Qed.

Lemma silent_file_write (file_path content : string) :
  silent (FileWrite.write file_path content).
Proof.
  unfold FileWrite.write.
  apply silent_bind; [by apply silent_state|]. intros there.
  apply silent_bind.
  { destruct (_ && _); [apply silent_create_directories|apply silent_ret]. }
  intros _. apply silent_bind; [apply silent_write_file|].
  intros opened. destruct (negb opened); apply silent_ret.
Qed.

Lemma silent_file_edit (op : FileEdit.EditOp) (args : json)
    (file_path content : string) :
  silent (FileEdit.edit op args file_path content).
Proof.
  unfold FileEdit.edit. destruct (FileEdit.apply_edit _ _ _); [apply silent_ret|].
  apply silent_bind; [apply silent_write_file|].
  intros []; apply silent_ret.
Qed.

Lemma auto_confirm_silent (cfg : Config) (args : json) (w : World) :
  (∀ tool, auto_confirm tool cfg = true → ¬ blocklist_hit tool args →
           gate_count (events (execute tool cfg args) w) = 0%nat) ∧
  (is_auto_confirm_file_ops cfg = true →
   gate_count (events (FileWrite.execute cfg args) w) = 0%nat ∧
   gate_count (events (FileEdit.execute cfg args) w) = 0%nat).
Proof.
  split.
  - intros tool Ha Hmiss. apply silent_gate_count.
    assert (∀ s, checked_text tool args = Some s →
                 first_blocked (blocklist tool) s = None) as Hsafe.
    { intros s Hs. apply first_blocked_miss. intros Hm. apply Hmiss.
      by exists s. }
    clear Hmiss.
    destruct tool; cbn [execute checked_text blocklist auto_confirm] in *.
    + unfold Calculator.execute, Calculator.is_expression_safe.
      unfold has_string in Hsafe.
      destruct (contains args "expression"); [|apply silent_ret].
      destruct (is_string (at_key args "expression")); [|apply silent_ret].
      cbn [negb orb andb] in *. rewrite (Hsafe _ eq_refl).
      destruct (negb _); apply silent_calculator_evaluate.
    + unfold Shell.execute, Shell.is_command_safe, Shell.confirm_and_run.
      unfold has_string in Hsafe.
      destruct (contains args "command"); [|apply silent_ret].
      destruct (is_string (at_key args "command")); [|apply silent_ret].
      cbn [negb orb andb] in *. rewrite (Hsafe _ eq_refl), Ha. cbn [negb].
      destruct (negb _); apply silent_shell_run.
    + unfold Bash.execute, Bash.is_command_safe, Bash.confirm_and_run.
      unfold has_string in Hsafe.
      destruct (contains args "command"); [|apply silent_ret].
      destruct (is_string (at_key args "command")); [|apply silent_ret].
      cbn [negb orb andb] in *. rewrite (Hsafe _ eq_refl), Ha. cbn [negb].
      destruct (negb _); apply silent_bash_run.
  - intros Ha. split; apply silent_gate_count.
    + unfold FileWrite.execute. rewrite Ha. cbn [negb].
      repeat (destruct (_ || _); [apply silent_ret|]).
      destruct (found _); [apply silent_ret|]. apply silent_file_write.
    + unfold FileEdit.execute. rewrite Ha. cbn [negb].
      destruct (_ || _); [apply silent_ret|].
      destruct (found _); [apply silent_ret|].
      apply silent_bind; [by apply silent_state|]. intros there.
      destruct (negb there); [apply silent_ret|].
      apply silent_bind; [by apply silent_state|]. intros [content|];
        [|apply silent_ret].
      destruct (FileEdit.select_operation args);
        (apply silent_ret || apply silent_file_edit).
Qed.

(** C8. With the auto-confirm flag of the tool set and an input that does
    not match its blocklist, an execution never invokes the gate: Shell
    and Bash under auto-confirm-shell, FileWrite and FileEdit (which have
    no blocklist) under auto-confirm-file-ops. *)
Theorem auto_confirm_never_gates (tool : ConfirmingTool) (cfg : Config)
    (args : json) (w : World) :
  auto_confirm_flag tool cfg = true → ¬ matches tool args →
  gate_count (events (run tool cfg args) w) = 0%nat.
Proof.
  intros Ha Hm. destruct (auto_confirm_silent cfg args w) as [Hg Hf].
  destruct tool as [tool| |]; cbn [run auto_confirm_flag matches] in *.
  - by apply Hg.
  - by apply Hf.
  - by apply Hf.
Qed.

(** ** File edits *)

Import Edits.

Lemma exists_run (path : string) (f : File) (w : World) :
  w_files w !! path = Some f → exists_ path w = (true, w).
Proof.
  intros Hf. unfold exists_. rewrite Hf.
  rewrite bool_decide_eq_true_2; [done|]. by eexists.
Qed.

Lemma read_file_run (path : string) (f : File) (w : World) :
  w_files w !! path = Some f →
  read_file path w = (if f_readable f then Some (f_data f) else None, w).
Proof. intros Hf. unfold read_file. by rewrite Hf. Qed.

Lemma write_file_run (path data : string) (f : File) (w : World) :
  w_files w !! path = Some f → f_writable f = true →
  ∃ w', write_file path data w = (true, w') ∧
        w_trace w' = w_trace w ++ [EWrite path data] ∧
        w_files w' = <[path := {| f_data := data; f_readable := f_readable f;
                                  f_writable := f_writable f |}]> (w_files w) ∧
        w_dirs w' = w_dirs w.
Proof.
  intros Hf Hw. unfold write_file, get_world. rewrite bind_run.
  unfold can_open_for_writing. rewrite Hf, Hw.
  unfold log, put_file. rewrite !bind_run.
  cbn [w_keys w_files w_dirs w_creatable w_popen w_trace]. rewrite Hf.
  eexists. split; [reflexivity|].
  cbn [w_trace w_files w_dirs]. by rewrite Hw.
Qed.

Lemma member_path (args : json) (path : string) :
  member "path" args = Some (JStr path) →
  contains args "path" = true ∧ at_key args "path" = JStr path.
Proof. intros Hp. unfold contains, at_key. by rewrite Hp. Qed.

(** A request that reaches the [switch]: the checks before it pass, and
    the confirmation, where one is asked for, is given. *)
Lemma file_edit_reaches_edit (cfg : Config) (args : json) (w : World)
    (path : string) (f : File) :
  member "path" args = Some (JStr path) →
  FileEdit.select_operation args ≠ FileEdit.UNKNOWN →
  editable w path f → goes_ahead cfg w →
  ∃ w1, FileEdit.execute cfg args w =
          FileEdit.edit (FileEdit.select_operation args) args path (f_data f) w1 ∧
        w_files w1 = w_files w ∧ w_dirs w1 = w_dirs w ∧
        gate_count (drop (length (w_trace w)) (w_trace w1)) =
          (if is_auto_confirm_file_ops cfg then 0 else 1)%nat ∧
        no_side_effect (drop (length (w_trace w)) (w_trace w1)).
Proof.
  intros Hp Hop (Hdots & Hf & Hr & Hw) Hgo.
  apply member_path in Hp as [Hp1 Hp2]. apply find_none in Hdots.
  unfold FileEdit.execute. rewrite Hp1, Hp2. cbn [is_string negb orb string_of].
  rewrite Hdots. cbn [found].
  rewrite bind_run, (exists_run _ f) by done. cbn [negb].
  rewrite bind_run, (read_file_run _ f), Hr by done.
  destruct (is_auto_confirm_file_ops cfg) eqn:Ha; cbn [negb].
  - exists w. rewrite drop_all.
    split; [|by repeat split].
    destruct (FileEdit.select_operation args); congruence.
  - destruct Hgo as [?|Hgo]; [congruence|].
    remember (FileEdit.select_operation args) as op eqn:Hoq.
    exists (after w (tail (w_keys w))
              [EConfirm FILE_OPERATION "The AI is requesting to edit the file:"
                        path (FileEdit.details op args) ""]).
    cbn [after w_files w_dirs w_trace]. rewrite drop_app_length.
    split; [|by repeat split].
    destruct op; try congruence;
      by rewrite bind_run, confirm_dialog_run, Hgo.
Qed.

Lemma file_edit_insert_run (cfg : Config) (args : json) (w : World)
    (path : string) (n : Z) (text : string) (f : File) :
  insert_request args path n text → editable w path f → goes_ahead cfg w →
  is_success (FileEdit.execute cfg args w).1 = true ∧
  file_data (FileEdit.execute cfg args w).2 path =
    Some (FileEdit.insert_line (to_int n) text (f_data f)).
Proof.
  intros (Hp & Hop & Hn & Ht & _) He Hgo.
  destruct (file_edit_reaches_edit cfg args w path f) as (w1 & -> & Hf1 & _);
    [done|congruence|done|done|].
  destruct He as (_ & Hf & _ & Hw). rewrite <- Hf1 in Hf.
  rewrite Hop. unfold FileEdit.edit, FileEdit.apply_edit.
  rewrite Hn, Ht. cbn [get_int string_of]. rewrite bind_run.
  destruct (write_file_run path (FileEdit.insert_line (to_int n) text (f_data f))
              f w1 Hf Hw) as (w' & -> & _ & Hf' & _).
  cbn [negb]. unfold mret, M_ret. cbn [fst snd]. split; [done|].
  unfold file_data. rewrite Hf'. by rewrite lookup_insert_eq.
Qed.

(** ** Lines *)

Import Protocol.

Lemma terminated_cons (l : string) (lines : list string) :
  terminated (l :: lines) = l +:+ String Str.newline (terminated lines).
Proof. unfold terminated. cbn [fmap list_fmap Str.concat]. by rewrite app_snoc. Qed.

Lemma terminated_app (a b : list string) :
  terminated (a ++ b) = terminated a +:+ terminated b.
Proof. unfold terminated. by rewrite fmap_app, concat_app. Qed.

(** The joined lines lack exactly the line feed after the last line. *)
Lemma join_lines_terminated (lines : list string) :
  lines ≠ [] →
  FileEdit.join_lines lines +:+ String Str.newline "" = terminated lines.
Proof.
  induction lines as [|l lines IH]; [done|]. intros _.
  rewrite terminated_cons. destruct lines as [|l' lines].
  - done.
  - change (FileEdit.join_lines (l :: l' :: lines))
      with (l +:+ String Str.newline (FileEdit.join_lines (l' :: lines))).
    rewrite app_assoc_str. str_simpl. by rewrite IH.
Qed.

Lemma join_lines_app (a b : list string) :
  b ≠ [] →
  FileEdit.join_lines (a ++ b) = terminated a +:+ FileEdit.join_lines b.
Proof.
  intros Hb. induction a as [|l a IH]; [done|].
  rewrite terminated_cons, app_assoc_str. str_simpl. rewrite <- IH.
  cbn [app FileEdit.join_lines].
  destruct (a ++ b) eqn:Hab; [|done].
  apply app_eq_nil in Hab as [_ ->]. done.
Qed.

(** A content that ends with a line feed is its lines, each followed by
    a line feed. *)
Lemma getlines_terminated (s line : string) :
  terminated (FileEdit.getlines line (s +:+ String Str.newline "")) =
  line +:+ s +:+ String Str.newline "".
Proof.
  revert line. induction s as [|c s IH]; intros line; str_simpl;
    cbn [FileEdit.getlines].
  - rewrite Ascii.eqb_refl. cbn [FileEdit.getlines Str.is_empty].
    by rewrite terminated_cons.
  - destruct (Ascii.eqb_spec c Str.newline) as [->|Hc].
    + rewrite terminated_cons, IH. by str_simpl.
    + by rewrite IH, app_snoc.
Qed.

(** ** The insertion index *)

Lemma to_int_in_range (n : Z) : int_min ≤ n ≤ int_max → to_int n = n.
Proof.
  unfold int_min, int_max, to_int. intros Hn.
  rewrite Z.mod_small; lia.
Qed.

Lemma insert_index_clamp (n : Z) (size : nat) :
  int_min ≤ n ≤ int_max → Z.of_nat size ≤ int_max →
  FileEdit.insert_index (to_int n) size = clamp 0 (Z.of_nat size) n.
Proof.
  intros Hn Hs. unfold FileEdit.insert_index, clamp.
  rewrite (to_int_in_range n) by done.
  rewrite (to_int_in_range (Z.of_nat size)) by (unfold int_min in *; lia).
  destruct (Z.ltb_spec n 0); [lia|].
  destruct (Z.gtb_spec n (Z.of_nat size)); lia.
Qed.

(** The index is within the lines whatever the line number. *)
Lemma insert_index_bounds (n : Z) (size : nat) :
  (Z.to_nat (FileEdit.insert_index n size) ≤ size)%nat.
Proof.
  unfold FileEdit.insert_index.
  assert (to_int (Z.of_nat size) ≤ Z.of_nat size).
  { unfold to_int.
    pose proof (Z.mod_pos_bound (Z.of_nat size + 2 ^ 31) (2 ^ 32) ltac:(lia)).
    pose proof (Z.mod_le (Z.of_nat size + 2 ^ 31) (2 ^ 32) ltac:(lia) ltac:(lia)).
    lia. }
  destruct (Z.ltb_spec n 0); [lia|].
  destruct (Z.gtb_spec n (to_int (Z.of_nat size))); lia.
Qed.

(** C6. A find/replace edit of a file that does not contain [old_text]
    returns an error and changes nothing: no file is written (the error
    is returned before the file is opened for writing) and the content
    of the file is what it was. *)
Theorem find_replace_missing_text (cfg : Config) (args : json) (w : World)
    (path old_text new_text : string) (f : File) :
  replace_request args path old_text new_text →
  w_files w !! path = Some f →
  ¬ Str.contains old_text (f_data f) →
  is_success (FileEdit.execute cfg args w).1 = false ∧
  no_side_effect (events (FileEdit.execute cfg args) w) ∧
  w_files (FileEdit.execute cfg args w).2 = w_files w ∧
  file_data (FileEdit.execute cfg args w).2 path = Some (f_data f).
Proof.
  intros (Hp & Hop & Ho & Hn) Hf Hmiss.
  apply member_path in Hp as [Hp1 Hp2]. apply find_none in Hmiss.
  cut (is_success (FileEdit.execute cfg args w).1 = false ∧
       ((FileEdit.execute cfg args w).2 = w ∨
        ∃ d, (FileEdit.execute cfg args w).2 =
             after w (tail (w_keys w)) [EConfirm FILE_OPERATION
               "The AI is requesting to edit the file:" path d ""])).
  { intros [Hr [Hw|[d Hw]]]; (split; [done|]).
    - rewrite (events_none _ _ Hw), Hw. unfold file_data. by rewrite Hf.
    - rewrite (events_after _ _ _ _ Hw), Hw. unfold file_data.
      cbn [after w_files]. by rewrite Hf. }
  unfold FileEdit.execute. rewrite Hp1, Hp2. cbn [is_string negb orb string_of].
  destruct (found (Str.find ".." path)); [by split; [|left]|].
  rewrite bind_run, (exists_run _ f) by done. cbn [negb].
  rewrite bind_run, (read_file_run _ f) by done.
  destruct (f_readable f); [|by split; [|left]].
  rewrite Hop. unfold FileEdit.edit, FileEdit.apply_edit.
  rewrite Ho. cbn [string_of]. rewrite Hmiss.
  destruct (is_auto_confirm_file_ops cfg); cbn [negb].
  - by split; [|left].
  - rewrite bind_run, confirm_dialog_run.
    destruct (answer w 0); cbn [negb]; (split; [done|right; by eexists]).
Qed.

(** The clamp where it works: for an insertion at line [n] that goes
    through, with [n] in the range of an [int] and a file of fewer than
    2^31 lines, the text is inserted at index [n] clamped to
    [0, number of lines]. *)
Lemma insert_at_line_clamped (cfg : Config) (args : json) (w : World)
    (path : string) (n : Z) (text : string) (f : File) :
  insert_request args path n text → editable w path f → goes_ahead cfg w →
  int_min ≤ n ≤ int_max →
  Z.of_nat (length (FileEdit.getlines "" (f_data f))) ≤ int_max →
  let lines := FileEdit.getlines "" (f_data f) in
  let i := Z.to_nat (clamp 0 (Z.of_nat (length lines)) n) in
  (i ≤ length lines)%nat ∧
  is_success (FileEdit.execute cfg args w).1 = true ∧
  file_data (FileEdit.execute cfg args w).2 path =
    Some (FileEdit.join_lines (take i lines ++ text :: drop i lines)).
Proof.
  intros Hreq He Hgo Hn Hsize lines i.
  destruct (file_edit_insert_run cfg args w path n text f) as [Hr Hd];
    [done..|].
  split; [subst i; unfold clamp; lia|]. split; [done|].
  rewrite Hd. unfold FileEdit.insert_line, FileEdit.insert_at.
  fold lines. by rewrite insert_index_clamp.
Qed.

(** C7, at the input where the code leaves it. The property: the line
    number is clamped to [0, number of lines], so that a line number
    beyond the last line puts the text after the last line. The code:
    the line number is read as an [int] before the boundary check; a
    line number from 2^31 to 2^32 - 1 is negative as an [int], the check
    takes it for a line before the first, and the text is put in front
    of the file, where the clamp of the line number is the number of
    lines. *)
Theorem insert_at_line_narrowed (cfg : Config) (args : json) (w : World)
    (path : string) (n : Z) (text : string) (f : File) :
  insert_request args path n text → editable w path f → goes_ahead cfg w →
  2 ^ 31 ≤ n < 2 ^ 32 →
  let lines := FileEdit.getlines "" (f_data f) in
  is_success (FileEdit.execute cfg args w).1 = true ∧
  file_data (FileEdit.execute cfg args w).2 path =
    Some (FileEdit.join_lines (text :: lines)) ∧
  (Z.of_nat (length lines) ≤ n →
   clamp 0 (Z.of_nat (length lines)) n = Z.of_nat (length lines)).
Proof.
  intros Hreq He Hgo Hn lines.
  destruct (file_edit_insert_run cfg args w path n text f) as [Hr Hd];
    [done..|].
  split; [done|]. split; [|unfold clamp; lia].
  rewrite Hd. unfold FileEdit.insert_line, FileEdit.insert_at,
    FileEdit.insert_index. fold lines.
  assert (to_int n = n - 2 ^ 32) as ->.
  { unfold to_int.
    replace (n + 2 ^ 31) with ((n - 2 ^ 31) + 1 * 2 ^ 32) by lia.
    rewrite Z.mod_add by lia. rewrite Z.mod_small; lia. }
  destruct (Z.ltb_spec (n - 2 ^ 32) 0); [done|lia].
Qed.

Lemma ends_with_newline_app (a b : string) :
  b ≠ "" → ends_with_newline (a +:+ b) ↔ ends_with_newline b.
Proof.
  intros Hb. split.
  - intros [body Hbody]. revert body Hbody.
    induction a as [|c a IH]; intros body Hbody; rewrite ?app_cons_str, ?app_nil_l_str in Hbody.
    + by exists body.
    + destruct body as [|d body]; rewrite ?app_cons_str, ?app_nil_l_str in Hbody.
      * injection Hbody as _ Hbody. by destruct a, b.
      * injection Hbody as _ Hbody. by eapply IH.
  - intros [body ->]. exists (a +:+ body). by rewrite app_assoc_str.
Qed.

Lemma terminated_ends_with_newline (lines : list string) :
  ends_with_newline (terminated lines) ↔ lines ≠ [].
Proof.
  split.
  - intros [body Hbody] ->. by destruct body.
  - destruct lines as [|l lines _] using rev_ind; [done|]. intros _.
    exists (terminated lines +:+ l).
    by rewrite terminated_app, terminated_cons, app_assoc_str.
Qed.

(** The joined lines end with a line feed exactly when the last line
    leaves one there. *)
Lemma join_lines_ends_with_newline (lines : list string) :
  ends_with_newline (FileEdit.join_lines lines) ↔ last_line_open lines.
Proof.
  destruct lines as [|l lines _] using rev_ind.
  - split.
    + intros [body Hbody]. by destruct body.
    + intros (init & l & Hl & _). by destruct init.
  - rewrite join_lines_app by done. cbn [FileEdit.join_lines]. split.
    + intros He. exists lines, l. split; [done|].
      destruct l as [|c l].
      * right. split; [done|]. rewrite app_empty_r in He.
        by apply terminated_ends_with_newline.
      * left. by apply ends_with_newline_app in He.
    + intros (init & l' & Heq & Hl).
      apply app_inj_tail in Heq as [<- <-].
      destruct Hl as [Hl|[-> Hi]].
      * destruct l as [|c l]; [destruct Hl as [body Hb]; by destruct body|].
        by apply ends_with_newline_app.
      * rewrite app_empty_r. by apply terminated_ends_with_newline.
Qed.

(** C10, as the code has it. An insertion that goes through rewrites
    the file as its lines, with the text among them, joined by single
    line feeds and with no line feed added after the last one: the new
    content followed by one line feed is every line followed by a line
    feed. The new content ends with a line feed exactly when the last of
    the joined lines ends with one, or is empty and not the only line.
    When the file ended with a line feed, it was every line followed by
    a line feed; with the text inserted before one of the lines, the new
    content is the old one with the text and a line feed put in and the
    last line feed taken away; with the text put after the last line,
    the new content is the old one followed by the text. *)
Theorem insert_at_line_rejoins_lines (cfg : Config) (args : json)
    (w : World) (path : string) (n : Z) (text : string) (f : File) :
  insert_request args path n text → editable w path f → goes_ahead cfg w →
  let lines := FileEdit.getlines "" (f_data f) in
  ∃ (i : nat) (new : string),
    (i ≤ length lines)%nat ∧
    is_success (FileEdit.execute cfg args w).1 = true ∧
    file_data (FileEdit.execute cfg args w).2 path = Some new ∧
    new = FileEdit.join_lines (take i lines ++ text :: drop i lines) ∧
    new +:+ String Str.newline "" =
      terminated (take i lines ++ text :: drop i lines) ∧
    (ends_with_newline new ↔
     last_line_open (take i lines ++ text :: drop i lines)) ∧
    (ends_with_newline (f_data f) →
     f_data f = terminated lines ∧
     ((i < length lines)%nat →
      ∃ pre post,
        f_data f = pre +:+ post +:+ String Str.newline "" ∧
        new = pre +:+ text +:+ String Str.newline post) ∧
     (i = length lines → new = f_data f +:+ text)).
Proof.
  intros Hreq He Hgo lines.
  destruct (file_edit_insert_run cfg args w path n text f) as [Hr Hd];
    [done..|].
  set (i := Z.to_nat (FileEdit.insert_index (to_int n) (length lines))).
  exists i, (FileEdit.join_lines (take i lines ++ text :: drop i lines)).
  split; [apply insert_index_bounds|]. split; [done|]. split; [done|].
  split; [done|]. split.
  { apply join_lines_terminated. by destruct (take i lines). }
  split; [apply join_lines_ends_with_newline|].
  intros [body Hb].
  assert (f_data f = terminated lines) as Ht.
  { subst lines. rewrite Hb at 2. rewrite getlines_terminated. by rewrite Hb. }
  split; [done|]. split; [intros Hi|intros Hi].
  2:{ rewrite Hi, take_ge, drop_ge by lia.
      rewrite join_lines_app by done. by rewrite Ht. }
  exists (terminated (take i lines)), (FileEdit.join_lines (drop i lines)).
  assert (drop i lines ≠ []) as Hdrop.
  { intros Hnil. apply (f_equal length) in Hnil.
    rewrite length_drop in Hnil. cbn [length] in Hnil. lia. }
  split.
  - rewrite Ht at 1. rewrite <- (take_drop i lines) at 1.
    rewrite terminated_app. by rewrite join_lines_terminated.
  - rewrite join_lines_app by done.
    destruct (drop i lines) as [|l rest]; [done|]. done.
Qed.

(** ** The calculator's command line *)

Import Stated.

Lemma allowed_in_allowed_set (c : ascii) :
  Calculator.allowed c = in_allowed_set c.
Proof. destruct c as [[] [] [] [] [] [] [] []]; vm_compute; reflexivity. Qed.

Lemma all_filter (p : ascii → bool) (s : string) :
  Str.all p (Str.filter p s) = true.
Proof.
  induction s as [|c s IH]; [done|]. cbn [Str.filter].
  destruct (p c) eqn:Hc; [|done]. cbn [Str.all]. by rewrite Hc.
Qed.

Lemma all_take (p : ascii → bool) (n : nat) (s : string) :
  Str.all p s = true → Str.all p (Str.take n s) = true.
Proof.
  unfold Str.take. revert n. induction s as [|c s IH]; intros [|n] Hs; try done.
  cbn [Str.all String.substring] in *.
  apply andb_true_iff in Hs as [-> Hs]. by apply IH.
Qed.

Lemma length_take (n : nat) (s : string) :
  (String.length (Str.take n s) ≤ n)%nat.
Proof.
  unfold Str.take. revert n. induction s as [|c s IH]; intros [|n];
    cbn [String.substring String.length]; try lia.
  specialize (IH n). lia.
Qed.

Lemma all_ext (p q : ascii → bool) (s : string) :
  (∀ c, p c = q c) → Str.all p s = Str.all q s.
Proof.
  intros Hpq. induction s as [|c s IH]; [done|]. cbn [Str.all].
  by rewrite Hpq, IH.
Qed.

Lemma all_excludes (p : ascii → bool) (c : ascii) (s : string) :
  Str.all p s = true → p c = false → Str.mem_char c s = false.
Proof.
  intros Hs Hc. induction s as [|d s IH]; [done|].
  cbn [Str.all Str.mem_char] in *. apply andb_true_iff in Hs as [Hd Hs].
  destruct (Ascii.eqb_spec c d) as [->|_]; [congruence|]. by apply IH.
Qed.

Lemma limit_sanitize (expression : string) :
  Str.all in_allowed_set (Calculator.limit (Calculator.sanitize expression)) = true ∧
  (String.length (Calculator.limit (Calculator.sanitize expression)) ≤ 500)%nat.
Proof.
  rewrite <- (all_ext Calculator.allowed) by apply allowed_in_allowed_set.
  unfold Calculator.limit, Calculator.sanitize.
  destruct (Nat.ltb_spec 500 (String.length (Str.filter Calculator.allowed expression))).
  - split; [apply all_take, all_filter|apply length_take].
  - split; [apply all_filter|done].
Qed.

(** What a calculator execution does: the safety dialog, if any, and at
    most the evaluator on the limited, sanitized expression. *)
Lemma calculator_events (cfg : Config) (args : json) (w : World) (ev : Event) :
  ev ∈ events (Calculator.execute cfg args) w →
  is_confirm ev = true ∨
  ev = EPopen (Calculator.command_line
                 (Calculator.limit
                    (Calculator.sanitize (string_of (at_key args "expression"))))).
Proof.
  unfold Calculator.execute.
  destruct (_ || _);
    [rewrite events_none by done; by intros ?%elem_of_nil|].
  set (e := Calculator.sanitize _).
  assert (∀ w', ev ∈ events (Calculator.evaluate e) w' →
                ev = EPopen (Calculator.command_line (Calculator.limit e)))
    as Heval.
  { intros w'. rewrite (events_after _ _ _ _ (calculator_evaluate_run e w')).
    by intros ->%list_elem_of_singleton. }
  destruct (negb (is_calc_safety_ignored cfg)); [|right; by eapply Heval].
  destruct (Calculator.is_expression_safe e) as [b|]; [|right; by eapply Heval].
  set (m := _ ≫= _).
  assert (∃ keys evs, (m w).2 = after w keys evs ∧
            ∀ ev, ev ∈ evs → is_confirm ev = true ∨
                  ev = EPopen (Calculator.command_line (Calculator.limit e)))
    as (keys & evs & Hw & Hevs).
  { subst m. rewrite bind_run, confirm_dialog_run.
    destruct (answer w 0); cbn [negb].
    - rewrite calculator_evaluate_run, after_after. eexists _, _.
      split; [done|]. intros ev' Hin. cbn [app] in Hin.
      apply elem_of_cons in Hin as [->|Hin]; [by left|].
      apply list_elem_of_singleton in Hin as ->. by right.
    - eexists _, _. split; [done|]. intros ev' ->%list_elem_of_singleton.
      by left. }
  rewrite (events_after _ _ _ _ Hw). apply Hevs.
Qed.

(** C9. The command line the Calculator passes to the external
    evaluator is the [echo] of a quoted expression that consists of
    characters of the allowed set only and is at most 500 characters
    long; in particular it has no single quote, no backtick, no dollar
    sign and no semicolon, so the quoting cannot be closed from inside. *)
Theorem calculator_command_sanitized (cfg : Config) (args : json) (w : World)
    (command : string) :
  EPopen command ∈ events (Calculator.execute cfg args) w →
  ∃ e, command = evaluator_command e ∧
       Str.all in_allowed_set e = true ∧
       (String.length e ≤ 500)%nat ∧
       Str.mem_char "'" e = false ∧ Str.mem_char "`" e = false ∧
       Str.mem_char "$" e = false ∧ Str.mem_char ";" e = false.
Proof.
  intros Hin. apply calculator_events in Hin as [?|[= ->]]; [done|].
  eexists. split; [reflexivity|].
  destruct (limit_sanitize (string_of (at_key args "expression"))) as [Hall Hlen].
  split; [done|]. split; [done|].
  repeat split; by eapply all_excludes.
Qed.

(** ** The tool round *)

Import Registry Orchestrator.

Lemma tool_round_in_order (tools : ToolMap) (calls : list Client.ToolCall)
    (conversation : list Client.ChatMessage) (w : World) :
  ∃ msgs,
    (tool_round tools calls conversation w).1 = conversation ++ msgs ∧
    in_order tools w calls msgs (tool_round tools calls conversation w).2.
Proof.
  revert conversation w. induction calls as [|call calls IH];
    intros conversation w; cbn [tool_round].
  - exists []. split; [by rewrite app_nil_r|constructor].
  - unfold has_tool, execute_tool.
    destruct (tools !! Client.tc_name call) as [tool|] eqn:Ht.
    + rewrite bool_decide_eq_true_2 by eauto. cbn [negb]. rewrite bind_run.
      destruct (execute tool (Client.tc_arguments call) w) as [result w1] eqn:He.
      destruct (IH (conversation ++
                      [Client.make_tool_response (result_text result)
                         (Client.tc_name call)]) w1) as (msgs & Hc & Ho).
      exists (tool_message call result :: msgs). split.
      * rewrite Hc. by rewrite <- (assoc_L (++)).
      * by eapply in_order_run.
    + rewrite bool_decide_eq_false_2 by (by intros [? ?]). cbn [negb].
      destruct (IH conversation w) as (msgs & Hc & Ho).
      exists msgs. split; [done|]. by apply in_order_skip.
Qed.

Lemma in_order_messages (tools : ToolMap) (w w' : World)
    (calls : list Client.ToolCall) (msgs : list Client.ChatMessage) :
  in_order tools w calls msgs w' →
  Forall2 (λ call msg,
             Client.role msg = "tool" ∧
             Client.name msg = Client.tc_name call ∧
             ∃ w1 result w2,
               execute_tool tools (Client.tc_name call)
                 (Client.tc_arguments call) w1 = (result, w2) ∧
               Client.content msg = result_text result)
          (List.filter (registered tools) calls) msgs.
Proof.
  induction 1 as [w|w w' call calls msgs Hn _ IH
                 |w w1 w' call calls msgs tool result Ht He _ IH];
    cbn [List.filter].
  - constructor.
  - unfold registered at 1. rewrite Hn.
    rewrite bool_decide_eq_false_2 by (by intros [? ?]). done.
  - unfold registered at 1. rewrite Ht.
    rewrite bool_decide_eq_true_2 by eauto. constructor; [|done].
    split; [done|]. split; [done|]. exists w, result, w1.
    unfold execute_tool. by rewrite Ht.
Qed.

(** C4, as the code has it. The tool calls are gone through in request
    order, one after the other. A call of a registered tool is executed
    through the registry and appends exactly one message to the
    transcript: role [tool], the name of the tool, and as content the
    content of the result on success, the error message on failure. A
    call of a tool that is not registered is reported and passed over: it
    is not executed and appends nothing. *)
Theorem tool_round_appends (tools : ToolMap) (calls : list Client.ToolCall)
    (conversation : list Client.ChatMessage) (w : World) :
  ∃ msgs,
    (tool_round tools calls conversation w).1 = conversation ++ msgs ∧
    in_order tools w calls msgs (tool_round tools calls conversation w).2 ∧
    Forall2 (λ call msg,
               Client.role msg = "tool" ∧
               Client.name msg = Client.tc_name call ∧
               ∃ w1 result w2,
                 execute_tool tools (Client.tc_name call)
                   (Client.tc_arguments call) w1 = (result, w2) ∧
                 Client.content msg = result_text result)
            (List.filter (registered tools) calls) msgs.
Proof.
  destruct (tool_round_in_order tools calls conversation w) as (msgs & Hc & Ho).
  exists msgs. split; [done|]. split; [done|]. by eapply in_order_messages.
Qed.

(** ** The properties at sample inputs *)

Import Samples.

(** The scenario of the specification: two chunks, two fragments. *)
Example receive_hello :
  Client.receive (H := MiniJson.lib) ""
    [MiniJson.text "{'message':{'content':'Hel'}}" +:+ String Str.newline "";
     MiniJson.text "{'message':{'content':'lo'}}" +:+ String Str.newline ""]
  = (["Hel"; "lo"], Ok "").
Proof. vm_compute. reflexivity. Qed.

(** A line that is no JSON is passed over, a partial line stays in the
    buffer. *)
Example receive_skips_malformed :
  Client.receive (H := MiniJson.lib) ""
    [MiniJson.text "{'message':{'content':'a'}}" +:+ String Str.newline "oops";
     String Str.newline (MiniJson.text "{'message':{'content':'b'}}")
       +:+ String Str.newline (MiniJson.text "{'mess")]
  = (["a"; "b"], Ok (MiniJson.text "{'mess")).
Proof. vm_compute. reflexivity. Qed.

(** A line that is a number too large for a [double] ends the transfer:
    the parser's [out_of_range] is not a [parse_error]. *)
Example receive_aborts_on_overflow :
  Client.receive (H := MiniJson.lib) ""
    [MiniJson.text "{'message':{'content':'Hel'}}" +:+ String Str.newline "1e9";
     "99" +:+ String Str.newline (MiniJson.text "{'message':{'content':'lo'}}")
       +:+ String Str.newline ""]
  = (["Hel"], Throw (out_of_range 406)).
Proof. vm_compute. reflexivity. Qed.

Example parse_tool_calls_three :
  Client.tc_arguments <$>
    match Client.parse_tool_calls (H := MiniJson.lib) three_calls with
    | Ok calls => calls
    | Throw _ => []
    end
  = [JObj [("expression", JStr "2+2")]; JStr "ls -l";
     JObj [("command", JStr "pwd")]].
Proof. vm_compute. reflexivity. Qed.

Ltac names_ok :=
  first
    [ intros v Hv; vm_compute in Hv;
      first [discriminate | injection Hv as <-; reflexivity]
    | intros f v Hf Hv; vm_compute in Hf; injection Hf as <-;
      vm_compute in Hv;
      first [discriminate | injection Hv as <-; reflexivity] ].

Example parse_tool_calls_three_settle :
  ∃ calls, Client.parse_tool_calls (H := MiniJson.lib) three_calls = Ok calls ∧
           length calls = 3%nat.
Proof.
  destruct (parse_tool_calls_normalizes (H := MiniJson.lib) three_calls _ eq_refl)
    as [_ Hargs].
  eexists. split; [vm_compute; reflexivity|]. reflexivity.
Qed.

Lemma parse_tool_calls_escapes_witness :
  (∃ e', Client.parse_tool_calls (H := MiniJson.lib) overflowing_call = Throw e' ∧
         e' ≠ parse_error) ∧
  json_parse (JsonLib := MiniJson.lib) "1e999" = Throw (out_of_range 406) ∧
  Client.parse_tool_calls (H := MiniJson.lib) overflowing_call
    = Throw (out_of_range 406).
Proof.
  split; [|split; vm_compute; reflexivity].
  eapply (parse_tool_calls_escapes (H := MiniJson.lib) overflowing_call _ 0 _ _
            "1e999" (out_of_range 406)).
  - reflexivity.
  - reflexivity.
  - reflexivity.
  - reflexivity.
  - vm_compute. reflexivity.
  - discriminate.
Defined.

Example chat_degrades_bad_gateway :
  Client.chat (H := MiniJson.lib) "http://localhost:11434" bad_gateway
    "llama3" asked [] = Ok (Client.mk_message "assistant" "").
Proof. vm_compute. reflexivity. Qed.

Lemma chat_escapes_on_parser_exception_witness :
  transport_fails (H := MiniJson.lib) "http://localhost:11434" overflowing_body
    "llama3" asked [] ∧
  Client.chat (H := MiniJson.lib) "http://localhost:11434" overflowing_body
    "llama3" asked [] = Throw (out_of_range 406).
Proof.
  eapply (chat_escapes_on_parser_exception (H := MiniJson.lib)).
  - reflexivity.
  - vm_compute. reflexivity.
  - reflexivity.
  - vm_compute. reflexivity.
  - discriminate.
Defined.

(** The gate, once and twice. *)

Lemma hit_shell_rm : blocklist_hit Shell shell_rm.
Proof.
  exists "rm notes.txt". split; [reflexivity|].
  exists "rm". split; [by left|]. by exists "", " notes.txt".
Qed.

Lemma hit_bash_rm : blocklist_hit Bash bash_rm.
Proof.
  eexists. split; [reflexivity|].
  exists "rm -rf". split; [by left|].
  by exists ("cd " +:+ String "034" ("/tmp" +:+ String "034" " && ")), " build".
Qed.

Lemma gate_before_side_effects_witness :
  gates_first 1 (events (Gate.execute Bash cfg_ask bash_rm) (world [escape])) ∧
  gate_count (events (Gate.execute Bash cfg_ask bash_rm) (world [escape])) = 1%nat ∧
  is_success (Gate.execute Bash cfg_ask bash_rm (world [escape])).1 = false ∧
  no_side_effect (events (Gate.execute Bash cfg_ask bash_rm) (world [escape])).
Proof.
  destruct (gate_before_side_effects Bash cfg_ask bash_rm (world [escape])
              hit_bash_rm eq_refl) as (Hfirst & Hcount & Hdeny).
  split; [exact Hfirst|]. split; [exact Hcount|].
  destruct Hdeny as (Herr & Hnone & _).
  - exists 0%nat. split; [vm_compute; lia|reflexivity].
  - by split.
Defined.

(** C1 as stated fails: a Shell command that matches the blocklist, with
    ignore-shell-safety and auto-confirm-shell off and an operator who
    confirms, goes through the gate twice before it is run. *)
Lemma gate_invoked_twice :
  blocklist_hit Shell shell_rm ∧
  ignore_safety Shell cfg_ask = false ∧
  events (Gate.execute Shell cfg_ask shell_rm) (world [enter; enter]) =
    [EConfirm SHELL_COMMAND
       "The command contains a potentially dangerous operation:"
       "'rm' found in: rm notes.txt"
       "This could potentially harm your system or expose sensitive data."
       "Tip: Use --ignore-shell-safety to disable these warnings.";
     EConfirm SHELL_COMMAND
       "The AI is requesting to execute the following command:"
       "rm notes.txt"
       "This could potentially modify your system."
       "";
     EPopen "rm notes.txt 2>&1"] ∧
  gate_count (events (Gate.execute Shell cfg_ask shell_rm) (world [enter; enter]))
    ≠ 1%nat.
Proof.
  split; [apply hit_shell_rm|]. split; [reflexivity|].
  split; [vm_compute; reflexivity|]. vm_compute. discriminate.
Qed.

Lemma miss_shell_ls : ¬ blocklist_hit Shell shell_ls.
Proof.
  intros (s & Hs & Hm). injection Hs as <-.
  apply first_blocked_hit in Hm as [b Hb]. vm_compute in Hb. discriminate.
Qed.

Lemma auto_confirm_never_gates_witness :
  gate_count (events (Gate.run (Gated Shell) cfg_auto shell_ls) (world [])) = 0%nat ∧
  gate_count (events (Gate.run FileWriteTool cfg_auto write_notes) (world [])) = 0%nat.
Proof.
  split.
  - apply auto_confirm_never_gates; [reflexivity|apply miss_shell_ls].
  - apply auto_confirm_never_gates; [reflexivity|]. intros [].
Defined.

Example calculator_two_plus_two :
  let w := {| w_keys := []; w_files := ∅; w_dirs := ∅;
              w_creatable := λ _, true;
              w_popen := λ _, prints ["4" +:+ String Str.newline ""];
              w_trace := [] |} in
  (Calculator.execute cfg_ask (JObj [("expression", JStr "2+2")]) w).1
    = success "4" ∧
  events (Calculator.execute cfg_ask (JObj [("expression", JStr "2+2")])) w
    = [EPopen "echo '2+2' | BC_LINE_LENGTH=0 bc -l"].
Proof. vm_compute. done. Qed.

Lemma calculator_command_sanitized_witness :
  EPopen (evaluator_command "1+1 ls pwd H")
    ∈ events (Calculator.execute cfg_ask calc_injection) (world []) ∧
  ∃ e, evaluator_command "1+1 ls pwd H" = evaluator_command e ∧
       Str.all in_allowed_set e = true ∧
       (String.length e ≤ 500)%nat ∧
       Str.mem_char "'" e = false ∧ Str.mem_char "`" e = false ∧
       Str.mem_char "$" e = false ∧ Str.mem_char ";" e = false.
Proof.
  assert (EPopen (evaluator_command "1+1 ls pwd H")
            ∈ events (Calculator.execute cfg_ask calc_injection) (world []))
    as Hin.
  { vm_compute. by left. }
  split; [exact Hin|].
  exact (calculator_command_sanitized cfg_ask calc_injection (world []) _ Hin).
Defined.

(** The tool round. *)

(** C4 as stated fails: with the Calculator alone in the registry, a
    call of [shell_tool] is passed over and no tool message is appended
    for it. *)
Lemma unregistered_call_appends_nothing :
  registered calculator_only call_shell = false ∧
  (tool_round calculator_only [call_shell] asked (world [])).1 = asked ∧
  ¬ ∃ msg, (tool_round calculator_only [call_shell] asked (world [])).1
           = asked ++ [msg].
Proof.
  split; [vm_compute; reflexivity|].
  assert ((tool_round calculator_only [call_shell] asked (world [])).1 = asked)
    as Hsame by (vm_compute; reflexivity).
  split; [exact Hsame|]. rewrite Hsame. intros [msg Hmsg].
  apply (f_equal length) in Hmsg. rewrite length_app in Hmsg.
  cbn [length asked] in Hmsg. lia.
Qed.

Example tool_round_two_calls :
  (tool_round calculator_only [call_shell; call_calculator] asked (world [])).1
  = asked ++ [Client.make_tool_response "Invalid expression or no result"
                "calculator"].
Proof. vm_compute. reflexivity. Qed.

Example execute_tool_not_found :
  (execute_tool calculator_only "shell_tool" shell_ls (world [])).1
  = error "Tool not found: shell_tool".
Proof. vm_compute. reflexivity. Qed.

(** The file edits. *)

Lemma notes_editable (keys : list ascii) : editable (world keys) "notes.txt" notes.
Proof.
  split; [apply find_none; vm_compute; reflexivity|].
  split; [vm_compute; reflexivity|]. by split.
Qed.

Lemma find_replace_missing_text_witness :
  is_success (FileEdit.execute cfg_ask replace_missing (world [enter])).1 = false ∧
  no_side_effect (events (FileEdit.execute cfg_ask replace_missing) (world [enter])) ∧
  file_data (FileEdit.execute cfg_ask replace_missing (world [enter])).2
    "notes.txt" = Some (f_data notes).
Proof.
  destruct (find_replace_missing_text cfg_ask replace_missing (world [enter])
              "notes.txt" "z" "y" notes) as (Herr & Hnone & _ & Hdata).
  - repeat split; reflexivity.
  - vm_compute. reflexivity.
  - apply find_none. vm_compute. reflexivity.
  - by repeat split.
Defined.

Example insert_at_line_minus_5 :
  is_success (FileEdit.execute cfg_auto (insert_at (-5)) (world [])).1 = true ∧
  file_data (FileEdit.execute cfg_auto (insert_at (-5)) (world [])).2 "notes.txt"
    = Some (FileEdit.join_lines ["X"; "a"; "b"; "c"]).
Proof.
  destruct (insert_at_line_clamped cfg_auto (insert_at (-5)) (world [])
              "notes.txt" (-5) "X" notes) as (_ & Hok & Hdata).
  - repeat split; first [reflexivity | vm_compute; discriminate].
  - apply notes_editable.
  - left. reflexivity.
  - vm_compute. split; discriminate.
  - vm_compute. discriminate.
  - split; [exact Hok|exact Hdata].
Qed.

Example insert_at_line_99 :
  file_data (FileEdit.execute cfg_auto (insert_at 99) (world [])).2 "notes.txt"
    = Some (FileEdit.join_lines ["a"; "b"; "c"; "X"]).
Proof. vm_compute. reflexivity. Qed.

(** The line number 4294967295 does not fit an [int]; read as an [int]
    it is -1, and the text is put in front of the file where the clamped
    line number is the end of the file. *)
Lemma insert_at_line_narrowed_witness :
  FileEdit.getlines "" (f_data notes) = ["a"; "b"; "c"] ∧
  clamp 0 3 4294967295 = 3 ∧
  is_success
    (FileEdit.execute cfg_auto (insert_at 4294967295) (world [])).1 = true ∧
  file_data (FileEdit.execute cfg_auto (insert_at 4294967295) (world [])).2
    "notes.txt" = Some (FileEdit.join_lines ["X"; "a"; "b"; "c"]).
Proof.
  split; [vm_compute; reflexivity|]. split; [reflexivity|].
  destruct (insert_at_line_narrowed cfg_auto (insert_at 4294967295) (world [])
              "notes.txt" 4294967295 "X" notes) as (Hok & Hdata & _).
  - repeat split; first [reflexivity | vm_compute; discriminate].
  - apply notes_editable.
  - left. reflexivity.
  - lia.
  - split; [exact Hok|exact Hdata].
Defined.

(** C10 as stated fails. An empty text put after the last line of a
    file that ends with a line feed leaves the file as it was, final
    line feed included; and a file that ends with two line feeds still
    ends with one after a text is put in front of it. *)
Lemma insert_at_line_keeps_final_newline :
  (ends_with_newline (f_data notes) ∧
   is_success
     (FileEdit.execute cfg_auto (insert_text_at 99 "") (world [])).1 = true ∧
   file_data (FileEdit.execute cfg_auto (insert_text_at 99 "") (world [])).2
     "notes.txt" = Some (f_data notes)) ∧
  (f_data blank_end = "a" +:+ String Str.newline (String Str.newline "") ∧
   is_success
     (FileEdit.execute cfg_auto (insert_at 0)
        (world_of "notes.txt" blank_end)).1 = true ∧
   file_data
     (FileEdit.execute cfg_auto (insert_at 0)
        (world_of "notes.txt" blank_end)).2 "notes.txt"
   = Some ("X" +:+ String Str.newline ("a" +:+ String Str.newline ""))).
Proof.
  split.
  - split; [by exists (Protocol.terminated ["a"; "b"] +:+ "c")|].
    split; vm_compute; reflexivity.
  - split; [reflexivity|]. split; vm_compute; reflexivity.
Qed.

Lemma insert_at_line_rejoins_lines_witness :
  ∃ pre post,
    f_data notes = pre +:+ post +:+ String Str.newline "" ∧
    file_data (FileEdit.execute cfg_ask (insert_at 1) (world [enter])).2
      "notes.txt" = Some (pre +:+ "X" +:+ String Str.newline post).
Proof.
  destruct (insert_at_line_rejoins_lines cfg_ask (insert_at 1)
              (world [enter]) "notes.txt" 1 "X" notes)
    as (i & new & Hi & _ & Hdata & Hnew & _ & _ & Hfinal).
  - repeat split; first [reflexivity | vm_compute; discriminate].
  - apply notes_editable.
  - right. reflexivity.
  - destruct Hfinal as (_ & Hfinal & _).
    + exists (Protocol.terminated ["a"; "b"] +:+ "c"). reflexivity.
    + destruct Hfinal as (pre & post & Hold & Hpost).
      * assert (Some new = Some (FileEdit.join_lines ["a"; "X"; "b"; "c"]))
          as Hsome by (rewrite <- Hdata; vm_compute; reflexivity).
        injection Hsome as Hsome.
        destruct (decide (i < 3)%nat) as [Hlt|Hge]; [exact Hlt|].
        assert (i = 3)%nat as -> by (vm_compute in Hi; lia).
        rewrite Hnew in Hsome. vm_compute in Hsome. discriminate.
      * exists pre, post. split; [exact Hold|]. by rewrite Hdata, Hpost.
Defined.

Example insert_at_line_1 :
  file_data (FileEdit.execute cfg_ask (insert_at 1) (world [enter])).2
    "notes.txt"
  = Some ("a" +:+ String Str.newline ("X" +:+ String Str.newline
            ("b" +:+ String Str.newline "c"))).
Proof. vm_compute. reflexivity. Qed.

(** * Further properties *)

(** ** The client *)

Import MoreSamples.

Lemma receive_refines_witness :
  Client.receive (H := MiniJson.lib) ""
    [MiniJson.text "{'message':{'content':'Hel'}}" +:+ String Str.newline "oo";
     "ps" +:+ String Str.newline (MiniJson.text "{'message':{'con");
     MiniJson.text "tent':'lo'}}" +:+ String Str.newline (MiniJson.text "{'done")]
  = (["Hel"; "lo"], Ok (MiniJson.text "{'done")).
Proof.
  apply (receive_refines (H := MiniJson.lib)
           [MiniJson.text "{'message':{'content':'Hel'}}"; "oops";
            MiniJson.text "{'message':{'content':'lo'}}"]
           (MiniJson.text "{'done")).
  - repeat constructor.
  - reflexivity.
  - repeat (apply Forall_cons; split;
            [intros e He; vm_compute in He;
             first [discriminate | by injection He as <-]|]).
    by apply Forall_nil.
  - repeat (apply Forall_cons; split;
            [intros v Hv; vm_compute in Hv;
             first [discriminate | injection Hv as <-; reflexivity]|]).
    by apply Forall_nil.
  - vm_compute. reflexivity.
Defined.

Lemma receive_chunking_witness :
  Client.receive (H := MiniJson.lib) ""
    [line "{'message':{'content':'Hel'}}" +:+ line "{'message':{'content':'lo'}}"]
  = Client.receive (H := MiniJson.lib) ""
      [MiniJson.text "{'message':{'cont"; MiniJson.text "ent':'Hel'}}";
       String Str.newline (MiniJson.text "{'message':");
       line "{'content':'lo'}}"].
Proof. apply receive_chunking. vm_compute. reflexivity. Defined.

Section ClientMore.
Context `{JsonLib}.
Import Client Models.

(** X3. A response whose [message] has a [content] that is not a string
    makes [chat] throw: the [type_error] of the typed read is not a
    [parse_error], so the [catch] of [chat] lets it leave the client. *)
Theorem chat_throws_on_non_string_content (host : string) (t : Transport)
    (model : string) (messages : list ChatMessage) (tools : list Tool)
    (payload_str : string) (chunks : list string) (j message v : json) :
  curl_easy_init t = true →
  json_dump (payload model messages tools false) = Some payload_str →
  curl_easy_perform t (host +:+ "/api/chat") payload_str = (chunks, CURLE_OK) →
  json_parse (Str.concat chunks) = Ok j →
  member "message" j = Some message →
  member "content" message = Some v → is_string v = false →
  chat host t model messages tools = Throw (type_error 302).
Proof.
  intros Hi Hd Hp Hj Hm Hc Hv. unfold chat.
  rewrite Hi, Hd, Hp. cbn [negb]. rewrite foldl_append. str_simpl.
  rewrite Z.eqb_refl, Hj. cbn [bind]. unfold contains, at_key.
  rewrite Hm, Hc. by destruct v.
Qed.

(** X4. The model list is the names of the entries of [models] that have
    a name, in the order of the response; entries without a name are
    passed over. *)
Theorem list_models_names (host : string) (t : Transport)
    (chunks : list string) (j : json) (models : list json) :
  curl_easy_init t = true →
  curl_easy_perform t (host +:+ "/api/tags") "" = (chunks, CURLE_OK) →
  json_parse (Str.concat chunks) = Ok j →
  member "models" j = Some (JArr models) →
  Forall (λ m, ∀ v, member "name" m = Some v → is_string v = true) models →
  list_models host t =
    Ok (omap (λ m, match member "name" m with
                   | Some (JStr n) => Some n
                   | _ => None
                   end) models).
Proof.
  intros Hi Hp Hj Hm Hn. unfold list_models.
  rewrite Hi, Hp. cbn [negb]. rewrite foldl_append. str_simpl.
  rewrite Z.eqb_refl, Hj. cbn [bind].
  unfold contains at 1, at_key at 1. rewrite Hm. clear Hm.
  enough (model_names models =
          Ok (omap (λ m, match member "name" m with
                         | Some (JStr n) => Some n
                         | _ => None
                         end) models)) as -> by done.
  induction Hn as [|m models Hv _ IH]; [done|].
  cbn [model_names omap list_omap]. unfold contains, at_key.
  destruct (member "name" m) as [v|]; [|exact IH].
  specialize (Hv v eq_refl). destruct v; try done.
  cbn [get_string bind]. by rewrite IH.
Qed.

(** X5. The tools the client sends are the definitions of the registry:
    the conversion of the definitions of any tools returns, and the
    [tools] of the request body built from it are those definitions
    again. *)
Theorem definitions_round_trip (ts : list Registry.ToolBase) :
  ∃ tools,
    tools_of_definitions (Registry.get_definition <$> ts) = Ok tools ∧
    tool_json <$> tools = Registry.get_definition <$> ts.
Proof.
  induction ts as [|t ts (tools & Hc & Hj)]; [by exists []|].
  eexists (_ :: tools). cbn [fmap list_fmap tools_of_definitions].
  change (list_fmap _ _ ?f ?l) with (f <$> l). rewrite Hc.
  split; [reflexivity|]. cbn [fmap list_fmap].
  change (list_fmap _ _ ?f ?l) with (f <$> l). by rewrite Hj.
Qed.

End ClientMore.

Lemma chat_throws_on_non_string_content_witness :
  Client.chat (H := MiniJson.lib) "http://localhost:11434"
    (answers [MiniJson.text "{'message':{'content':null}}"])
    "llama3" asked [] = Throw (type_error 302).
Proof.
  eapply (chat_throws_on_non_string_content (H := MiniJson.lib));
    [reflexivity | vm_compute; reflexivity | reflexivity
    | vm_compute; reflexivity | reflexivity | reflexivity | reflexivity].
Defined.

Lemma list_models_names_witness :
  Models.list_models (H := MiniJson.lib) "http://localhost:11434"
    (answers [MiniJson.text "{'models':[{'name':'llama3'},{'size':1},";
              MiniJson.text "{'name':'phi'}]}"])
  = Ok ["llama3"; "phi"].
Proof.
  apply (list_models_names (H := MiniJson.lib) "http://localhost:11434"
           (answers [MiniJson.text "{'models':[{'name':'llama3'},{'size':1},";
                     MiniJson.text "{'name':'phi'}]}"])
           [MiniJson.text "{'models':[{'name':'llama3'},{'size':1},";
            MiniJson.text "{'name':'phi'}]}"]
           (JObj [("models", JArr [JObj [("name", JStr "llama3")];
                                   JObj [("size", JNum 1)];
                                   JObj [("name", JStr "phi")]])])
           [JObj [("name", JStr "llama3")]; JObj [("size", JNum 1)];
            JObj [("name", JStr "phi")]]);
    [reflexivity | reflexivity | vm_compute; reflexivity | reflexivity |].
  repeat (apply Forall_cons; split;
          [intros v Hv; vm_compute in Hv;
           first [discriminate | injection Hv as <-; reflexivity]|]).
  by apply Forall_nil.
Defined.

(** ** Time limits and output limits *)

Import Unattended.

(** X6. Whatever the [timeout] argument, a Shell command runs with a
    limit of 1 to 30 seconds and a Bash command with a limit of 1 to 60
    seconds. *)
Theorem timeout_within_limits (args : json) :
  1 ≤ timeout_arg args 5 1 30 ≤ 30 ∧ 1 ≤ timeout_arg args 10 1 60 ≤ 60.
Proof.
  unfold timeout_arg. destruct (_ && _); [|lia].
  set (t := get_int _).
  destruct (Z.gtb_spec t 30), (Z.gtb_spec t 60), (Z.ltb_spec t 1); lia.
Qed.

Lemma shell_read_output_bound (elapsed : nat → Z) (t : Z) (eof : bool)
    (reads : list string) (i : nat) (acc : string) :
  (String.length acc ≤ 1000)%nat →
  (String.length (Shell.read_output elapsed t eof i reads acc).1 ≤ 1023)%nat.
Proof.
  revert i acc. induction reads as [|chunk reads IH]; intros i acc Hacc;
    cbn [Shell.read_output].
  - destruct (_ >? _); cbn [fst]; lia.
  - destruct (_ >? _); [cbn [fst]; lia|].
    destruct (Nat.ltb_spec 1000 (String.length (acc +:+ chunk))).
    + cbn [fst]. rewrite length_app_str.
      pose proof (length_take 1000 (acc +:+ chunk)). cbn [String.length]. lia.
    + destruct (feof eof reads); [cbn [fst]; lia|by apply IH].
Qed.

Lemma shell_run_bound (command : string) (t : Z) (w : World) :
  (String.length (Tools.content (Shell.run command t w).1) ≤ 1023)%nat.
Proof.
  unfold Shell.run. rewrite bind_run, popen_run.
  destruct (p_pipe _); [|cbn; lia].
  pose proof (shell_read_output_bound
                (p_elapsed (w_popen w (command +:+ " 2>&1"))) t
                (p_eof (w_popen w (command +:+ " 2>&1")))
                (p_reads (w_popen w (command +:+ " 2>&1"))) 0 "" ltac:(cbn; lia))
    as Hb.
  destruct (Shell.read_output _ _ _ _ _ _) as [result []]; cbn [fst] in *.
  - cbn; lia.
  - cbn [Tools.content success mret M_ret fst].
    destruct (Str.is_empty result); [cbn; lia|done].
Qed.

(** X7. The content of a Shell result is never longer than 1000
    characters and the truncation marker: 1023 characters. *)
Theorem shell_output_bounded (cfg : Config) (args : json) (w : World) :
  (String.length (Tools.content (Shell.execute cfg args w).1) ≤ 1023)%nat.
Proof.
  assert (∀ command t w',
            (String.length
               (Tools.content (Shell.confirm_and_run cfg command t w').1)
             ≤ 1023)%nat) as Hrun.
  { intros command t w'. unfold Shell.confirm_and_run.
    destruct (negb _); [|apply shell_run_bound].
    rewrite bind_run, confirm_dialog_run.
    destruct (negb _); [cbn; lia|apply shell_run_bound]. }
  unfold Shell.execute. destruct (_ || _); [cbn; lia|].
  destruct (negb _); [|apply Hrun].
  destruct (Shell.is_command_safe _); [|apply Hrun].
  rewrite bind_run, confirm_dialog_run.
  destruct (negb _); [cbn; lia|apply Hrun].
Qed.

Lemma shell_execute_runs (cfg : Config) (args : json) (w : World) :
  shell_runs cfg args →
  Shell.execute cfg args w =
  Shell.run (string_of (at_key args "command")) (timeout_arg args 5 1 30) w.
Proof.
  intros (Hc & Ha & Hs). apply has_string_true in Hc as [Hc1 Hc2].
  unfold Shell.execute, Shell.confirm_and_run, Shell.is_command_safe.
  rewrite Hc1, Hc2, Ha. cbn [negb orb].
  destruct Hs as [->|Hs]; [done|].
  apply first_blocked_miss in Hs. rewrite Hs. by destruct (negb _).
Qed.

Lemma shell_read_output_complete (elapsed : nat → Z) (t : Z) (eof : bool)
    (reads : list string) (i : nat) (acc : string) :
  (∀ k, elapsed k ≤ 1000 * t) →
  (String.length (acc +:+ Str.concat reads) ≤ 1000)%nat →
  Shell.read_output elapsed t eof i reads acc
    = (acc +:+ Str.concat reads, false).
Proof.
  intros He. revert i acc. induction reads as [|chunk reads IH];
    intros i acc Hlen; cbn [Shell.read_output Str.concat] in *.
  - destruct (Z.gtb_spec (elapsed i) (1000 * t)); [specialize (He i); lia|].
    by rewrite app_empty_r.
  - destruct (Z.gtb_spec (elapsed i) (1000 * t)); [specialize (He i); lia|].
    rewrite <- app_assoc_str in Hlen |- *.
    destruct (Nat.ltb_spec 1000 (String.length (acc +:+ chunk))).
    + rewrite length_app_str in Hlen. lia.
    + destruct reads as [|chunk' reads]; [|by apply IH].
      cbn [feof]. destruct eof; [|by apply IH].
      cbn [Str.concat]. by rewrite app_empty_r.
Qed.

(** X8. A Shell command that runs unattended, stays within its time
    limit and prints at most 1000 characters returns all it printed, the
    pieces read from the pipe put together in order (and a fixed text
    when it printed nothing). *)
Theorem shell_returns_whole_output (cfg : Config) (args : json) (w : World) :
  shell_runs cfg args →
  p_pipe (shell_process args w) = true →
  (∀ k, p_elapsed (shell_process args w) k ≤ 1000 * timeout_arg args 5 1 30) →
  (String.length (Str.concat (p_reads (shell_process args w))) ≤ 1000)%nat →
  (Shell.execute cfg args w).1 =
    success (if Str.is_empty (Str.concat (p_reads (shell_process args w)))
             then "Command executed successfully (no output)"
             else Str.concat (p_reads (shell_process args w))).
Proof.
  intros Hruns Hp He Hlen. rewrite shell_execute_runs by done.
  unfold shell_process in *. unfold Shell.run.
  rewrite bind_run, popen_run, Hp.
  rewrite (shell_read_output_complete _ _ _ _ 0 "") by done. done.
Qed.

Lemma shell_read_output_timeout (elapsed : nat → Z) (t : Z) (eof : bool)
    (reads : list string) (i k : nat) (acc : string) :
  (k < length reads)%nat ∨ (k = length reads ∧ (k = 0%nat ∨ eof = false)) →
  elapsed (i + k)%nat > 1000 * t →
  (String.length (acc +:+ Str.concat (take k reads)) ≤ 1000)%nat →
  (Shell.read_output elapsed t eof i reads acc).2 = true.
Proof.
  revert i k acc. induction reads as [|chunk reads IH]; intros i k acc Hk He Hlen;
    cbn [Shell.read_output].
  - destruct (Z.gtb_spec (elapsed i) (1000 * t)); [done|].
    cbn [length] in Hk. assert (k = 0)%nat as -> by lia.
    rewrite Nat.add_0_r in He. lia.
  - destruct (Z.gtb_spec (elapsed i) (1000 * t)); [done|].
    destruct k as [|k]; [rewrite Nat.add_0_r in He; lia|].
    cbn [take Str.concat] in Hlen. rewrite <- app_assoc_str in Hlen.
    destruct (Nat.ltb_spec 1000 (String.length (acc +:+ chunk))).
    + rewrite length_app_str in Hlen. lia.
    + cbn [length] in Hk.
      destruct (feof eof reads) eqn:Hf.
      * destruct reads; [|done]. cbn [feof length] in *.
        destruct Hk as [Hk|[_ [Hk|Hk]]]; [lia|lia|congruence].
      * apply (IH (S i) k); [|by replace (S i + k)%nat with (i + S k)%nat by lia|done].
        destruct Hk as [Hk|[Hk [Hk'|Hk']]];
          [left; lia|lia|right; split; [lia|by right]].
Qed.

(** X9. A Shell command that runs unattended and is past its time limit
    at a pass the read loop makes, before the output has grown past 1000
    characters, ends with the time-out error: the loop does not read
    on. *)
Theorem shell_times_out (cfg : Config) (args : json) (w : World) (k : nat) :
  shell_runs cfg args →
  p_pipe (shell_process args w) = true →
  pass_is_made (shell_process args w) k →
  p_elapsed (shell_process args w) k > 1000 * timeout_arg args 5 1 30 →
  (String.length (Str.concat (take k (p_reads (shell_process args w)))) ≤ 1000)%nat →
  (Shell.execute cfg args w).1 =
    error ("Command execution timed out after "
           +:+ to_string (timeout_arg args 5 1 30) +:+ " seconds").
Proof.
  intros Hruns Hp Hk He Hlen. rewrite shell_execute_runs by done.
  unfold shell_process, pass_is_made in *. unfold Shell.run.
  rewrite bind_run, popen_run, Hp.
  pose proof (shell_read_output_timeout _ _ _ _ 0 k "" Hk He Hlen) as Ht.
  destruct (Shell.read_output _ _ _ _ _ _) as [result timed_out].
  cbn [snd] in Ht. by rewrite Ht.
Qed.

(** ** The calculator's result *)

Lemma rev_app_rev_app (a b c : string) :
  String.rev_app (String.rev_app a b) c = String.rev_app b (a +:+ c).
Proof.
  revert b c. induction a as [|x a IH]; intros b c; cbn [String.rev_app].
  - done.
  - rewrite IH. cbn [String.rev_app]. by str_simpl.
Qed.

Lemma rev_rev (s : string) : String.rev (String.rev s) = s.
Proof.
  unfold String.rev. rewrite rev_app_rev_app. cbn [String.rev_app].
  apply app_empty_r.
Qed.

Lemma rev_app_app (a b : string) :
  String.rev_app a b = String.rev a +:+ b.
Proof.
  unfold String.rev. revert b. induction a as [|x a IH]; intros b;
    cbn [String.rev_app]; [done|].
  rewrite (IH (String x b)), (IH (String x "")). by rewrite app_snoc.
Qed.

Lemma rev_app_distr (a b : string) :
  String.rev (a +:+ b) = String.rev b +:+ String.rev a.
Proof.
  induction a as [|x a IH]; str_simpl.
  - by rewrite app_empty_r.
  - unfold String.rev at 1 3. cbn [String.rev_app].
    rewrite !(rev_app_app _ (String x "")), IH. by rewrite app_assoc_str.
Qed.

Lemma length_rev (s : string) : String.length (String.rev s) = String.length s.
Proof.
  induction s as [|x s IH]; [done|].
  unfold String.rev. cbn [String.rev_app]. rewrite rev_app_app, length_app_str.
  cbn [String.length]. rewrite IH. lia.
Qed.

Lemma trim_left_suffix (s : string) :
  ∃ pre, s = pre +:+ Calculator.trim_left s.
Proof.
  induction s as [|c s [pre IH]]; [by exists ""|]. cbn [Calculator.trim_left].
  destruct (Calculator.isspace c); [|by exists ""].
  exists (String c pre). str_simpl. by rewrite <- IH.
Qed.

Lemma trim_left_starts (s : string) :
  starts_with_space (Calculator.trim_left s) = false.
Proof.
  induction s as [|c s IH]; [done|]. cbn [Calculator.trim_left].
  destruct (Calculator.isspace c) eqn:Hc; [done|].
  cbn [starts_with_space]. done.
Qed.

Lemma length_trim_left (s : string) :
  (String.length (Calculator.trim_left s) ≤ String.length s)%nat.
Proof.
  destruct (trim_left_suffix s) as [pre Hs]. rewrite Hs at 2.
  rewrite length_app_str. lia.
Qed.

Lemma length_trim (s : string) :
  (String.length (Calculator.trim s) ≤ String.length s)%nat.
Proof.
  unfold Calculator.trim. rewrite length_rev.
  etrans; [apply length_trim_left|]. rewrite length_rev.
  apply length_trim_left.
Qed.

Lemma starts_with_space_app (a b : string) :
  a ≠ "" → starts_with_space (a +:+ b) = starts_with_space a.
Proof. by destruct a. Qed.

(** The trimmed text has no white space at either end. *)
Lemma trim_trimmed (s : string) :
  starts_with_space (Calculator.trim s) = false ∧
  ends_with_space (Calculator.trim s) = false.
Proof.
  unfold ends_with_space, Calculator.trim. rewrite rev_rev. split.
  - set (z := Calculator.trim_left s).
    destruct (trim_left_suffix (String.rev z)) as [pre Hz].
    set (y := Calculator.trim_left (String.rev z)) in *.
    destruct (String.rev y) as [|c r] eqn:Hy; [done|].
    assert (z = String.rev y +:+ String.rev pre) as Hzz.
    { rewrite <- rev_app_distr, <- Hz. by rewrite rev_rev. }
    pose proof (trim_left_starts s) as Hs. fold z in Hs.
    rewrite Hzz, Hy in Hs. exact Hs.
  - apply trim_left_starts.
Qed.

Lemma calculator_read_output_bound (elapsed : nat → Z) (eof : bool)
    (reads : list string) (i : nat) (acc result : string) :
  (String.length acc ≤ 1000)%nat →
  Calculator.read_output elapsed eof i reads acc = inr result →
  (String.length result ≤ 1000)%nat.
Proof.
  revert i acc. induction reads as [|chunk reads IH]; intros i acc Hacc;
    cbn [Calculator.read_output].
  - destruct (_ >? _); [done|]. by intros [= <-].
  - destruct (_ >? _); [done|].
    destruct (Nat.ltb_spec 1000 (String.length (acc +:+ chunk))); [done|].
    destruct (feof eof reads); [by intros [= <-]|by apply IH].
Qed.

Lemma calculator_report_success (result : string) :
  is_success (Calculator.report result) = true →
  Tools.content (Calculator.report result) = Calculator.trim result ∧
  Calculator.trim result ≠ "" ∧
  ¬ Str.contains "error" (Calculator.trim result).
Proof.
  unfold Calculator.report. destruct (Calculator.trim result) eqn:Ht; [done|].
  cbn [Str.is_empty]. destruct (_ || _) eqn:Hf; [done|]. intros _.
  split; [done|]. split; [done|].
  apply orb_false_iff in Hf as [_ Hf]. intros Hc%find_found. congruence.
Qed.

Lemma calculator_evaluate_success (e : string) (w : World) :
  is_success (Calculator.evaluate e w).1 = true →
  ∃ result, (String.length result ≤ 1000)%nat ∧
            (Calculator.evaluate e w).1 = Calculator.report result.
Proof.
  unfold Calculator.evaluate. rewrite bind_run, popen_run.
  destruct (p_pipe _); [|done].
  destruct (Calculator.read_output _ _ _ _ _) as [err|result] eqn:Hr.
  - cbn [mret M_ret fst]. intros Hs.
    exfalso. revert Hr Hs. generalize 0%nat at 1. generalize "" at 1.
    generalize (p_reads (w_popen w (Calculator.command_line (Calculator.limit e)))).
    intros reads. induction reads as [|chunk reads IH]; intros acc i;
      cbn [Calculator.read_output].
    + destruct (_ >? _); [by intros [= <-]|done].
    + destruct (_ >? _); [by intros [= <-]|].
      destruct (_ <? _)%nat; [by intros [= <-]|].
      destruct (feof _ reads); [done|apply IH].
  - intros _. exists result. split; [|done].
    eapply calculator_read_output_bound; [|exact Hr]. cbn; lia.
Qed.

(** X10. A calculation that succeeds gives a result that is not empty,
    has no white space at either end, is at most 1000 characters long
    and does not contain [error]. *)
Theorem calculator_result_clean (cfg : Config) (args : json) (w : World) :
  is_success (Calculator.execute cfg args w).1 = true →
  Tools.content (Calculator.execute cfg args w).1 ≠ "" ∧
  starts_with_space (Tools.content (Calculator.execute cfg args w).1) = false ∧
  ends_with_space (Tools.content (Calculator.execute cfg args w).1) = false ∧
  (String.length (Tools.content (Calculator.execute cfg args w).1) ≤ 1000)%nat ∧
  ¬ Str.contains "error" (Tools.content (Calculator.execute cfg args w).1).
Proof.
  assert (∀ e w',
            is_success (Calculator.evaluate e w').1 = true →
            Tools.content (Calculator.evaluate e w').1 ≠ "" ∧
            starts_with_space (Tools.content (Calculator.evaluate e w').1) = false ∧
            ends_with_space (Tools.content (Calculator.evaluate e w').1) = false ∧
            (String.length (Tools.content (Calculator.evaluate e w').1) ≤ 1000)%nat ∧
            ¬ Str.contains "error" (Tools.content (Calculator.evaluate e w').1))
    as Heval.
  { intros e w' Hs.
    destruct (calculator_evaluate_success e w' Hs) as (result & Hlen & Hr).
    rewrite Hr in Hs |- *.
    destruct (calculator_report_success result Hs) as (-> & Hne & Herr).
    destruct (trim_trimmed result) as [Hstart Hend].
    pose proof (length_trim result). repeat split; try done. lia. }
  unfold Calculator.execute. destruct (_ || _); [done|].
  destruct (negb _); [|apply Heval].
  destruct (Calculator.is_expression_safe _); [|apply Heval].
  rewrite bind_run, confirm_dialog_run.
  destruct (negb _); [done|apply Heval].
Qed.

Lemma calculator_result_clean_witness :
  Tools.content
    (Calculator.execute cfg_auto (JObj [("expression", JStr "2+2")])
       (printing [" 4" +:+ String Str.newline ""] (λ _, 10))).1 ≠ "".
Proof.
  apply (calculator_result_clean cfg_auto (JObj [("expression", JStr "2+2")])
           (printing [" 4" +:+ String Str.newline ""] (λ _, 10))).
  vm_compute. reflexivity.
Defined.

(** ** Confirmation and refusal *)

Lemma refused_no_effect (m : M ToolResult) (w : World) :
  refused m w →
  is_success (m w).1 = false ∧ no_side_effect (events m w) ∧
  w_files (m w).2 = w_files w ∧ w_dirs (m w).2 = w_dirs w.
Proof.
  intros [[msg Hw]|(msg & e & He & Hw)].
  - rewrite (events_none m w) by (by rewrite Hw). by rewrite Hw.
  - rewrite (events_after m w (tail (w_keys w)) [e]) by (by rewrite Hw).
    rewrite Hw. split; [done|]. split; [|done].
    unfold no_side_effect. cbn [forallb]. by destruct e.
Qed.

Lemma refused_ret (msg : string) (w : World) : refused (mret (error msg)) w.
Proof. left. by exists msg. Qed.

Lemma refused_dialog (type : ConfirmType) (title message details tip msg : string)
    (k : M ToolResult) (w : World) :
  answer w 0 = false →
  refused (confirmed ← confirm_dialog type title message details tip;
           if negb confirmed then mret (error msg) else k) w.
Proof.
  intros Hdeny. right. exists msg, (EConfirm type title message details tip).
  split; [done|]. by rewrite bind_run, confirm_dialog_run, Hdeny.
Qed.

(** X11. With the auto-confirm flag of the tool off and an operator who
    does not press Enter, an execution of Shell, Bash, FileWrite or
    FileEdit returns an error and has no side effect, whatever the
    input: no subprocess, no directory, no file written. *)
Theorem no_enter_no_effect (tool : ConfirmingTool) (cfg : Config)
    (args : json) (w : World) :
  tool ≠ Gated Calculator →
  auto_confirm_flag tool cfg = false →
  answer w 0 = false →
  is_success (run tool cfg args w).1 = false ∧
  no_side_effect (events (run tool cfg args) w) ∧
  w_files (run tool cfg args w).2 = w_files w ∧
  w_dirs (run tool cfg args w).2 = w_dirs w.
Proof.
  intros Htool Ha Hdeny. apply refused_no_effect.
  destruct tool as [[| |]| |]; try done;
    cbn [run Gate.execute auto_confirm_flag auto_confirm] in *.
  - unfold Shell.execute, Shell.confirm_and_run. rewrite Ha. cbn [negb].
    destruct (_ || _); [apply refused_ret|]. destruct (negb _);
      [destruct (Shell.is_command_safe _)|]; by apply refused_dialog.
  - unfold Bash.execute, Bash.confirm_and_run. rewrite Ha. cbn [negb].
    destruct (_ || _); [apply refused_ret|]. destruct (negb _);
      [destruct (Bash.is_command_safe _)|]; by apply refused_dialog.
  - unfold FileWrite.execute. rewrite Ha. cbn [negb].
    repeat (destruct (_ || _); [apply refused_ret|]).
    destruct (found _); [apply refused_ret|]. by apply refused_dialog.
  - unfold FileEdit.execute. rewrite Ha. cbn [negb].
    destruct (_ || _); [apply refused_ret|].
    destruct (found _); [apply refused_ret|].
    set (file_path := string_of (at_key args "path")).
    destruct (bool_decide (is_Some (w_files w !! file_path))
              || bool_decide (file_path ∈ w_dirs w)) eqn:Hthere.
    2: { left. eexists. rewrite bind_run. unfold exists_.
         by rewrite Hthere. }
    destruct (read_file file_path w) as [opened w'] eqn:Hread.
    assert (w' = w) as -> by (unfold read_file in Hread; congruence).
    assert (∀ k, (there ← exists_ file_path;
                  if negb there
                  then mret (error ("File does not exist: " +:+ file_path))
                  else opened ← read_file file_path; k opened) w
                 = k opened w) as Hstep.
    { intros k. rewrite bind_run. unfold exists_. rewrite Hthere.
      cbn [negb]. by rewrite bind_run, Hread. }
    unfold refused. rewrite Hstep.
    destruct opened as [content|]; [|apply refused_ret].
    destruct (FileEdit.select_operation args);
      first [apply refused_ret | by apply refused_dialog].
Qed.

Lemma no_enter_no_effect_witness :
  is_success (Gate.run (Gated Shell) cfg_ask shell_ls (world [escape])).1 = false ∧
  no_side_effect (events (Gate.run (Gated Shell) cfg_ask shell_ls) (world [escape])) ∧
  is_success (Gate.run FileWriteTool cfg_ask write_notes (world [])).1 = false ∧
  w_files (Gate.run FileWriteTool cfg_ask write_notes (world [])).2
    = w_files (world []).
Proof.
  destruct (no_enter_no_effect (Gated Shell) cfg_ask shell_ls (world [escape]))
    as (Hr & He & _); [discriminate|reflexivity|reflexivity|].
  destruct (no_enter_no_effect FileWriteTool cfg_ask write_notes (world []))
    as (Hr' & _ & Hf & _); [discriminate|reflexivity|reflexivity|].
  by repeat split.
Defined.

(** X12. With the safety check of the tool ignored and auto-confirm set,
    no input makes Calculator, Shell or Bash invoke the gate, not even
    one that matches the blocklist. *)
Theorem unchecked_never_gates (tool : GatedTool) (cfg : Config)
    (args : json) (w : World) :
  ignore_safety tool cfg = true → auto_confirm tool cfg = true →
  gate_count (events (Gate.execute tool cfg args) w) = 0%nat.
Proof.
  intros Hi Ha. apply silent_gate_count.
  destruct tool; cbn [Gate.execute ignore_safety auto_confirm] in *.
  - unfold Calculator.execute. rewrite Hi. cbn [negb].
    destruct (_ || _); [apply silent_ret|apply silent_calculator_evaluate].
  - unfold Shell.execute, Shell.confirm_and_run. rewrite Hi, Ha. cbn [negb].
    destruct (_ || _); [apply silent_ret|apply silent_shell_run].
  - unfold Bash.execute, Bash.confirm_and_run. rewrite Hi, Ha. cbn [negb].
    destruct (_ || _); [apply silent_ret|apply silent_bash_run].
Qed.

Lemma unchecked_never_gates_witness :
  blocklist_hit Shell shell_rm ∧
  gate_count (events (Gate.execute Shell cfg_unsafe shell_rm) (world [])) = 0%nat.
Proof.
  split; [apply hit_shell_rm|].
  apply unchecked_never_gates; reflexivity.
Defined.

Lemma shell_runs_ls : shell_runs cfg_auto shell_ls.
Proof.
  split; [reflexivity|]. split; [reflexivity|]. right.
  intros Hm. apply first_blocked_hit in Hm as [b Hb].
  vm_compute in Hb. discriminate.
Qed.

Lemma shell_returns_whole_output_witness :
  (Shell.execute cfg_auto shell_ls
     (printing ["notes.txt" +:+ String Str.newline ""; "build"] (λ _, 40))).1
  = success ("notes.txt" +:+ String Str.newline "build").
Proof.
  apply (shell_returns_whole_output cfg_auto shell_ls
           (printing ["notes.txt" +:+ String Str.newline ""; "build"] (λ _, 40))
           shell_runs_ls).
  - reflexivity.
  - intros k. vm_compute. discriminate.
  - vm_compute. lia.
Defined.

Lemma shell_times_out_witness :
  (Shell.execute cfg_auto shell_ls
     (printing ["a"; "b"; "c"] (λ k, 3000 * Z.of_nat k))).1
  = error "Command execution timed out after 5 seconds".
Proof.
  apply (shell_times_out cfg_auto shell_ls
           (printing ["a"; "b"; "c"] (λ k, 3000 * Z.of_nat k)) 2
           shell_runs_ls).
  - reflexivity.
  - left. vm_compute. lia.
  - vm_compute. reflexivity.
  - vm_compute. lia.
Defined.

(** No pass of the read loop follows a read that met the end of the
    output: a command whose output has no final line feed, and which is
    past its time limit right after it, has run to its end. *)
Example shell_end_of_output_before_clock :
  (Shell.execute cfg_auto
     (JObj [("command", JStr "ls -l"); ("timeout", JNum 1)])
     {| w_keys := []; w_files := ∅; w_dirs := ∅; w_creatable := λ _, true;
        w_popen := λ _, {| p_pipe := true; p_reads := ["x"]; p_eof := true;
                           p_elapsed := λ k, 2000 * Z.of_nat k; p_exit := 0 |};
        w_trace := [] |}).1
  = success "x".
Proof. vm_compute. reflexivity. Qed.

(** ** The file tools *)

Lemma write_file_cases (path data : string) (w : World) :
  write_file path data w = (false, w) ∨
  ∃ w', write_file path data w = (true, w') ∧
        w_files w' = <[path := written (w_files w !! path) data]> (w_files w) ∧
        w_dirs w' = w_dirs w.
Proof.
  unfold write_file, get_world. rewrite bind_run.
  destruct (can_open_for_writing path w); [right|by left].
  unfold log, put_file. rewrite !bind_run.
  cbn [w_keys w_files w_dirs w_creatable w_popen w_trace].
  eexists. split; [reflexivity|]. cbn [w_files w_dirs]. split; [|done].
  unfold written. by destruct (w_files w !! path).
Qed.

Lemma touches_only_ret {A} (path : string) (a : A) :
  touches_only path (mret a : M A).
Proof. by intros w other _. Qed.

Lemma touches_only_bind {A B} (path : string) (m : M A) (k : A → M B) :
  touches_only path m → (∀ a, touches_only path (k a)) →
  touches_only path (m ≫= k).
Proof.
  intros Hm Hk w other Ho. rewrite bind_run.
  specialize (Hm w other Ho). destruct (m w) as [a w1].
  cbn [snd] in Hm. by rewrite (Hk a w1 other Ho).
Qed.

Lemma touches_only_state {A} (path : string) (m : M A) :
  (∀ w, w_files (m w).2 = w_files w) → touches_only path m.
Proof. intros Hm w other _. by rewrite Hm. Qed.

Lemma touches_only_dialog (path : string) (type : ConfirmType)
    (title message details tip : string) :
  touches_only path (confirm_dialog type title message details tip).
Proof. apply touches_only_state. intros w. by rewrite confirm_dialog_run. Qed.

Lemma touches_only_write_file (path data : string) :
  touches_only path (write_file path data).
Proof.
  intros w other Ho.
  destruct (write_file_cases path data w) as [->|(w' & -> & Hf & _)]; [done|].
  cbn [snd]. rewrite Hf. by apply lookup_insert_ne.
Qed.

Lemma touches_only_write (file_path content : string) :
  touches_only file_path (FileWrite.write file_path content).
Proof.
  unfold FileWrite.write.
  apply touches_only_bind; [by apply touches_only_state|]. intros there.
  apply touches_only_bind.
  { destruct (_ && _); [|apply touches_only_ret].
    by apply touches_only_state. }
  intros _. apply touches_only_bind; [apply touches_only_write_file|].
  intros opened. destruct (negb opened); apply touches_only_ret.
Qed.

Lemma touches_only_edit (op : FileEdit.EditOp) (args : json)
    (file_path content : string) :
  touches_only file_path (FileEdit.edit op args file_path content).
Proof.
  unfold FileEdit.edit.
  destruct (FileEdit.apply_edit _ _ _); [apply touches_only_ret|].
  apply touches_only_bind; [apply touches_only_write_file|].
  intros []; apply touches_only_ret.
Qed.

(** X13. FileWrite and FileEdit change no file but the one at the path
    they are given, whatever the configuration, the arguments and the
    answers of the operator. *)
Theorem file_tools_touch_one_file (cfg : Config) (args : json) (w : World)
    (other : string) :
  other ≠ path_of args →
  w_files (FileWrite.execute cfg args w).2 !! other = w_files w !! other ∧
  w_files (FileEdit.execute cfg args w).2 !! other = w_files w !! other.
Proof.
  intros Ho. split; revert w other Ho.
  - change (touches_only (path_of args) (FileWrite.execute cfg args)).
    unfold FileWrite.execute, path_of.
    repeat (destruct (_ || _); [apply touches_only_ret|]).
    destruct (found _); [apply touches_only_ret|].
    destruct (negb _); [|apply touches_only_write].
    apply touches_only_bind; [apply touches_only_dialog|].
    intros confirmed. destruct (negb confirmed);
      [apply touches_only_ret|apply touches_only_write].
  - change (touches_only (path_of args) (FileEdit.execute cfg args)).
    unfold FileEdit.execute, path_of.
    destruct (_ || _); [apply touches_only_ret|].
    destruct (found _); [apply touches_only_ret|].
    apply touches_only_bind; [by apply touches_only_state|]. intros there.
    destruct (negb there); [apply touches_only_ret|].
    apply touches_only_bind; [by apply touches_only_state|].
    intros [content|]; [|apply touches_only_ret].
    destruct (FileEdit.select_operation args) eqn:Hop;
      try apply touches_only_ret;
      (destruct (negb _); [|apply touches_only_edit];
       apply touches_only_bind; [apply touches_only_dialog|];
       intros confirmed; destruct (negb confirmed);
       [apply touches_only_ret|apply touches_only_edit]).
Qed.

Lemma file_tools_touch_one_file_witness :
  w_files (FileWrite.execute cfg_auto write_notes (world [])).2 !! "other.txt"
    = w_files (world []) !! "other.txt" ∧
  w_files (FileEdit.execute cfg_auto write_notes (world [])).2 !! "other.txt"
    = w_files (world []) !! "other.txt".
Proof.
  apply (file_tools_touch_one_file cfg_auto write_notes (world []) "other.txt").
  vm_compute. discriminate.
Defined.

(** X14. FileRead leaves the world as it is: no dialog, no event, no
    file or directory changed, whatever it returns. *)
Theorem file_read_leaves_world (args : json) (w : World) :
  (FileRead.execute args w).2 = w.
Proof.
  unfold FileRead.execute.
  destruct (_ || _); [done|]. destruct (found _); [done|].
  rewrite bind_run. unfold exists_ at 1. destruct (negb _); [done|].
  rewrite bind_run. unfold FileRead.is_regular_file at 1.
  destruct (negb _); [done|].
  rewrite bind_run. unfold read_file at 1.
  by destruct (match w_files w !! _ with Some _ => _ | None => _ end).
Qed.

Lemma file_read_run (args : json) (w : World) (f : File) :
  has_string args "path" = true →
  found (Str.find ".." (path_of args)) = false →
  w_files w !! path_of args = Some f → f_readable f = true →
  (FileRead.execute args w).1 = success (FileRead.truncate (f_data f)).
Proof.
  intros Hp Hd Hf Hr. unfold FileRead.execute. fold (path_of args).
  apply andb_prop in Hp as [-> ->]. cbn [negb orb]. rewrite Hd.
  rewrite bind_run, (exists_run _ f) by done. cbn [negb].
  rewrite bind_run. unfold FileRead.is_regular_file at 1. rewrite Hf.
  rewrite bool_decide_eq_true_2 by by eexists. cbn [negb].
  by rewrite bind_run, (read_file_run _ f), Hr by done.
Qed.

Lemma file_read_success_inv (args : json) (w : World) :
  is_success (FileRead.execute args w).1 = true →
  has_string args "path" = true ∧
  found (Str.find ".." (path_of args)) = false ∧
  ∃ f, w_files w !! path_of args = Some f ∧ f_readable f = true.
Proof.
  unfold FileRead.execute, has_string. fold (path_of args).
  destruct (contains args "path"); [|done].
  destruct (is_string (at_key args "path")); [|done]. cbn [negb orb andb].
  destruct (found _); [done|].
  rewrite bind_run. unfold exists_ at 1. destruct (negb _); [done|].
  rewrite bind_run. unfold FileRead.is_regular_file at 1.
  destruct (w_files w !! path_of args) as [f|] eqn:Hf.
  2:{ by rewrite bool_decide_eq_false_2 by (by intros [? ?]). }
  rewrite bool_decide_eq_true_2 by eauto. cbn [negb].
  rewrite bind_run. unfold read_file at 1. rewrite Hf.
  destruct (f_readable f) eqn:Hr; [|done]. intros _.
  split; [done|]. split; [done|]. by exists f.
Qed.

(** X15. What FileRead returns as a success is the data of the file at
    the path, whole when it has at most 50000 characters and else its
    first 50000 characters followed by the marker; it is never longer
    than 50040 characters. *)
Theorem file_read_success (args : json) (w : World) :
  is_success (FileRead.execute args w).1 = true →
  ∃ f, w_files w !! path_of args = Some f ∧
       f_readable f = true ∧
       (Z.of_nat (String.length (f_data f)) ≤ 50000 →
        Tools.content (FileRead.execute args w).1 = f_data f) ∧
       (50000 < Z.of_nat (String.length (f_data f)) →
        Tools.content (FileRead.execute args w).1 =
          Str.take (Z.to_nat 50000) (f_data f)
          +:+ String "010" "... (content truncated, file too large)") ∧
       Z.of_nat (String.length (Tools.content (FileRead.execute args w).1))
         ≤ 50040.
Proof.
  intros Hs. destruct (file_read_success_inv args w Hs) as (Hp & Hd & f & Hf & Hr).
  exists f. rewrite (file_read_run args w f) by done.
  cbn [Tools.content success]. split; [done|]. split; [done|].
  unfold FileRead.truncate, FileRead.max_size.
  destruct (Z.gtb_spec (Z.of_nat (String.length (f_data f))) 50000) as [Hl|Hl].
  - split; [intros; lia|]. split; [done|].
    rewrite length_app_str.
    pose proof (length_take (Z.to_nat 50000) (f_data f)).
    change (String.length (String "010" "... (content truncated, file too large)"))
      with 40%nat. lia.
  - split; [done|]. split; [intros; lia|]. lia.
Qed.

Lemma file_read_success_witness :
  ∃ f, w_files (world []) !! path_of read_notes = Some f ∧
       Tools.content (FileRead.execute read_notes (world [])).1 = f_data f.
Proof.
  destruct (file_read_success read_notes (world []))
    as (f & Hf & _ & Hshort & _ & _); [reflexivity|].
  exists f. split; [done|]. apply Hshort.
  vm_compute in Hf. injection Hf as <-. vm_compute. discriminate.
Defined.

Lemma file_write_write_success (file_path content : string) (w w' : World)
    (r : ToolResult) :
  FileWrite.write file_path content w = (r, w') → is_success r = true →
  w_files w' = <[file_path := written (w_files w !! file_path) content]> (w_files w).
Proof.
  unfold FileWrite.write. rewrite bind_run. unfold exists_ at 1.
  rewrite bind_run.
  set (prepare := if _ && _ then _ else _).
  assert (w_files (prepare w).2 = w_files w) as Hfiles.
  { subst prepare. by destruct (_ && _). }
  destruct (prepare w) as [[] w1]. cbn [snd] in Hfiles.
  rewrite bind_run.
  destruct (write_file_cases file_path content w1) as [->|(w2 & -> & Hf & _)].
  - cbn [negb]. by intros [= <- _].
  - cbn [negb]. intros [= _ <-] _. by rewrite Hf, Hfiles.
Qed.

Lemma file_write_success_inv (cfg : Config) (args : json) (w : World) :
  is_success (FileWrite.execute cfg args w).1 = true →
  has_string args "path" = true ∧ has_string args "content" = true ∧
  found (Str.find ".." (path_of args)) = false ∧
  w_files (FileWrite.execute cfg args w).2 =
    <[path_of args := written (w_files w !! path_of args)
                              (string_of (at_key args "content"))]> (w_files w).
Proof.
  destruct (FileWrite.execute cfg args w) as [r w'] eqn:Hrun. cbn [fst snd].
  revert Hrun. unfold FileWrite.execute, has_string. fold (path_of args).
  destruct (contains args "path"); [|by intros [= <- _]].
  destruct (is_string (at_key args "path")); [|by intros [= <- _]].
  destruct (contains args "content"); [|by intros [= <- _]].
  destruct (is_string (at_key args "content")); [|by intros [= <- _]].
  cbn [negb orb andb]. destruct (found _); [by intros [= <- _]|].
  destruct (negb _).
  - rewrite bind_run, confirm_dialog_run.
    destruct (answer w 0); cbn [negb]; [|by intros [= <- _]].
    intros Hrun Hs.
    by rewrite (file_write_write_success _ _ _ _ _ Hrun Hs).
  - intros Hrun Hs.
    by rewrite (file_write_write_success _ _ _ _ _ Hrun Hs).
Qed.

(** X16. A write followed by a read: when FileWrite succeeds on a path
    whose file, if there was one, could be read, FileRead on that path
    in the world it leaves returns the content that was written (cut at
    the size limit), and the file holds exactly that content. *)
Theorem file_write_then_read (cfg : Config) (args : json) (w : World) :
  is_success (FileWrite.execute cfg args w).1 = true →
  (∀ f, w_files w !! path_of args = Some f → f_readable f = true) →
  file_data (FileWrite.execute cfg args w).2 (path_of args)
    = Some (string_of (at_key args "content")) ∧
  (FileRead.execute (read_request (path_of args))
     (FileWrite.execute cfg args w).2).1
    = success (FileRead.truncate (string_of (at_key args "content"))).
Proof.
  intros Hs Hread.
  destruct (file_write_success_inv cfg args w Hs) as (Hp & _ & Hd & Hf).
  assert (w_files (FileWrite.execute cfg args w).2 !! path_of args =
          Some (written (w_files w !! path_of args)
                        (string_of (at_key args "content")))) as Hl.
  { rewrite Hf. apply lookup_insert_eq. }
  split.
  - unfold file_data. by rewrite Hl.
  - apply (file_read_run (read_request (path_of args)) _ _ eq_refl Hd Hl).
    unfold written. cbn [f_readable].
    destruct (w_files w !! path_of args) as [f|] eqn:Hw; [|done].
    by apply Hread.
Qed.

Lemma file_write_then_read_witness :
  (FileRead.execute read_notes
     (FileWrite.execute cfg_ask write_notes (world [enter])).2).1
    = success "d".
Proof.
  apply (file_write_then_read cfg_ask write_notes (world [enter])).
  - reflexivity.
  - intros f Hf. vm_compute in Hf. by injection Hf as <-.
Defined.

(** X17. A path that contains [..] is refused by the three file tools:
    each returns an error and leaves the world as it is, so that nothing
    is read, asked or written. *)
Theorem dotdot_path_refused (cfg : Config) (args : json) (w : World) :
  Str.contains ".." (path_of args) →
  (is_success (FileRead.execute args w).1 = false ∧
   (FileRead.execute args w).2 = w) ∧
  (is_success (FileWrite.execute cfg args w).1 = false ∧
   (FileWrite.execute cfg args w).2 = w) ∧
  (is_success (FileEdit.execute cfg args w).1 = false ∧
   (FileEdit.execute cfg args w).2 = w).
Proof.
  intros Hd. apply find_found in Hd.
  unfold FileRead.execute, FileWrite.execute, FileEdit.execute.
  fold (path_of args). rewrite Hd.
  repeat split; repeat (destruct (_ || _); [done|]); done.
Qed.

Lemma dotdot_path_refused_witness :
  is_success (FileWrite.execute cfg_auto
                (JObj [("path", JStr "../etc/passwd"); ("content", JStr "x")])
                (world [])).1 = false.
Proof.
  apply (dotdot_path_refused cfg_auto
           (JObj [("path", JStr "../etc/passwd"); ("content", JStr "x")])
           (world [])).
  by exists "", "/etc/passwd".
Defined.

Lemma write_file_directory (path data : string) (w : World) :
  w_files w !! path = None → path ∈ w_dirs w →
  write_file path data w = (false, w).
Proof.
  intros Hf Hd. unfold write_file, get_world. rewrite bind_run.
  unfold can_open_for_writing. rewrite Hf.
  rewrite (bool_decide_eq_true_2 _ Hd). by rewrite andb_false_r.
Qed.

Lemma file_edit_edit_directory (op : FileEdit.EditOp) (args : json)
    (path content : string) (w : World) :
  w_files w !! path = None → path ∈ w_dirs w →
  ∃ msg, FileEdit.edit op args path content w = (error msg, w).
Proof.
  intros Hf Hd. unfold FileEdit.edit.
  destruct (FileEdit.apply_edit op args content) as [e|content'] eqn:Ha.
  - destruct op; cbn [FileEdit.apply_edit] in Ha; try discriminate.
    + destruct (Str.find _ content); [discriminate|].
      injection Ha as <-. by eexists.
    + injection Ha as <-. by eexists.
  - rewrite bind_run, write_file_directory by done. by eexists.
Qed.

(** X18. FileEdit never creates a file: on a path at which there is no
    file it returns an error without any side effect, whatever the
    operation asked for: no file and no directory is changed. Where the
    path is no directory either, nothing exists there and the world is
    left as it is; on a directory the stream opens, the operator may be
    asked, and the write fails. *)
Theorem file_edit_needs_file (cfg : Config) (args : json) (w : World) :
  w_files w !! path_of args = None →
  is_success (FileEdit.execute cfg args w).1 = false ∧
  no_side_effect (events (FileEdit.execute cfg args) w) ∧
  w_files (FileEdit.execute cfg args w).2 = w_files w ∧
  w_dirs (FileEdit.execute cfg args w).2 = w_dirs w ∧
  (path_of args ∉ w_dirs w → (FileEdit.execute cfg args w).2 = w).
Proof.
  intros Hf.
  assert (refused (FileEdit.execute cfg args) w ∧
          (path_of args ∉ w_dirs w → (FileEdit.execute cfg args w).2 = w))
    as [Hr Hw].
  2:{ destruct (refused_no_effect _ _ Hr) as (? & ? & ? & ?). by repeat split. }
  unfold refused, FileEdit.execute. fold (path_of args).
  destruct (_ || _); [split; [left; by eexists|done]|].
  destruct (found _); [split; [left; by eexists|done]|].
  rewrite bind_run. unfold exists_. rewrite Hf.
  rewrite bool_decide_eq_false_2 by (by intros [? ?]). cbn [orb].
  destruct (decide (path_of args ∈ w_dirs w)) as [Hd|Hd].
  2:{ rewrite (bool_decide_eq_false_2 _ Hd). cbn [negb].
      split; [left; by eexists|done]. }
  rewrite (bool_decide_eq_true_2 _ Hd). cbn [negb]. split; [|done].
  rewrite bind_run. unfold read_file. rewrite Hf.
  rewrite (bool_decide_eq_true_2 _ Hd).
  assert (∀ op, FileEdit.select_operation args = op →
            op ≠ FileEdit.UNKNOWN →
            (∃ msg,
               (if negb (is_auto_confirm_file_ops cfg)
                then
                  confirmed ← confirm_dialog FILE_OPERATION
                    "The AI is requesting to edit the file:"
                    (path_of args) (FileEdit.details op args) "";
                  if negb confirmed
                  then mret (error "File edit operation denied by user")
                  else FileEdit.edit op args (path_of args) ""
                else FileEdit.edit op args (path_of args) "") w
               = (error msg, w)) ∨
            (∃ msg e, is_confirm e = true ∧
               (if negb (is_auto_confirm_file_ops cfg)
                then
                  confirmed ← confirm_dialog FILE_OPERATION
                    "The AI is requesting to edit the file:"
                    (path_of args) (FileEdit.details op args) "";
                  if negb confirmed
                  then mret (error "File edit operation denied by user")
                  else FileEdit.edit op args (path_of args) ""
                else FileEdit.edit op args (path_of args) "") w
               = (error msg, after w (tail (w_keys w)) [e]))) as Hop.
  { intros op _ _. destruct (negb _).
    - right. rewrite bind_run, confirm_dialog_run.
      destruct (answer w 0); cbn [negb].
      + destruct (file_edit_edit_directory op args (path_of args) ""
                    (after w (tail (w_keys w))
                       [EConfirm FILE_OPERATION
                          "The AI is requesting to edit the file:"
                          (path_of args) (FileEdit.details op args) ""]))
          as [msg Hm]; [done..|].
        rewrite Hm. eexists _, _. split; [|reflexivity]. reflexivity.
      + eexists _, _. split; [|reflexivity]. reflexivity.
    - left. by apply file_edit_edit_directory. }
  destruct (FileEdit.select_operation args) eqn:Hsel;
    first [by left; eexists | by apply Hop].
Qed.

Lemma file_edit_needs_file_witness :
  (is_success (FileEdit.execute cfg_auto (append_to "new.txt") (world [])).1
     = false ∧
   (FileEdit.execute cfg_auto (append_to "new.txt") (world [])).2 = world []) ∧
  (is_success (FileEdit.execute cfg_ask (append_to "docs") with_directory).1
     = false ∧
   no_side_effect (events (FileEdit.execute cfg_ask (append_to "docs"))
                     with_directory) ∧
   gate_count (events (FileEdit.execute cfg_ask (append_to "docs"))
                 with_directory) = 1%nat).
Proof.
  split.
  - destruct (file_edit_needs_file cfg_auto (append_to "new.txt") (world []))
      as (Hs & _ & _ & _ & Hw); [reflexivity|].
    split; [exact Hs|]. apply Hw. vm_compute. set_solver.
  - destruct (file_edit_needs_file cfg_ask (append_to "docs") with_directory)
      as (Hs & He & _); [reflexivity|].
    split; [exact Hs|]. split; [exact He|]. vm_compute. reflexivity.
Defined.

(** ** The edits of FileEdit *)

Lemma take_app_length (pre rest : string) :
  Str.take (String.length pre) (pre +:+ rest) = pre.
Proof.
  unfold Str.take. induction pre as [|c pre IH]; str_simpl.
  - by destruct rest.
  - cbn [String.length String.substring]. by rewrite IH.
Qed.

Lemma drop_app_length_str (pre rest : string) :
  Str.drop (String.length pre) (pre +:+ rest) = rest.
Proof. induction pre as [|c pre IH]; str_simpl; [done|]. apply IH. Qed.

(** [find] gives the first place at which the text occurs. *)
Lemma find_first (t s : string) (pos : nat) :
  Str.find t s = Some pos →
  ∃ pre post, s = pre +:+ t +:+ post ∧ String.length pre = pos ∧
              ∀ pre' post', s = pre' +:+ t +:+ post' →
                            (pos ≤ String.length pre')%nat.
Proof.
  unfold Str.find. revert pos. induction s as [|b s IH]; intros pos.
  - destruct t as [|a t]; cbn [String.index]; [|done]. intros [= <-].
    exists "", "". repeat split. intros; lia.
  - cbn [String.index].
    destruct (String.prefix t (String b s)) eqn:Hp.
    + intros [= <-]. apply prefix_app in Hp as [post Hp].
      exists "", post. repeat split; [done|]. intros; lia.
    + destruct (String.index 0 t s) as [n|] eqn:Hn; [|done].
      intros [= <-]. destruct (IH n eq_refl) as (pre & post & -> & Hl & Hmin).
      exists (String b pre), post. split; [done|].
      split; [cbn [String.length]; by rewrite Hl|].
      intros [|c pre'] post' Heq.
      * assert (String.prefix t (String b (pre +:+ t +:+ post)) = true) as Hp'.
        { apply prefix_app. by exists post'. }
        congruence.
      * injection Heq as _ Heq. cbn [String.length].
        specialize (Hmin pre' post' Heq). lia.
Qed.

(** X19. The find-and-replace edit replaces the first occurrence of the
    old text and nothing else: the content is cut at the first place at
    which the old text occurs, and the new content is what comes before
    it, the new text, and what comes after it. *)
Theorem replace_text_first_occurrence (args : json) (content content' : string) :
  FileEdit.apply_edit FileEdit.REPLACE_TEXT args content = inr content' →
  ∃ pre post,
    content = pre +:+ string_of (at_key args "old_text") +:+ post ∧
    content' = pre +:+ string_of (at_key args "new_text") +:+ post ∧
    ∀ pre' post',
      content = pre' +:+ string_of (at_key args "old_text") +:+ post' →
      (String.length pre ≤ String.length pre')%nat.
Proof.
  cbn [FileEdit.apply_edit].
  destruct (Str.find _ content) as [pos|] eqn:Hfind; [|done].
  intros [= <-].
  destruct (find_first _ _ _ Hfind) as (pre & post & -> & <- & Hmin).
  exists pre, post. split; [done|]. split; [|done].
  unfold FileEdit.replace. rewrite take_app_length.
  rewrite <- length_app_str, <- (app_assoc_str pre _ post).
  by rewrite drop_app_length_str.
Qed.

Lemma replace_text_first_occurrence_witness :
  ∃ pre post,
    "a-b-c" = pre +:+ "-" +:+ post ∧ "a+b-c" = pre +:+ "+" +:+ post.
Proof.
  destruct (replace_text_first_occurrence
              (JObj [("old_text", JStr "-"); ("new_text", JStr "+")])
              "a-b-c" "a+b-c" eq_refl) as (pre & post & H1 & H2 & _).
  by exists pre, post.
Defined.

Lemma getlines_nil (s line : string) :
  FileEdit.getlines line s = [] → line = "" ∧ s = "".
Proof.
  revert line. induction s as [|c s IH]; intros line; cbn [FileEdit.getlines].
  - by destruct line.
  - destruct (Ascii.eqb c Str.newline); [done|].
    intros Hn. apply IH in Hn as [Hl _]. by destruct line.
Qed.

Lemma getlines_join (s line : string) :
  FileEdit.join_lines (FileEdit.getlines line s) = line +:+ s ∨
  FileEdit.join_lines (FileEdit.getlines line s) +:+ String Str.newline ""
    = line +:+ s.
Proof.
  revert line. induction s as [|c s IH]; intros line; cbn [FileEdit.getlines].
  - left. rewrite app_empty_r. by destruct line.
  - destruct (Ascii.eqb_spec c Str.newline) as [->|Hc].
    + destruct (FileEdit.getlines "" s) as [|l rest] eqn:Hl.
      * apply getlines_nil in Hl as [_ ->]. by right.
      * change (FileEdit.join_lines (line :: l :: rest))
          with (line +:+ String Str.newline (FileEdit.join_lines (l :: rest))).
        destruct (IH "") as [Hj|Hj]; rewrite Hl in Hj; rewrite ?app_cons_str, ?app_nil_l_str in Hj.
        -- left. by rewrite Hj.
        -- right. rewrite app_assoc_str. str_simpl. by rewrite Hj.
    + destruct (IH (line +:+ String c "")) as [Hj|Hj];
        rewrite app_snoc in Hj; tauto.
Qed.

Lemma mem_char_app (c : ascii) (a b : string) :
  Str.mem_char c (a +:+ b) = Str.mem_char c a || Str.mem_char c b.
Proof.
  induction a as [|x a IH]; str_simpl; cbn [Str.mem_char]; [done|].
  by destruct (Ascii.eqb c x).
Qed.

Lemma getlines_no_line_feed (s line : string) :
  Str.mem_char Str.newline line = false →
  Forall (λ l, Str.mem_char Str.newline l = false) (FileEdit.getlines line s).
Proof.
  revert line. induction s as [|c s IH]; intros line Hl; cbn [FileEdit.getlines].
  - destruct (Str.is_empty line); [by apply Forall_nil|].
    apply Forall_cons; split; [done|by apply Forall_nil].
  - destruct (Ascii.eqb_spec c Str.newline) as [->|Hc].
    + apply Forall_cons; split; [done|by apply IH].
    + apply IH. rewrite mem_char_app, Hl. cbn [Str.mem_char orb].
      destruct (Ascii.eqb_spec Str.newline c); [congruence|done].
Qed.

Lemma app_inv_tail_str (a b c : string) : a +:+ c = b +:+ c → a = b.
Proof.
  revert b. induction a as [|x a IH]; intros [|y b]; str_simpl; intros Heq.
  - done.
  - apply (f_equal String.length) in Heq. cbn [String.length] in Heq.
    rewrite length_app_str in Heq. lia.
  - apply (f_equal String.length) in Heq. cbn [String.length] in Heq.
    rewrite length_app_str in Heq. lia.
  - injection Heq as -> Heq. by rewrite (IH b Heq).
Qed.

(** X20. Splitting a content into lines and joining them again: no line
    holds a line feed; a content that ends with a line feed comes back
    without that last line feed, and any other content comes back as it
    was. *)
Theorem lines_round_trip (content : string) :
  Forall (λ l, Str.mem_char Str.newline l = false)
         (FileEdit.getlines "" content) ∧
  (∀ body, content = body +:+ String Str.newline "" →
           FileEdit.join_lines (FileEdit.getlines "" content) = body) ∧
  ((∀ body, content ≠ body +:+ String Str.newline "") →
   FileEdit.join_lines (FileEdit.getlines "" content) = content).
Proof.
  split; [by apply getlines_no_line_feed|]. split.
  - intros body ->. apply (app_inv_tail_str _ _ (String Str.newline "")).
    rewrite join_lines_terminated.
    + by rewrite getlines_terminated.
    + intros Hn. apply getlines_nil in Hn as [_ Hn]. by destruct body.
  - intros Hend. destruct (getlines_join content "") as [Hj|Hj]; [done|].
    rewrite ?app_cons_str, ?app_nil_l_str in Hj. by destruct (Hend _ (eq_sym Hj)).
Qed.

(** ** The registry *)

Import Registry Definitions Listing.

Lemma well_keyed_empty : well_keyed ∅.
Proof. intros name tool Hl. by rewrite lookup_empty in Hl. Qed.

Lemma well_keyed_register (tool : ToolBase) (tools : ToolMap) :
  well_keyed tools → well_keyed (register_tool tool tools).
Proof.
  intros Hk name tool'. unfold register_tool.
  destruct (decide (name = get_name tool)) as [->|Hne].
  - rewrite lookup_insert_eq. by intros [= <-].
  - rewrite lookup_insert_ne by done. apply Hk.
Qed.

(** X21. Registration and look-up: a tool is found under its name once
    it is registered, and it is the one that runs, in the place of any
    tool registered under that name before; the other names are as they
    were; and the execution of a name that is not registered returns the
    error [Tool not found] with nothing done. *)
Theorem register_then_execute (tool : ToolBase) (tools : ToolMap)
    (name : string) (args : json) (w : World) :
  has_tool (register_tool tool tools) (get_name tool) = true ∧
  execute_tool (register_tool tool tools) (get_name tool) args
    = execute tool args ∧
  (name ≠ get_name tool →
   has_tool (register_tool tool tools) name = has_tool tools name ∧
   execute_tool (register_tool tool tools) name args
     = execute_tool tools name args) ∧
  (has_tool tools name = false →
   execute_tool tools name args w = (error ("Tool not found: " +:+ name), w)).
Proof.
  unfold has_tool, execute_tool, register_tool. rewrite lookup_insert_eq.
  split; [by apply bool_decide_eq_true_2|]. split; [done|]. split.
  - intros Hne. by rewrite lookup_insert_ne.
  - intros Hn. apply bool_decide_eq_false in Hn.
    destruct (tools !! name) as [t|]; [|done].
    destruct Hn. by eexists.
Qed.

Section WithTraversal.
Context `{Traversal}.

(** X22. The tool definitions handed to the model, whatever the order
    in which the registry is gone through: one for each registered tool
    and no other, and, the tools sitting under their own names, under
    names that are the names of the registry, each once. *)
Theorem definitions_listing (tools : ToolMap) :
  well_keyed tools →
  length (get_tool_definitions tools) = size tools ∧
  (∀ d, d ∈ get_tool_definitions tools ↔
        ∃ name tool, tools !! name = Some tool ∧ d = get_definition tool) ∧
  (definition_name <$> get_tool_definitions tools) ≡ₚ (map_to_list tools).*1 ∧
  NoDup (definition_name <$> get_tool_definitions tools) ∧
  (∀ name, name ∈ (definition_name <$> get_tool_definitions tools) ↔
           has_tool tools name = true).
Proof.
  intros Hk. unfold get_tool_definitions.
  pose proof (traverse_entries tools) as Hperm.
  assert (definition_name <$>
            ((λ entry, get_definition entry.2) <$> traverse tools)
          = (traverse tools).*1) as Hnames.
  { rewrite <- list_fmap_compose. apply list_fmap_ext.
    intros i [name tool] Hi. cbn. apply Hk.
    apply elem_of_map_to_list. rewrite <- Hperm.
    by eapply list_elem_of_lookup_2. }
  split; [|split; [|split; [|split]]].
  - by rewrite length_fmap, Hperm, length_map_to_list.
  - intros d. rewrite list_elem_of_fmap. split.
    + intros ([name tool] & -> & Hin). rewrite Hperm in Hin.
      apply elem_of_map_to_list in Hin. by exists name, tool.
    + intros (name & tool & Hl & ->). exists (name, tool). split; [done|].
      rewrite Hperm. by apply elem_of_map_to_list.
  - rewrite Hnames. by rewrite Hperm.
  - rewrite Hnames, Hperm. apply NoDup_fst_map_to_list.
  - intros name. rewrite Hnames, Hperm. unfold has_tool.
    rewrite bool_decide_eq_true, list_elem_of_fmap. split.
    + intros ([name' tool] & -> & Hin). apply elem_of_map_to_list in Hin.
      by exists tool.
    + intros [tool Hl]. exists (name, tool). split; [done|].
      by apply elem_of_map_to_list.
Qed.

End WithTraversal.

Lemma definitions_listing_witness :
  length (get_tool_definitions (H := ordered_map) calculator_only)
    = size calculator_only ∧
  NoDup (definition_name
           <$> get_tool_definitions (H := ordered_map) calculator_only).
Proof.
  destruct (definitions_listing (H := ordered_map) calculator_only)
    as (Hl & _ & _ & Hn & _).
  - apply well_keyed_register, well_keyed_empty.
  - by split.
Defined.

(** ** A turn of the conversation *)

Import Turn.

Lemma in_order_roles (tools : ToolMap) (w w' : World)
    (calls : list Client.ToolCall) (msgs : list Client.ChatMessage) :
  in_order tools w calls msgs w' →
  Forall (λ m, Client.role m = "tool") msgs.
Proof.
  induction 1; [by apply Forall_nil|done|].
  apply Forall_cons; by split.
Qed.

Section TurnMore.
Context `{JsonLib} `{Traversal}.
Import Client Models.

(** What [chat] returns is a message of the assistant, without a name. *)
Lemma chat_assistant (host : string) (t : Transport) (model : string)
    (messages : list ChatMessage) (tools : list Tool) (m : ChatMessage) :
  chat host t model messages tools = Ok m → role m = "assistant" ∧ name m = "".
Proof.
  unfold chat. destruct (negb _); [by intros [= <-]|].
  destruct (json_dump _); [|done].
  destruct (curl_easy_perform _ _ _) as [chunks res].
  destruct (Z.eqb res CURLE_OK); [|by intros [= <-]].
  destruct (json_parse _) as [j|e]; cbn [bind].
  2:{ destruct e; cbn [catch_parse_error]; [by intros [= <-]|done..]. }
  destruct (contains j "message"); [|by intros [= <-]].
  destruct (if contains (at_key j "message") "content" then _ else _)
    as [c|e]; cbn [bind].
  2:{ destruct e; cbn [catch_parse_error]; [by intros [= <-]|done..]. }
  destruct (parse_tool_calls _) as [tcs|e]; cbn [bind].
  2:{ destruct e; cbn [catch_parse_error]; [by intros [= <-]|done..]. }
  by intros [= <-].
Qed.

Lemma chat_definitions_assistant (host : string) (t : Transport)
    (model : string) (messages : list ChatMessage) (defs : list json)
    (m : ChatMessage) :
  chat_definitions host t model messages defs = Ok m →
  role m = "assistant" ∧ name m = "".
Proof.
  unfold chat_definitions. destruct (tools_of_definitions defs); [|done].
  apply chat_assistant.
Qed.

(** X23. The transcript of a turn that comes to its end: the
    conversation as it was, the message of the user, the tool messages
    of the calls the model asked for, gone through in order, and one
    final message of the assistant whose content is the text streamed
    in answer to all that comes before it. With the tools off no call
    is made: there is no tool message and the world is left as it
    was. *)
Theorem turn_transcript (cfg : Config) (host : string) (t : Transport)
    (tools : ToolMap) (model input : string)
    (conversation conversation' : list ChatMessage) (w : World) :
  (turn cfg host t tools model input conversation w).1 = Ok conversation' →
  let asked := conversation ++ [mk_message "user" input] in
  let defs := if is_tools_enabled cfg then get_tool_definitions tools else [] in
  ∃ calls msgs,
    in_order tools w calls msgs
      (turn cfg host t tools model input conversation w).2 ∧
    (if is_tools_enabled cfg
     then ∃ response, chat_definitions host t model asked defs = Ok response ∧
                      calls = tool_calls response
     else calls = []) ∧
    conversation' =
      asked ++ msgs ++
      [mk_message "assistant"
         (Str.concat (chat_stream_definitions host t model (asked ++ msgs)
                        defs).1)] ∧
    Forall (λ m, role m = "tool") msgs ∧
    (is_tools_enabled cfg = false →
     msgs = [] ∧ (turn cfg host t tools model input conversation w).2 = w).
Proof.
  destruct (turn cfg host t tools model input conversation w) as [r w']
    eqn:Hrun. cbn [fst snd]. intros ->. revert Hrun. unfold turn. cbv zeta.
  set (asked := conversation ++ [mk_message "user" input]).
  destruct (chat_stream_definitions host t model asked _)
    as [out [rest|e]] eqn:Hstream; [|by intros [= ]].
  unfold first_response. destruct (is_tools_enabled cfg) eqn:Hon.
  - destruct (chat_definitions _ _ _ _ _) as [response|e] eqn:Hchat;
      cbn [bind]; [|by intros [= ]].
    destruct (chat_definitions_assistant _ _ _ _ _ _ Hchat) as [Hrole Hname].
    destruct (tool_calls response) as [|call calls] eqn:Hcalls;
      cbn [is_nil andb negb tool_calls].
    + intros [= <- <-]. exists [], []. split; [constructor|].
      split; [by exists response|]. rewrite app_nil_r, Hstream. cbn [fst].
      split; [by rewrite Hrole, Hname|].
      split; [by apply Forall_nil|done].
    + rewrite Hcalls. cbn [is_nil andb negb]. rewrite bind_run.
      destruct (tool_round_in_order tools (call :: calls) asked w)
        as (msgs & Hc & Ho).
      destruct (tool_round tools (call :: calls) asked w) as [conv1 w1].
      cbn [fst snd] in Hc, Ho. subst conv1.
      destruct (chat_stream_definitions host t model (asked ++ msgs) _)
        as [out' [rest'|e]] eqn:Hstream'; [|by intros [= ]].
      intros [= <- <-]. exists (call :: calls), msgs. split; [done|].
      split; [by exists response|]. rewrite Hstream'. cbn [fst].
      rewrite <- (assoc_L (++)).
      split; [done|]. split; [by eapply in_order_roles|done].
  - cbn [andb]. intros [= <- <-]. exists [], []. split; [constructor|].
    split; [done|]. rewrite app_nil_r, Hstream. cbn [fst].
    split; [done|]. split; [by apply Forall_nil|done].
Qed.

End TurnMore.

Lemma turn_transcript_witness :
  (turn (H := MiniJson.lib) (H0 := ordered_map) cfg_plain "h"
     (answers [line "{'message':{'content':'hi'}}"]) ∅ "m" "hello" []
     (world [])).1
  = Ok [Client.mk_message "user" "hello"; Client.mk_message "assistant" "hi"] ∧
  (turn (H := MiniJson.lib) (H0 := ordered_map) cfg_plain "h"
     (answers [line "{'message':{'content':'hi'}}"]) ∅ "m" "hello" []
     (world [])).2 = world [] ∧
  (turn (H := MiniJson.lib) (H0 := ordered_map) cfg_auto "h"
     (answers [asks_calculator]) calculator_only "m" "2+2?" []
     (printing ["4" +:+ String Str.newline ""] (λ _, 10))).1
  = Ok [Client.mk_message "user" "2+2?";
        Client.make_tool_response "4" "calculator";
        Client.mk_message "assistant" "Let me see."] ∧
  ∃ calls msgs,
    in_order calculator_only (printing ["4" +:+ String Str.newline ""] (λ _, 10))
      calls msgs
      (turn (H := MiniJson.lib) (H0 := ordered_map) cfg_auto "h"
         (answers [asks_calculator]) calculator_only "m" "2+2?" []
         (printing ["4" +:+ String Str.newline ""] (λ _, 10))).2 ∧
    Forall (λ m, Client.role m = "tool") msgs.
Proof.
  split; [vm_compute; reflexivity|]. split; [|split; [vm_compute; reflexivity|]].
  - destruct (turn_transcript (H := MiniJson.lib) (H0 := ordered_map)
                cfg_plain "h" (answers [line "{'message':{'content':'hi'}}"])
                ∅ "m" "hello" []
                [Client.mk_message "user" "hello";
                 Client.mk_message "assistant" "hi"] (world []))
      as (calls & msgs & _ & _ & _ & _ & Hoff).
    + vm_compute. reflexivity.
    + by destruct (Hoff eq_refl).
  - destruct (turn_transcript (H := MiniJson.lib) (H0 := ordered_map)
                cfg_auto "h" (answers [asks_calculator]) calculator_only
                "m" "2+2?" []
                [Client.mk_message "user" "2+2?";
                 Client.make_tool_response "4" "calculator";
                 Client.mk_message "assistant" "Let me see."]
                (printing ["4" +:+ String Str.newline ""] (λ _, 10)))
      as (calls & msgs & Hin & _ & _ & Hroles & _).
    + vm_compute. reflexivity.
    + by exists calls, msgs.
Defined.

(** ** The system prompt *)

Lemma pop_back_snoc (s : string) (c : ascii) :
  pop_back (s +:+ String c "") = s.
Proof.
  induction s as [|x s IH]; str_simpl; [done|].
  cbn [pop_back]. rewrite IH. by destruct s.
Qed.

Lemma is_empty_snoc (s : string) (c : ascii) :
  Str.is_empty (s +:+ String c "") = false.
Proof. by destruct s. Qed.

Lemma terminated_ends (lines : list string) :
  lines ≠ [] →
  ∃ body, Protocol.terminated lines = body +:+ String Str.newline "".
Proof.
  destruct lines as [|l lines _] using rev_ind; [done|]. intros _.
  exists (Protocol.terminated lines +:+ l).
  rewrite terminated_app, terminated_cons, app_assoc_str. done.
Qed.

Lemma replace_system_some (system_prompt : string)
    (conversation conversation' : list Client.ChatMessage) :
  replace_system system_prompt conversation = Some conversation' →
  ∃ pre old post,
    conversation = pre ++ old :: post ∧
    Forall (λ m, Client.role m ≠ "system") pre ∧
    Client.role old = "system" ∧
    conversation' =
      pre ++ {| Client.role := Client.role old;
                Client.content := system_prompt;
                Client.name := Client.name old;
                Client.tool_calls := Client.tool_calls old |} :: post.
Proof.
  revert conversation'. induction conversation as [|msg rest IH];
    intros conversation'; cbn [replace_system]; [done|].
  destruct (String.eqb_spec (Client.role msg) "system") as [Hr|Hr].
  - intros [= <-]. exists [], msg, rest. split; [done|].
    split; [by apply Forall_nil|]. by split.
  - destruct (replace_system system_prompt rest) as [rest'|]; [|done].
    intros [= <-].
    destruct (IH rest' eq_refl) as (pre & old & post & -> & Hpre & Ho & ->).
    exists (msg :: pre), old, post. split; [done|].
    split; [by apply Forall_cons|]. by split.
Qed.

Lemma replace_system_none (system_prompt : string)
    (conversation : list Client.ChatMessage) :
  replace_system system_prompt conversation = None →
  Forall (λ m, Client.role m ≠ "system") conversation.
Proof.
  induction conversation as [|msg rest IH]; cbn [replace_system];
    [by intros; apply Forall_nil|].
  destruct (String.eqb_spec (Client.role msg) "system") as [Hr|Hr]; [done|].
  destruct (replace_system system_prompt rest); [done|].
  intros _. apply Forall_cons. split; [done|by apply IH].
Qed.

(** X24. Setting the system prompt: with at least one line typed, the
    prompt is the lines with a line feed between them; it becomes the
    content of the first system message of the conversation, every other
    message staying as it is, or, when there is no system message, the
    content of a new system message put before the conversation. *)
Theorem set_prompt_updates (lines : list string)
    (conversation : list Client.ChatMessage) :
  lines ≠ [] →
  ∃ pre msg post,
    set_prompt lines conversation = pre ++ msg :: post ∧
    Forall (λ m, Client.role m ≠ "system") pre ∧
    Client.role msg = "system" ∧
    Client.content msg +:+ String Str.newline "" = Protocol.terminated lines ∧
    ((∃ old, conversation = pre ++ old :: post ∧
             Client.role old = "system" ∧
             Client.name msg = Client.name old ∧
             Client.tool_calls msg = Client.tool_calls old) ∨
     (pre = [] ∧ conversation = post ∧
      msg = Client.mk_message "system" (Client.content msg) ∧
      Forall (λ m, Client.role m ≠ "system") conversation)).
Proof.
  intros Hl. unfold set_prompt. fold (Protocol.terminated lines).
  destruct (terminated_ends lines Hl) as [body Hb]. rewrite Hb.
  rewrite is_empty_snoc, pop_back_snoc.
  destruct (replace_system body conversation) as [conversation'|] eqn:Hr.
  - apply replace_system_some in Hr as (pre & old & post & -> & Hp & Ho & ->).
    eexists pre, _, post. split; [done|]. split; [done|]. split; [done|].
    split; [done|]. left. by exists old.
  - apply replace_system_none in Hr. eexists [], _, conversation.
    split; [done|]. split; [by apply Forall_nil|]. split; [done|].
    split; [done|]. by right.
Qed.

Lemma set_prompt_updates_witness :
  ∃ pre msg post,
    set_prompt ["Be brief."; "Answer in French."]
      [Client.mk_message "user" "hello"; Client.mk_message "system" "old"]
    = pre ++ msg :: post ∧
    Client.role msg = "system".
Proof.
  destruct (set_prompt_updates ["Be brief."; "Answer in French."]
              [Client.mk_message "user" "hello"; Client.mk_message "system" "old"])
    as (pre & msg & post & Hs & _ & Hr & _); [discriminate|].
  by exists pre, msg, post.
Defined.

(** ** The stored configuration *)

Import ConfigJson Untyped.

(** X25. Storing and loading: a configuration written by [to_json] and
    read back by [from_json] is the configuration that was written,
    whatever the defaults. *)
Theorem config_round_trip (default c : Stored) :
  from_json default (to_json c) = c.
Proof. destruct c as [m h []]. reflexivity. Qed.

Lemma field_defaults (j : json) (k : string) :
  no_typed_member j →
  (∀ d, string_field j k d = d) ∧ (∀ d, bool_field j k d = d).
Proof.
  intros Hj. unfold string_field, bool_field, contains, at_key.
  destruct (member k j) as [v|] eqn:Hm; [|done].
  destruct (Hj k v Hm) as [-> ->]. by rewrite !andb_false_r.
Qed.

(** X26. A stored value none of whose members is a string or a boolean
    (a value that is no object among them) changes nothing: [from_json]
    gives the defaults. *)
Theorem from_json_keeps_defaults (default : Stored) (j : json) :
  no_typed_member j → from_json default j = default.
Proof.
  intros Hj. unfold from_json.
  rewrite !(proj1 (field_defaults j _ Hj)), !(proj2 (field_defaults j _ Hj)).
  by destruct default as [m h []].
Qed.

Lemma from_json_keeps_defaults_witness :
  from_json defaults (JObj [("model", JNum 3); ("debug_mode", JNull)]) = defaults
  ∧ from_json defaults (JArr []) = defaults.
Proof.
  split; apply from_json_keeps_defaults.
  - intros k v Hm. cbn [member assoc] in Hm.
    destruct (String.eqb k "model"); [by injection Hm as <-|].
    destruct (String.eqb k "debug_mode"); [by injection Hm as <-|done].
  - by intros k v Hm.
Defined.

(** ** The bash tool *)

Lemma bash_execute_runs (cfg : Config) (args : json) (w : World) :
  bash_runs cfg args →
  Bash.execute cfg args w =
  Bash.run (Bash.command_line args) (timeout_arg args 10 1 60) w.
Proof.
  intros (Hc & Ha & Hs). apply has_string_true in Hc as [Hc1 Hc2].
  unfold Bash.execute, Bash.confirm_and_run, Bash.is_command_safe.
  rewrite Hc1, Hc2, Ha. cbn [negb orb].
  destruct Hs as [->|Hs]; [done|].
  apply first_blocked_miss in Hs. rewrite Hs. by destruct (negb _).
Qed.

Lemma bash_read_output_in_time (elapsed : nat → Z) (t : Z) (eof : bool)
    (reads : list string) (i : nat) (acc : string) :
  (∀ k, elapsed k ≤ 1000 * t) →
  is_Some (Bash.read_output elapsed t eof i reads acc).
Proof.
  intros He. revert i acc. induction reads as [|chunk reads IH];
    intros i acc; cbn [Bash.read_output].
  - destruct (Z.gtb_spec (elapsed i) (1000 * t)); [specialize (He i); lia|].
    by eexists.
  - destruct (Z.gtb_spec (elapsed i) (1000 * t)); [specialize (He i); lia|].
    destruct (_ >? _); [by eexists|].
    destruct (feof eof reads); [by eexists|apply IH].
Qed.

(** X27. A Bash command that runs unattended and stays within its time
    limit always gives a success, also when it fails: when no pipe can
    be opened the content of the success is the text of that failure, and
    when the command ends with an exit code other than 0 the content
    starts with the report of that code. *)
Theorem bash_failure_is_success (cfg : Config) (args : json) (w : World) :
  bash_runs cfg args →
  (∀ k, p_elapsed (bash_process args w) k ≤ 1000 * timeout_arg args 10 1 60) →
  is_success (Bash.execute cfg args w).1 = true ∧
  (p_pipe (bash_process args w) = false →
   Tools.content (Bash.execute cfg args w).1 = "Error: Failed to execute command") ∧
  (p_pipe (bash_process args w) = true →
   p_exit (bash_process args w) ≠ 0 →
   ∃ output,
     Tools.content (Bash.execute cfg args w).1 =
       "Command failed with exit code: "
       +:+ to_string (p_exit (bash_process args w)) +:+ String "010" output).
Proof.
  intros Hruns He. rewrite bash_execute_runs by done.
  unfold bash_process in *. unfold Bash.run, Bash.execute_command.
  rewrite !bind_run, popen_run.
  destruct (p_pipe (w_popen w _)) eqn:Hp.
  - destruct (bash_read_output_in_time _ _
                (p_eof (w_popen w (Bash.command_line args +:+ " 2>&1")))
                (p_reads (w_popen w (Bash.command_line args +:+ " 2>&1")))
                0%nat "" He) as [result Hr].
    rewrite Hr. split; [done|]. split; [done|]. intros _ Hx.
    cbn [fst Tools.content success mret]. unfold Bash.format_result.
    destruct (Z.eqb_spec (p_exit (w_popen w (Bash.command_line args +:+ " 2>&1"))) 0);
      [done|].
    by eexists.
  - split; [done|]. split; [done|]. done.
Qed.

Lemma bash_failure_is_success_witness :
  is_success
    (Bash.execute cfg_unsafe (JObj [("command", JStr "false")])
       {| w_keys := []; w_files := ∅; w_dirs := ∅; w_creatable := λ _, true;
          w_popen := λ _, {| p_pipe := true; p_reads := []; p_eof := false;
                             p_elapsed := λ _, 5; p_exit := 1 |};
          w_trace := [] |}).1 = true.
Proof.
  apply bash_failure_is_success.
  - split; [reflexivity|]. split; [reflexivity|]. by left.
  - intros k. vm_compute. discriminate.
Defined.
